(* ===== verification/_CoqProject ===== *)
-Q . S2P
Prelude.v
Catalog.v
Http.v
Store.v
Retry.v
Reorder.v
Regex.v
Pager.v
Run.v
Safety.v
Positions.v
Console.v
MoveInList.v
Pages.v
Throttle.v
