(* ===== verification/Prelude.v ===== *)
(** * A verification library for the Shopify variant position corrector

    The program is one Node.js file, [src/index.js] (95 lines).  It pages
    through the product catalogue of a Shopify store (REST Admin API
    2023-10) and, for every product whose first variant titled "sample"
    (case-insensitively) sits before its first variant titled "bolt",
    swaps the two variants' positions with two PUT requests.

    ** The program's parts and how they interact

    - The HTTP client [apiClient] (lines 8-14): an axios instance with a
      base URL built from [SHOPIFY_STORE] and [ADMIN_API_VERSION] and two
      headers.  axios resolves a request whose status is 2xx and rejects
      any other status (with [error.response]) or a network failure
      (without it).
    - [sleep] (16-18): a timer; every delay is a suspension point.
    - [retryRequest] (20-31): GET with exponential back-off on HTTP 429,
      at most [retriesLeft] (default 5) extra attempts, the delay doubling
      from 1000 ms.
    - [processAllProducts] (33-61): a [while (true)] loop over pages.  It
      reads [data.products], stops on an absent or empty list, processes
      each product in order, and follows the [link] header: a regular
      expression (line 51) extracts the [page_info] cursor of the
      [rel="next"] entry, and the loop stops when there is none.
    - [checkAndReorderVariants] (63-78) and [updateVariantPosition]
      (80-88): the reorder policy and its PUT request.
    - The top-level async IIFE (90-95): runs the loop and logs any error.

    All of it runs on one thread; the only interleaving is the order of
    the awaited requests, delays and log lines, which the model records
    as a trace.

    ** Files, and what each models

    - [Prelude] (this file): JavaScript string operations the code uses
      ([String.prototype.toLowerCase], [includes], number-to-string in
      template literals) on strings of Latin-1 code units; lemmas on
      [List.find] (the code's [Array.prototype.find]); a generic monad of
      state, an output trace and exceptions ([eff]) with its notation
      scope [eff_scope], its setoid equivalence, the hint database
      [eff], and trace invariants [all_events] with their sequencing
      rules (hint database [events]).
    - [Catalog]: the JSON data the API returns (variants, products).
    - [Http]: requests, responses, axios errors, the [Transport] class (the
      interface between the program and the store), the program monad
      [M], [apiClient]'s GET and PUT, and [sleep].
    - [Retry]: [retryRequest].
    - [Reorder]: [checkAndReorderVariants], [updateVariantPosition], and
      the pure specification of the swap.
    - [Regex]: the fragment of ECMAScript regular expressions used on line
      51, a backtracking matcher with captures following the ECMAScript
      matcher semantics, [String.prototype.match], and the cursor
      extraction.
    - [Pager]: [processAllProducts] as a fuel-bounded [page_loop], the
      big-step relation [loop_exec] of the loop, and the IIFE [main].
    - [Store]: a model of the Shopify store as a [Transport] instance
      (pages of 250 products, the [link] header in Shopify's format, a
      PUT routed by the variant id it parses back from the URL, 401, 404
      and 422), used for end-to-end theorems.
    - [Run]: [main] run on the store: routing of the loop's URLs, the
      [link] headers leading from page to page, the whole run, and the
      run with a refused token.
    - [Safety]: what any run may send, as a trace invariant.
    - [Positions]: the catalogue invariant that positions are [1..n].
    - [Console]: the text and channel of every console line.
    - [MoveInList]: the swap on a store whose PUT moves the variant
      within its list and renumbers (Shopify's own semantics).
    - [Pages]: the loop on a scripted listing, page by page.
    - [Throttle]: the Admin API's rate limit as a leaky bucket, both as a
      meter on traces and as a wrapper around any store; the bounds of
      the bucket along every function of the program.

    ** What the theorems show (claim ids C1-C31)

    - The whole program (Run, Safety, Positions, Console): on a store that
      writes the position field, with unique variant ids and a store
      handle of letters, digits and hyphens, [main] terminates with one
      unit of fuel per page, logs that it finished, resolves, and leaves
      every product as the pure specification [reorder_product] makes it
      (C1); it sends exactly the planned PUTs, in catalogue order, and
      one GET per page (C28); a second run changes nothing and sends
      only GETs (C11); every product keeps positions [1..n] (C21).  On
      any store, every request of every run goes to the configured Admin
      API with the token and is a listing GET or a variant PUT to its own
      URL, every delay at least 1 s (C6); a run that resolves prints
      exactly one closing line, its last: "Finished processing all
      products." or "Error occurred:" (C24).  A refused token gives one
      GET, one error line, and no change (C22).
    - The reorder policy (Reorder, MoveInList): on the store, exactly the
      product's sample and bolt variants exchange positions and no other
      product is touched (C2), also when a PUT moves the variant and
      renumbers (C7); no write without both classifications (C9) or when
      the order is already right (C10); the exact trace of a swap (C8); a
      rejected first PUT, a 429 included, is not retried and ends the
      swap (C26); a rejected second PUT propagates with no compensation
      (C13); a second pass over the product the first pass left in the
      store is a no-op (C19); the one request of [updateVariantPosition]
      is a PUT whose URL the store routes back to the variant id of its
      body, for every integer (C20).
    - The retrier (Retry, Console): k answers 429 then success give k+1
      GETs with delays d, 2d, 4d, ... (C3); a store that always throttles
      gets retriesLeft+1 GETs then the 429 error (C4); at most
      retriesLeft+1 requests on any store (C14); other failures propagate
      at once (C15); the warnings read "Retrying in 1, 2, 4, ... seconds"
      (C23).
    - The cursor (Regex): the regex of line 51 yields the [page_info]
      cursor of the [rel="next"] entry, a [rel="previous"] entry before it
      included (C5); no cursor without [>; rel="next"] (C16); in general
      the cursor is the text after the last [page_info=] before the final
      [>; rel="next"], up to the next [>], whichever entry it lies in, so
      later query parameters are part of it and a [rel="next"] entry
      without [page_info] takes an earlier entry's cursor (C17); the
      expression matches exactly the headers holding
      [<x page_info=y1 y2>; rel="next"] with no line terminator in [x],
      [y2] and no [>] in [y1] (C27).
    - The loop and the IIFE (Pager, Pages): a store that always links to
      a next page makes the loop run forever (C18); on a listing whose
      last page has no next link, the loop takes exactly its pages and
      stops (C25, P6); over any store, a first page refused with a status
      other than 2xx and 429 gives one GET, one [console.error] of the
      response body, and a resolved promise, and a network failure the
      same with the error itself (C12).  The fuel-bounded loop agrees with
      its big-step semantics [loop_exec], and more fuel changes no result
      that ended (lemmas [page_loop_agrees], [page_loop_fuel_mono]).
    - The rate limit (Throttle): with a bucket that leaks at least one
      unit per second, the one-second sleeps after each write and each
      retried read give back what the request took, so a run with fuel
      [f] started at level [l] never finds the bucket full when
      [l + f + 1 <= capacity], whatever the store answers (C29); behind
      such a bucket any store serves the run exactly as without it
      (C30), and the whole-run theorem C1 holds on the rate-limited
      store (C31).

    ** Bounds and fuel

    The [while (true)] loop is the only unbounded iteration; the model
    gives it a [nat] fuel and returns the distinguished outcome
    [OutOfFuel] when the fuel runs out, so no theorem confuses running
    out of fuel with an error.  One unit per page fetched is enough
    (C1: [length products <= fuel * 250] and [0 < fuel]), more never
    changes a result ([page_loop_fuel_mono]), and no bound exists for a store that keeps
    linking to a next page (C18).  The retry depth is the code's own
    [retriesLeft] counter, a [nat] (the code only ever passes 5 and
    decrements it while it is positive).  Positions and ids are [Z], as
    JavaScript numbers that are integers; the code does no arithmetic on
    them but the comparison and the doubling of the delay, which stays
    far below 2^53 for the six attempts made.  The text of [delay / 1000]
    is exact for [|delay| < 10^15] (Console).  The bucket of Throttle is
    a [Z] level; its bound [l + f + 1 <= capacity] counts one unit per
    page of the fuel, so with Shopify's bucket of 40 a run of up to 39
    pages (9750 products) from an empty bucket is never throttled.

    ** Plan for later sittings

    - The leaky bucket behind the store that moves variants (MoveInList).
    - A bucket leaking less than one unit per second: the bound would then
      grow with the number of swaps.

    ** Not modelled

    - [dotenv] and [process.env] (lines 2-6): the store name and token
      are parameters.
    - The formatting by [util.inspect] of the object [console.error]
      prints on line 94: the console line keeps the object.
    - The time a request takes: the bucket does not leak while a request
      is in flight, which only overestimates its level.
    - Bodies that do not follow the JSON schema of the API (a product
      without a [variants] array, a title that is not a string): the
      JavaScript would throw a [TypeError]; the model's data types exclude
      them.
    - Concurrency: the program awaits every request in turn, so a run is
      one sequence of events; no interleaving with other clients of the
      store is modelled. *)

From Stdlib Require Import String Ascii ZArith List Lia DecimalString DecimalNat.
From stdpp Require Import base list strings decidable.
Import ListNotations.

(** ** Automation shared by the development *)

Create HintDb eff.
Create HintDb jsstr.
Create HintDb events.
Create Rewrite HintDb eff_rw.
Create Rewrite HintDb jsstr_rw.

Ltac invc H := inversion H; subst; clear H.

(** Split every pair and outcome produced by a [let '(..) := ..] or a
    [match] on an effectful computation in the goal. *)
Ltac destruct_run :=
  repeat match goal with
  | |- context [match ?m with _ => _ end] =>
      lazymatch m with
      | context [_ _] => destruct m as [[? ?] [? | ? |]] eqn:?
      end
  end.

(** ** JavaScript strings

    A string is a sequence of code units; the model keeps the code units
    that fit in one byte (the Latin-1 range), the [ascii] type of the
    Standard Library. *)

Local Open Scope string_scope.

(** Lemmas on [String.append] the Standard Library lacks. *)
Lemma string_app_assoc (a b c : string) : a ++ (b ++ c) = (a ++ b) ++ c.
Proof. induction a as [|x a IH]; [done|]. exact (f_equal (String x) IH). Qed.

Lemma string_app_nil_r (a : string) : a ++ "" = a.
Proof. induction a as [|x a IH]; [done|]. exact (f_equal (String x) IH). Qed.

Lemma string_length_app (a b : string) : String.length (a ++ b) = (String.length a + String.length b)%nat.
Proof. induction a as [|x a IH]; [done|]. exact (f_equal S IH). Qed.

Lemma string_app_cons (c : ascii) (a b : string) : String c a ++ b = String c (a ++ b).
Proof. reflexivity. Qed.

#[export] Hint Rewrite string_app_nil_r string_length_app string_app_cons : jsstr_rw.

(** Every character of a string satisfies a test. *)
Fixpoint string_forall (q : ascii -> bool) (s : string) : bool :=
  match s with
  | EmptyString => true
  | String c s' => q c && string_forall q s'
  end.

Lemma string_forall_app q (a b : string) :
  string_forall q (a ++ b) = string_forall q a && string_forall q b.
Proof. induction a as [|c a IH]; [done|]. rewrite string_app_cons. cbn [string_forall]. rewrite IH. apply andb_assoc. Qed.

Lemma string_forall_impl (q1 q2 : ascii -> bool) s :
  (forall c, q1 c = true -> q2 c = true) -> string_forall q1 s = true -> string_forall q2 s = true.
Proof.
  intros Hq. induction s as [|c s IH]; [done|]. cbn. intros [Hc Hs]%andb_prop. by rewrite Hq, IH.
Qed.

(** Two decompositions of one string: one cut lies left of the other. *)
Lemma string_app_eq_app (x y w z : string) :
  x ++ y = w ++ z ->
  (exists x2, x = w ++ x2 /\ z = x2 ++ y) \/ (exists y1, y = y1 ++ z /\ w = x ++ y1).
Proof.
  revert w. induction x as [|c x IH]; intros w H.
  - right. exists w. by split.
  - destruct w as [|d w].
    + left. exists (String c x). by split.
    + rewrite !string_app_cons in H. injection H as -> H. destruct (IH w H) as [(x2 & -> & ->)|(y1 & -> & ->)].
      * left. by exists x2.
      * right. by exists y1.
Qed.

(** A prefix of [x ++ y] is a prefix of [x], or covers [x] and goes on in [y]. *)
Lemma prefix_app_inv (p x y : string) :
  String.prefix p (x ++ y) = true ->
  String.prefix p x = true \/ exists p2, p = x ++ p2 /\ String.prefix p2 y = true.
Proof.
  revert p. induction x as [|c x IH]; intros p H.
  - right. by exists p.
  - destruct p as [|d p]; [by left|]. rewrite string_app_cons in H. cbn in H |- *.
    destruct (ascii_dec d c) as [->|]; [|discriminate].
    destruct (IH p H) as [Hp|(p2 & -> & Hp2)]; [by left|]. right. by exists p2.
Qed.

Lemma prefix_forall (q : ascii -> bool) (p x : string) :
  String.prefix p x = true -> string_forall q x = true -> string_forall q p = true.
Proof.
  revert x. induction p as [|d p IH]; intros [|c x]; cbn; try done.
  destruct (ascii_dec d c) as [->|]; [|discriminate].
  intros Hp [Hc Hx]%andb_prop. rewrite Hc. by apply (IH x).
Qed.

(** A pattern whose characters all differ from [c] is no prefix of a
    string starting with [c]. *)
Lemma prefix_first_char (p z : string) (c : ascii) :
  p <> EmptyString -> string_forall (fun d => if ascii_dec d c then false else true) p = true ->
  String.prefix p (String c z) = false.
Proof.
  destruct p as [|d p]; [done|]. intros _. cbn. destruct (ascii_dec d c); [done|].
  destruct (ascii_dec d c); done.
Qed.

Module JsString.

(** The Latin-1 upper-case letters that [toLowerCase] maps: [A]-[Z] and
    U+00C0-U+00DE except U+00D7 (the multiplication sign).  Each maps
    32 code points up. *)
Definition is_upper (c : ascii) : bool :=
  let n := nat_of_ascii c in
  (((65 <=? n) && (n <=? 90)) || ((192 <=? n) && (n <=? 222) && negb (n =? 215)))%nat.

Definition to_lower_char (c : ascii) : ascii :=
  if is_upper c then ascii_of_nat (nat_of_ascii c + 32) else c.

(** [String.prototype.toLowerCase]. *)
Fixpoint toLowerCase (s : string) : string :=
  match s with
  | EmptyString => EmptyString
  | String c s' => String (to_lower_char c) (toLowerCase s')
  end.

(** [s.includes(pat)]: [pat] occurs at some index of [s] (the empty
    pattern occurs everywhere). *)
Fixpoint includes (s pat : string) : bool :=
  String.prefix pat s ||
  match s with
  | EmptyString => false
  | String _ s' => includes s' pat
  end.

(** Line terminators, which [.] in a regular expression does not match:
    LF and CR (U+2028 and U+2029 lie outside the modelled range). *)
Definition is_line_terminator (c : ascii) : bool :=
  ((nat_of_ascii c =? 10) || (nat_of_ascii c =? 13))%nat.

(** The decimal text of an integer-valued number, as a template literal
    prints it. *)
Definition number_to_string (z : Z) : string :=
  NilEmpty.string_of_int (Z.to_int z).

Lemma prefix_app (p s : string) : String.prefix p (p ++ s) = true.
Proof. induction p; simpl; [destruct s|]; auto. destruct (ascii_dec a a); congruence. Qed.

Lemma prefix_spec (p s : string) :
  String.prefix p s = true <-> exists r, s = p ++ r.
Proof.
  split.
  - revert s. induction p as [|a p IH]; intros s H; [by exists s|].
    destruct s as [|b s]; simpl in H; [discriminate|].
    destruct (ascii_dec a b); [subst|discriminate].
    destruct (IH s H) as [r ->]. by exists r.
  - intros [r ->]. apply prefix_app.
Qed.

Lemma includes_prefix (s pat : string) :
  String.prefix pat s = true -> includes s pat = true.
Proof. intros H. destruct s; cbn [includes]; apply orb_true_iff; auto. Qed.

Lemma includes_spec (s pat : string) :
  includes s pat = true <-> exists a b, s = a ++ pat ++ b.
Proof.
  split.
  - induction s as [|c s IH]; cbn [includes]; intros H;
      apply orb_true_iff in H as [H|H].
    + apply prefix_spec in H as [r Hr]. exists "", r. exact Hr.
    + discriminate.
    + apply prefix_spec in H as [r Hr]. exists "", r. exact Hr.
    + destruct (IH H) as (a & b & ->). by exists (String c a), b.
  - intros (a & b & ->). induction a as [|c a IH].
    + apply includes_prefix. exact (prefix_app pat b).
    + change (includes (String c (a ++ pat ++ b)) pat = true).
      cbn [includes]. rewrite IH. apply orb_true_r.
Qed.

Lemma includes_app_l (a s pat : string) :
  includes s pat = true -> includes (a ++ s) pat = true.
Proof.
  rewrite !includes_spec. intros (x & y & ->).
  exists (a ++ x), y. by rewrite string_app_assoc.
Qed.

Lemma toLowerCase_app (a b : string) :
  toLowerCase (a ++ b) = toLowerCase a ++ toLowerCase b.
Proof. induction a as [|c a IH]; [done|]. exact (f_equal (String _) IH). Qed.

End JsString.

#[export] Hint Rewrite JsString.toLowerCase_app : jsstr_rw.
#[export] Hint Resolve JsString.prefix_app JsString.includes_app_l : jsstr.

Local Close Scope string_scope.

(** ** [Array.prototype.find] is [List.find]

    [find] returns the first element satisfying the predicate. *)

Section Find.
Context {A : Type} (f : A -> bool).

Lemma find_first (l : list A) (x : A) :
  find f l = Some x <->
  exists l1 l2, l = l1 ++ x :: l2 /\ f x = true /\ Forall (fun y => f y = false) l1.
Proof.
  split.
  - induction l as [|y l IH]; simpl; [discriminate|].
    destruct (f y) eqn:Hy.
    + intros [= ->]. by exists [], l.
    + intros H. destruct (IH H) as (l1 & l2 & -> & Hx & Hl1).
      exists (y :: l1), l2. repeat split; auto.
  - intros (l1 & l2 & -> & Hx & Hl1). induction Hl1 as [|y l1 Hy _ IH]; simpl.
    + by rewrite Hx.
    + by rewrite Hy.
Qed.

Lemma find_none_iff (l : list A) :
  find f l = None <-> Forall (fun y => f y = false) l.
Proof.
  induction l as [|y l IH]; simpl; [split; auto|].
  destruct (f y) eqn:Hy; split; intros H.
  - discriminate.
  - invc H. congruence.
  - constructor; [done|]. by apply IH.
  - apply IH. by invc H.
Qed.

Lemma find_In (l : list A) (x : A) : find f l = Some x -> In x l /\ f x = true.
Proof. apply find_some. Qed.

Lemma find_ext (g : A -> bool) (l : list A) :
  (forall x, f x = g x) -> find f l = find g l.
Proof. intros Hfg. induction l as [|y l IH]; simpl; [done|]. by rewrite Hfg, IH. Qed.

(** Searching a mapped list is searching the list with the composed test. *)
Lemma find_map {B} (g : B -> A) (l : list B) :
  find f (map g l) = option_map g (find (fun x => f (g x)) l).
Proof. induction l as [|y l IH]; simpl; [done|]. by destruct (f (g y)). Qed.
End Find.

(** ** A monad of state, output trace and exceptions

    [eff S W E A] runs from a state [S]; it returns the new state, the
    list of events [W] it emitted, and an outcome: a value, an exception
    [E], or [OutOfFuel] when a bounded loop ran out of fuel.  Events are
    emitted in order, so the trace of [m >>= k] is the trace of [m]
    followed by that of [k]. *)

Inductive outcome (E A : Type) : Type :=
| Ok (a : A)
| Exc (e : E)
| OutOfFuel.
Arguments Ok {E A} a.
Arguments Exc {E A} e.
Arguments OutOfFuel {E A}.

Definition eff (S W E A : Type) : Type := S -> S * list W * outcome E A.

Section Eff.
Context {S W E : Type}.

Definition eret {A} (a : A) : eff S W E A := fun s => (s, [], Ok a).

Definition ebind {A B} (m : eff S W E A) (k : A -> eff S W E B) : eff S W E B :=
  fun s =>
    match m s with
    | (s1, t1, Ok a) => let '(s2, t2, o) := k a s1 in (s2, t1 ++ t2, o)
    | (s1, t1, Exc e) => (s1, t1, Exc e)
    | (s1, t1, OutOfFuel) => (s1, t1, OutOfFuel)
    end.

Definition throw {A} (e : E) : eff S W E A := fun s => (s, [], Exc e).

Definition out_of_fuel {A} : eff S W E A := fun s => (s, [], OutOfFuel).

(** [try { m } catch (e) { h(e) }]: only exceptions are caught. *)
Definition try_catch {A} (m : eff S W E A) (h : E -> eff S W E A) : eff S W E A :=
  fun s =>
    match m s with
    | (s1, t1, Exc e) => let '(s2, t2, o) := h e s1 in (s2, t1 ++ t2, o)
    | r => r
    end.

Definition emit (w : W) : eff S W E unit := fun s => (s, [w], Ok tt).

Definition modify (f : S -> S) : eff S W E unit := fun s => (f s, [], Ok tt).

Definition gets {A} (f : S -> A) : eff S W E A := fun s => (s, [], Ok (f s)).

(** [for (const x of l) { await f(x); }] *)
Fixpoint for_each {A} (l : list A) (f : A -> eff S W E unit) : eff S W E unit :=
  match l with
  | [] => eret tt
  | x :: l' => ebind (f x) (fun _ => for_each l' f)
  end.

(** Two computations are equivalent when they agree from every state. *)
Definition eff_eq {A} (m1 m2 : eff S W E A) : Prop := forall s, m1 s = m2 s.

#[export] Instance eff_eq_equiv {A} : Equivalence (@eff_eq A).
Proof. split; repeat intro; congruence. Qed.

#[export] Instance ebind_proper {A B} :
  Proper (eff_eq ==> pointwise_relation A eff_eq ==> eff_eq) (@ebind A B).
Proof.
  intros m1 m2 Hm k1 k2 Hk s. unfold ebind. rewrite Hm.
  destruct (m2 s) as [[s1 t1] [a| |]]; [|done|done]. by rewrite Hk.
Qed.

#[export] Instance try_catch_proper {A} :
  Proper (eff_eq ==> pointwise_relation E eff_eq ==> eff_eq) (@try_catch A).
Proof.
  intros m1 m2 Hm h1 h2 Hh s. unfold try_catch. rewrite Hm.
  destruct (m2 s) as [[s1 t1] [a|e|]]; [done| |done]. by rewrite Hh.
Qed.

Lemma ebind_ret_l {A B} (a : A) (k : A -> eff S W E B) : eff_eq (ebind (eret a) k) (k a).
Proof. intros s. unfold ebind, eret. simpl. by destruct (k a s) as [[? ?] ?]. Qed.

Lemma ebind_ret_r {A} (m : eff S W E A) : eff_eq (ebind m eret) m.
Proof.
  intros s. unfold ebind, eret.
  destruct (m s) as [[s1 t1] [a| |]]; by rewrite ?app_nil_r.
Qed.

Lemma ebind_assoc {A B C} (m : eff S W E A) (k : A -> eff S W E B) (j : B -> eff S W E C) :
  eff_eq (ebind (ebind m k) j) (ebind m (fun a => ebind (k a) j)).
Proof.
  intros s. unfold ebind.
  destruct (m s) as [[s1 t1] [a| |]]; [|done|done].
  destruct (k a s1) as [[s2 t2] [b| |]]; [|done|done].
  destruct (j b s2) as [[s3 t3] o]. by rewrite app_assoc.
Qed.

(** Running a bind whose first computation returned a value. *)
Lemma ebind_Ok {A B} (m : eff S W E A) (k : A -> eff S W E B) s s1 t1 a :
  m s = (s1, t1, Ok a) ->
  ebind m k s = let '(s2, t2, o) := k a s1 in (s2, t1 ++ t2, o).
Proof. intros H. unfold ebind. by rewrite H. Qed.

Lemma ebind_Exc {A B} (m : eff S W E A) (k : A -> eff S W E B) s s1 t1 e :
  m s = (s1, t1, Exc e) -> ebind m k s = (s1, t1, Exc e).
Proof. intros H. unfold ebind. by rewrite H. Qed.

Lemma ebind_OutOfFuel {A B} (m : eff S W E A) (k : A -> eff S W E B) s s1 t1 :
  m s = (s1, t1, OutOfFuel) -> ebind m k s = (s1, t1, OutOfFuel).
Proof. intros H. unfold ebind. by rewrite H. Qed.

Lemma try_catch_not_Exc {A} (m : eff S W E A) h s r :
  m s = r -> (forall s1 t1 e, r <> (s1, t1, Exc e)) -> try_catch m h s = r.
Proof.
  intros Hm Hr. unfold try_catch. rewrite Hm.
  destruct r as [[s1 t1] [a|e|]]; [done| |done]. by destruct (Hr s1 t1 e).
Qed.

Lemma try_catch_Exc {A} (m : eff S W E A) h s s1 t1 e :
  m s = (s1, t1, Exc e) ->
  try_catch m h s = let '(s2, t2, o) := h e s1 in (s2, t1 ++ t2, o).
Proof. intros H. unfold try_catch. by rewrite H. Qed.

(** A loop whose body does nothing, from any state, does nothing. *)
Lemma for_each_skip {A} (l : list A) (f : A -> eff S W E unit) s :
  Forall (fun x => forall s0, f x s0 = (s0, [], Ok tt)) l -> for_each l f s = (s, [], Ok tt).
Proof.
  induction 1 as [|x l Hx _ IH]; [done|]. cbn [for_each]. unfold ebind. by rewrite Hx, IH.
Qed.

Lemma for_each_app {A} (l1 l2 : list A) (f : A -> eff S W E unit) :
  eff_eq (for_each (l1 ++ l2) f) (ebind (for_each l1 f) (fun _ => for_each l2 f)).
Proof.
  induction l1 as [|x l1 IH]; simpl.
  - by rewrite ebind_ret_l.
  - rewrite ebind_assoc. apply ebind_proper; [done|]. intros []. apply IH.
Qed.
(** A computation with no bounded loop never reports [OutOfFuel]. *)
Definition never_oof {A} (m : eff S W E A) : Prop := forall s s' t, m s <> (s', t, OutOfFuel).

Lemma never_oof_ret {A} (a : A) : never_oof (eret a).
Proof. intros s s' t. discriminate. Qed.

Lemma never_oof_throw {A} (e : E) : never_oof (A:=A) (throw e).
Proof. intros s s' t. discriminate. Qed.

Lemma never_oof_emit w : never_oof (emit w).
Proof. intros s s' t. discriminate. Qed.

Lemma never_oof_bind {A B} (m : eff S W E A) (k : A -> eff S W E B) :
  never_oof m -> (forall a, never_oof (k a)) -> never_oof (ebind m k).
Proof.
  intros Hm Hk s s' t. unfold ebind.
  destruct (m s) as [[s1 t1] [a|e|]] eqn:E1; [|discriminate|by destruct (Hm s s1 t1)].
  destruct (k a s1) as [[s2 t2] o] eqn:E2. intros [= <- <- ->]. by apply (Hk a s1 s2 t2).
Qed.

Lemma never_oof_catch {A} (m : eff S W E A) h :
  never_oof m -> (forall e, never_oof (h e)) -> never_oof (try_catch m h).
Proof.
  intros Hm Hh s s' t. unfold try_catch.
  destruct (m s) as [[s1 t1] [a|e|]] eqn:E1; [discriminate| |by destruct (Hm s s1 t1)].
  destruct (h e s1) as [[s2 t2] o] eqn:E2. intros [= <- <- ->]. by apply (Hh e s1 s2 t2).
Qed.

Lemma never_oof_for_each {A} (l : list A) (f : A -> eff S W E unit) :
  (forall x, never_oof (f x)) -> never_oof (for_each l f).
Proof.
  intros Hf. induction l as [|x l IH]; simpl; [apply never_oof_ret|].
  apply never_oof_bind; [apply Hf|intros; apply IH].
Qed.

(** ** Trace invariants

    [all_events P m]: every event of every run of [m], whatever its
    outcome, satisfies [P] -- a safety property of the computation, in
    the style of a Hoare specification with a sequencing rule. *)
Definition all_events (P : W -> Prop) {A} (m : eff S W E A) : Prop :=
  forall s s' t o, m s = (s', t, o) -> Forall P t.

Lemma all_events_ret P {A} (a : A) : all_events P (eret a).
Proof. by intros s s' t o [= _ <- _]. Qed.

Lemma all_events_throw P {A} (e : E) : all_events P (A:=A) (throw e).
Proof. by intros s s' t o [= _ <- _]. Qed.

Lemma all_events_out_of_fuel P {A} : all_events P (A:=A) out_of_fuel.
Proof. by intros s s' t o [= _ <- _]. Qed.

Lemma all_events_emit (P : W -> Prop) w : P w -> all_events P (emit w).
Proof. intros Hw s s' t o [= _ <- _]. by constructor. Qed.

Lemma all_events_bind P {A B} (m : eff S W E A) (k : A -> eff S W E B) :
  all_events P m -> (forall a, all_events P (k a)) -> all_events P (ebind m k).
Proof.
  intros Hm Hk s s' t o. unfold ebind.
  destruct (m s) as [[s1 t1] [a|e|]] eqn:E1; [|by intros [= _ <- _]; eauto..].
  destruct (k a s1) as [[s2 t2] o2] eqn:E2. intros [= _ <- _].
  apply Forall_app; split; [exact (Hm _ _ _ _ E1)|exact (Hk _ _ _ _ _ E2)].
Qed.

Lemma all_events_catch P {A} (m : eff S W E A) h :
  all_events P m -> (forall e, all_events P (h e)) -> all_events P (try_catch m h).
Proof.
  intros Hm Hh s s' t o. unfold try_catch.
  destruct (m s) as [[s1 t1] [a|e|]] eqn:E1; [by intros [= _ <- _]; eauto| |by intros [= _ <- _]; eauto].
  destruct (h e s1) as [[s2 t2] o2] eqn:E2. intros [= _ <- _].
  apply Forall_app; split; [exact (Hm _ _ _ _ E1)|exact (Hh _ _ _ _ _ E2)].
Qed.

Lemma all_events_for_each P {A} (l : list A) (f : A -> eff S W E unit) :
  (forall x, all_events P (f x)) -> all_events P (for_each l f).
Proof.
  intros Hf. induction l as [|x l IH]; simpl; [apply all_events_ret|].
  apply all_events_bind; [apply Hf|intros; apply IH].
Qed.

End Eff.

#[export] Hint Resolve all_events_ret all_events_throw all_events_out_of_fuel all_events_emit
  all_events_bind all_events_catch all_events_for_each : events.

#[export] Hint Resolve never_oof_ret never_oof_throw never_oof_emit never_oof_bind
  never_oof_catch never_oof_for_each : eff.

Arguments eff_eq {S W E A} m1 m2 : simpl never.

#[export] Hint Rewrite @ebind_ret_l @ebind_ret_r @ebind_assoc : eff_rw.
#[export] Hint Resolve ebind_Ok ebind_Exc ebind_OutOfFuel try_catch_Exc : eff.

Declare Scope eff_scope.
Delimit Scope eff_scope with eff.
Notation "x <- m ;; k" := (ebind m (fun x => k))
  (at level 100, m at next level, right associativity) : eff_scope.
Notation "m ;; k" := (ebind m (fun _ => k))
  (at level 100, right associativity) : eff_scope.
Notation "'try' m 'catch' h" := (try_catch m h) (at level 60, m at level 0, h at level 0) : eff_scope.
