(* ===== verification/Catalog.v ===== *)
(** * The catalogue data the program reads and writes

    The JSON objects of the Shopify REST API that [src/index.js] touches:
    a variant [{id, title, position}], a product [{id, title, variants}],
    the body of a listing response [{products: [...]}], and the body of
    the PUT request of [updateVariantPosition] (lines 82-87).  Numbers are
    integers ([Z]); strings are [string]. *)

From Stdlib Require Import String ZArith List.
From stdpp Require Import base list strings decidable.
From S2P Require Import Prelude.
Import ListNotations.

Record variant := mkVariant {
  v_id : Z;
  v_title : string;
  v_position : Z
}.

Record product := mkProduct {
  p_id : Z;
  p_title : string;
  p_variants : list variant
}.

(** The response body as axios hands it over in [data]: a parsed JSON
    object, which may or may not carry a [products] field (an absent or
    [null] field is [None]), or a body that is not a JSON object (text or
    the empty body), whose [.products] is [undefined]. *)
Inductive body :=
| JsonObject (products : option (list product))
| OtherBody (text : string).

(** [data.products] (line 39). *)
Definition products_field (data : body) : option (list product) :=
  match data with
  | JsonObject ps => ps
  | OtherBody _ => None
  end.

(** The payload [{variant: {id: variantId, position: newPosition}}]
    (lines 83-86). *)
Record variant_update := mkUpdate {
  upd_id : Z;
  upd_position : Z
}.

#[export] Instance variant_eq_dec : EqDecision variant.
Proof. solve_decision. Defined.
#[export] Instance product_eq_dec : EqDecision product.
Proof. solve_decision. Defined.
#[export] Instance variant_update_eq_dec : EqDecision variant_update.
Proof. solve_decision. Defined.
#[export] Instance body_eq_dec : EqDecision body.
Proof. solve_decision. Defined.
