(* ===== verification/Http.v ===== *)
(** * The HTTP client, the transport interface and the program monad

    [apiClient] (src/index.js lines 8-14) is an axios instance: every
    request goes to [baseURL] followed by the relative URL, with the two
    fixed headers.  axios resolves a request whose status is 2xx and
    rejects the others with an error carrying [error.response]; a network
    failure rejects with no response.

    The program meets the store through the [Transport] class: one
    request in, one reply out, and the passing of time for [sleep]
    (lines 16-18).  The program's computations live in the monad [M] of
    [Prelude]: the transport's state is the monad's state and every
    request, delay and console line is an [event] of the trace. *)

From Stdlib Require Import String ZArith List.
From stdpp Require Import base list strings decidable.
From S2P Require Import Prelude Catalog.
Import ListNotations.
Local Open Scope string_scope.

(** [process.env] (lines 4 and 6), loaded by [dotenv]. *)
Class Env := {
  SHOPIFY_STORE : string;
  SHOPIFY_ACCESS_TOKEN : string
}.

Definition ADMIN_API_VERSION : string := "2023-10".

Inductive method := GET | PUT.

Record request := mkRequest {
  req_method : method;
  req_url : string;
  req_headers : list (string * string);
  req_body : option variant_update
}.

Record response := mkResponse {
  status : Z;
  data : body;
  headers : list (string * string)
}.

Inductive reply :=
| Reply (r : response)
| NetworkFailure.

(** The error an awaited request rejects with: an axios error, with
    [error.response] when the server answered. *)
Inductive js_error :=
| AxiosError (response : option response).

(** What [console.error] prints on line 94. *)
Inductive error_report :=
| ReportData (d : body)
| ReportError (e : js_error).

Inductive log_line :=
| LogRetry (delay : Z)                    (* line 25 *)
| LogPage (pageNumber : Z) (count : nat)  (* line 43 *)
| LogReorder (product_id : Z) (title : string)   (* line 70 *)
| LogOrder (sample_position bolt_position : Z)   (* line 71 *)
| LogReorderComplete                      (* line 76 *)
| LogFinished                             (* line 60 *)
| LogError (report : error_report).       (* line 94 *)

Inductive event :=
| EvRequest (r : request)
| EvSleep (ms : Z)
| EvLog (l : log_line).

#[export] Instance method_eq_dec : EqDecision method.
Proof. solve_decision. Defined.
#[export] Instance request_eq_dec : EqDecision request.
Proof. solve_decision. Defined.
#[export] Instance response_eq_dec : EqDecision response.
Proof. solve_decision. Defined.
#[export] Instance js_error_eq_dec : EqDecision js_error.
Proof. solve_decision. Defined.

(** What the program requires of the store it talks to. *)
Class Transport (σ : Type) := {
  transport_send : σ -> request -> σ * reply;
  transport_wait : σ -> Z -> σ
}.

Definition M (σ A : Type) : Type := eff σ event js_error A.

(** The lookup [headers['link']]: axios stores header names in lower
    case; the first entry of that name is the header's value. *)
Fixpoint header_get (name : string) (hs : list (string * string)) : option string :=
  match hs with
  | [] => None
  | (k, v) :: hs' => if String.eqb k name then Some v else header_get name hs'
  end.

(** axios's default [validateStatus]. *)
Definition validateStatus (st : Z) : bool := (200 <=? st)%Z && (st <? 300)%Z.

(** The reply of the transport as the awaited promise settles it. *)
Definition settle (rep : reply) : outcome js_error response :=
  match rep with
  | Reply r => if validateStatus (status r) then Ok r else Exc (AxiosError (Some r))
  | NetworkFailure => Exc (AxiosError None)
  end.

Section Client.
Context `{Env} {σ : Type} `{Transport σ}.

Definition baseURL : string :=
  "https://" ++ SHOPIFY_STORE ++ ".myshopify.com/admin/api/" ++ ADMIN_API_VERSION ++ "/".

Definition default_headers : list (string * string) :=
  [("X-Shopify-Access-Token", SHOPIFY_ACCESS_TOKEN); ("Content-Type", "application/json")].

(** The request axios builds: the relative URLs the program uses never
    start with a slash or a scheme, so axios's URL combination is the
    concatenation. *)
Definition mk_request (m : method) (url : string) (b : option variant_update) : request :=
  {| req_method := m; req_url := baseURL ++ url; req_headers := default_headers; req_body := b |}.

Definition send (m : method) (url : string) (b : option variant_update) : M σ response :=
  fun s =>
    let rq := mk_request m url b in
    let '(s', rep) := transport_send s rq in
    (s', [EvRequest rq], settle rep).

(** [apiClient.get(url)] *)
Definition apiClient_get (url : string) : M σ response := send GET url None.

(** [apiClient.put(url, payload)] *)
Definition apiClient_put (url : string) (payload : variant_update) : M σ response :=
  send PUT url (Some payload).

(** [await sleep(ms)] (lines 16-18). *)
Definition sleep (ms : Z) : M σ unit :=
  fun s => (transport_wait s ms, [EvSleep ms], Ok tt).

(** [console.log], [console.warn] and [console.error]. *)
Definition console (l : log_line) : M σ unit := emit (EvLog l).

Lemma send_run m url b s :
  send m url b s =
    (fst (transport_send s (mk_request m url b)), [EvRequest (mk_request m url b)],
     settle (snd (transport_send s (mk_request m url b)))).
Proof. unfold send. by destruct (transport_send s _). Qed.

Lemma settle_not_oof rep : settle rep <> OutOfFuel.
Proof. destruct rep as [r|]; simpl; [destruct (validateStatus _)|]; discriminate. Qed.

Lemma send_never_oof m url b : never_oof (send m url b).
Proof. intros s s' t. rewrite send_run. intros [= _ _ H']. by apply (settle_not_oof _ H'). Qed.

Lemma apiClient_get_never_oof url : never_oof (apiClient_get url).
Proof. apply send_never_oof. Qed.

Lemma apiClient_put_never_oof url u : never_oof (apiClient_put url u).
Proof. apply send_never_oof. Qed.

Lemma sleep_never_oof ms : never_oof (sleep ms).
Proof. intros s s' t. discriminate. Qed.

Lemma console_never_oof l : never_oof (console l).
Proof. apply never_oof_emit. Qed.
End Client.

#[export] Hint Resolve apiClient_get_never_oof apiClient_put_never_oof sleep_never_oof
  console_never_oof : eff.

(** The configuration used by the examples of the development. *)
Definition demo_env : Env := {| SHOPIFY_STORE := "demo"; SHOPIFY_ACCESS_TOKEN := "shpat_0" |}.

(** A scripted store: it answers the successive requests with the replies
    of a list, whatever they ask, and fails at the network level once the
    script is exhausted.  It states hypotheses of the form "the first k
    requests get a 429". *)
#[export] Instance script_transport : Transport (list reply) := {
  transport_send s _ := match s with rep :: s' => (s', rep) | [] => ([], NetworkFailure) end;
  transport_wait s _ := s
}.

Local Close Scope string_scope.

(** The requests and the delays of a trace. *)
Definition requests (tr : list event) : list request :=
  omap (fun e => match e with EvRequest r => Some r | _ => None end) tr.

Definition sleeps (tr : list event) : list Z :=
  omap (fun e => match e with EvSleep ms => Some ms | _ => None end) tr.

Lemma requests_app (t1 t2 : list event) : requests (t1 ++ t2) = requests t1 ++ requests t2.
Proof. apply omap_app. Qed.

Lemma sleeps_app (t1 t2 : list event) : sleeps (t1 ++ t2) = sleeps t1 ++ sleeps t2.
Proof. apply omap_app. Qed.

#[export] Hint Rewrite requests_app sleeps_app : eff_rw.
