(* ===== verification/Store.v ===== *)
(** * A model of the Shopify store behind the API

    Not code of the repository: the environment the program runs against,
    written from the API description of the spec (section 6) so that the
    program's theorems can be stated end to end.  It is a [Transport]
    instance.

    - GET [products.json?limit=250] and [...&page_info=<cursor>] return
      the catalogue in pages of 250 products, with a [link] header that
      carries a [rel="previous"] entry after the first page and a
      [rel="next"] entry before the last.  A cursor is the decimal text of
      the page index.
    - PUT [variants/<id>.json] with [{variant: {id, position}}] sets the
      position of that variant: the store reads the id back from the
      decimal text of the URL, answers 404 for an unknown variant and 422
      when the body names another id.  Two semantics are modelled:
      [SetField] writes the field and nothing else (the spec's reading,
      under which the two positions coincide between the two writes of a
      swap) and [MoveInList] moves the variant to that index of its
      product's list and renumbers all positions (the Shopify Admin
      behaviour).
    - A request with the wrong access token gets 401; an unknown path or
      variant gets 404.  This store never throttles. *)

From Stdlib Require Import String Ascii ZArith List Lia DecimalString DecimalNat DecimalZ.
From stdpp Require Import base list strings decidable.
From S2P Require Import Prelude Catalog Http.
Import ListNotations.
Local Open Scope string_scope.

Inductive put_semantics := SetField | MoveInList.

Record store := mkStore {
  st_name : string;
  st_token : string;
  st_products : list product;
  st_clock : Z
}.

Definition page_limit : nat := 250.

(** The double quote character, U+0022. *)
Definition dquote : string := String (ascii_of_nat 34) EmptyString.

(** [strip_prefix p s = Some r] when [s = p ++ r]. *)
Fixpoint strip_prefix (p s : string) : option string :=
  match p, s with
  | EmptyString, _ => Some s
  | String a p', String b s' => if ascii_dec a b then strip_prefix p' s' else None
  | String _ _, EmptyString => None
  end.

Lemma strip_prefix_app p r : strip_prefix p (p ++ r) = Some r.
Proof. induction p as [|a p IH]; simpl; [done|]. destruct (ascii_dec a a); [done|congruence]. Qed.

Lemma strip_prefix_Some p s r : strip_prefix p s = Some r -> s = p ++ r.
Proof.
  revert s. induction p as [|a p IH]; intros s H.
  - simpl in H. by injection H as ->.
  - destruct s as [|b s]; simpl in H; [discriminate|].
    destruct (ascii_dec a b); [subst|discriminate]. by rewrite (IH s H).
Qed.

(** ** Cursors *)

Definition encode_cursor (k : nat) : string := NilEmpty.string_of_uint (Nat.to_uint k).

Definition decode_cursor (c : string) : option nat :=
  match NilEmpty.uint_of_string c with
  | Some u => Some (Nat.of_uint u)
  | None => None
  end.

Lemma decode_encode_cursor k : decode_cursor (encode_cursor k) = Some k.
Proof. unfold decode_cursor, encode_cursor. by rewrite NilEmpty.usu, Unsigned.of_to. Qed.

(** ** Decimal text

    The program writes numbers into URLs as template literals do
    ([JsString.number_to_string]); the store reads them back. *)

Definition is_digit (c : ascii) : bool :=
  let n := nat_of_ascii c in ((48 <=? n) && (n <=? 57))%nat.

Lemma string_of_uint_digits u : string_forall is_digit (NilEmpty.string_of_uint u) = true.
Proof. induction u; cbn [NilEmpty.string_of_uint string_forall]; try done; by rewrite IHu. Qed.

Definition is_id_char (c : ascii) : bool := is_digit c || Ascii.eqb c "-".

Lemma number_to_string_id_chars z : string_forall is_id_char (JsString.number_to_string z) = true.
Proof.
  unfold JsString.number_to_string, NilEmpty.string_of_int.
  destruct (Z.to_int z) as [u|u]; [|cbn [string_forall]; rewrite andb_true_l];
    apply (string_forall_impl is_digit); try (intros c Hc; unfold is_id_char; by rewrite Hc);
    apply string_of_uint_digits.
Qed.

(** The text of an integer, read back as the API reads an id. *)
Definition decode_id (s : string) : option Z := option_map Z.of_int (NilEmpty.int_of_string s).

Lemma decode_id_number_to_string z : decode_id (JsString.number_to_string z) = Some z.
Proof. unfold decode_id, JsString.number_to_string. rewrite NilEmpty.isi. cbn [option_map]. by rewrite DecimalZ.of_to. Qed.

(** The text before the first [.] and the rest. *)
Fixpoint split_dot (s : string) : string * string :=
  match s with
  | EmptyString => (EmptyString, EmptyString)
  | String c s' =>
      if Ascii.eqb c "." then (EmptyString, s)
      else let '(a, b) := split_dot s' in (String c a, b)
  end.

Lemma split_dot_id z r :
  split_dot (JsString.number_to_string z ++ String "." r) = (JsString.number_to_string z, String "." r).
Proof.
  pose proof (number_to_string_id_chars z) as Hc. revert Hc.
  induction (JsString.number_to_string z) as [|c x IH]; [done|].
  cbn [string_forall]. intros [Hc Hx]%andb_prop. rewrite string_app_cons. cbn [split_dot].
  rewrite IH by done. destruct (Ascii.eqb_spec c "."); [subst; discriminate|done].
Qed.

Section Store.
Context (sem : put_semantics).

Definition store_base (st : store) : string :=
  "https://" ++ st_name st ++ ".myshopify.com/admin/api/" ++ ADMIN_API_VERSION ++ "/".

Definition listing_path : string := "products.json?limit=250".

Definition page_url (st : store) (k : nat) : string :=
  store_base st ++ listing_path ++ "&page_info=" ++ encode_cursor k.

Definition page_slice (k : nat) (ps : list product) : list product :=
  firstn page_limit (skipn (k * page_limit) ps).

Definition has_next_page (k : nat) (ps : list product) : bool :=
  Nat.ltb ((S k) * page_limit) (length ps).

(** The [link] header of page [k], Shopify's format. *)
Definition link_header (st : store) (k : nat) : option string :=
  let prev := "<" ++ page_url st (pred k) ++ ">; rel=" ++ dquote ++ "previous" ++ dquote in
  let next := "<" ++ page_url st (S k) ++ ">; rel=" ++ dquote ++ "next" ++ dquote in
  match k, has_next_page k (st_products st) with
  | O, false => None
  | O, true => Some next
  | S _, false => Some prev
  | S _, true => Some (prev ++ ", " ++ next)
  end.

Definition page_response (st : store) (k : nat) : response :=
  {| status := 200;
     data := JsonObject (Some (page_slice k (st_products st)));
     headers := match link_header st k with Some l => [("link", l)] | None => [] end |}.

Definition put_ok_response : response :=
  {| status := 200; data := OtherBody ""; headers := [] |}.

Definition error_response (code : Z) : response :=
  {| status := code; data := OtherBody ""; headers := [] |}.

(** Which page a GET URL asks for. *)
Definition route_listing (st : store) (url : string) : option nat :=
  match strip_prefix (store_base st ++ listing_path) url with
  | Some EmptyString => Some O
  | Some rest =>
      match strip_prefix "&page_info=" rest with
      | Some c => decode_cursor c
      | None => None
      end
  | None => None
  end.

(** Which variant a PUT URL names: [<base>variants/<id>.json]. *)
Definition route_variant (st : store) (url : string) : option Z :=
  match strip_prefix (store_base st ++ "variants/") url with
  | Some rest =>
      let '(digits, ext) := split_dot rest in
      if String.eqb ext ".json" then decode_id digits else None
  | None => None
  end.

Lemma route_variant_id st z :
  route_variant st (store_base st ++ "variants/" ++ JsString.number_to_string z ++ ".json") = Some z.
Proof.
  unfold route_variant. rewrite string_app_assoc, strip_prefix_app.
  change ".json" with (String "." "json"). rewrite split_dot_id.
  apply decode_id_number_to_string.
Qed.

(** ** Positions *)

Definition set_position (id pos : Z) (v : variant) : variant :=
  if (v_id v =? id)%Z then {| v_id := v_id v; v_title := v_title v; v_position := pos |} else v.

(** Positions [1..n] in list order. *)
Fixpoint renumber (from : Z) (vs : list variant) : list variant :=
  match vs with
  | [] => []
  | v :: vs' => {| v_id := v_id v; v_title := v_title v; v_position := from |} :: renumber (from + 1) vs'
  end.

(** Move the variant [id] to index [pos - 1] (clamped to the list). *)
Definition move_variant (id pos : Z) (vs : list variant) : list variant :=
  match find (fun v => (v_id v =? id)%Z) vs with
  | None => vs
  | Some v =>
      let rest := filter (fun w => negb (v_id w =? id)%Z) vs in
      let i := Z.to_nat (Z.min (Z.max (pos - 1) 0) (Z.of_nat (length rest))) in
      renumber 1 (firstn i rest ++ v :: skipn i rest)
  end.

Definition apply_update (u : variant_update) (vs : list variant) : list variant :=
  match sem with
  | SetField => map (set_position (upd_id u) (upd_position u)) vs
  | MoveInList => move_variant (upd_id u) (upd_position u) vs
  end.

Definition update_products (u : variant_update) (ps : list product) : list product :=
  map (fun p => {| p_id := p_id p; p_title := p_title p; p_variants := apply_update u (p_variants p) |}) ps.

Definition variant_exists (id : Z) (ps : list product) : bool :=
  existsb (fun p => existsb (fun v => (v_id v =? id)%Z) (p_variants p)) ps.

(** Every variant id of the catalogue, in catalogue order.  Shopify's
    variant ids are unique store-wide: [NoDup (variant_ids ps)]. *)
Definition variant_ids (ps : list product) : list Z :=
  concat (map (fun p => map v_id (p_variants p)) ps).

Lemma variant_ids_app ps qs : variant_ids (ps ++ qs) = (variant_ids ps ++ variant_ids qs)%list.
Proof. unfold variant_ids. by rewrite map_app, concat_app. Qed.

Lemma variant_ids_cons p ps : variant_ids (p :: ps) = (map v_id (p_variants p) ++ variant_ids ps)%list.
Proof. done. Qed.

Lemma variant_exists_In id ps : id ∈ variant_ids ps -> variant_exists id ps = true.
Proof.
  unfold variant_exists, variant_ids. rewrite list_elem_of_In, in_concat. intros (l & Hl & Hid).
  apply in_map_iff in Hl as (p & <- & Hp). apply in_map_iff in Hid as (v & Hv & Hin).
  apply existsb_exists. exists p. split; [done|].
  apply existsb_exists. exists v. split; [done|]. by apply Z.eqb_eq.
Qed.

Definition authorized (st : store) (rq : request) : bool :=
  match header_get "X-Shopify-Access-Token" (req_headers rq) with
  | Some t => String.eqb t (st_token st)
  | None => false
  end.

Definition handle (st : store) (rq : request) : store * reply :=
  if negb (authorized st rq) then (st, Reply (error_response 401)) else
  match req_method rq, req_body rq with
  | GET, _ =>
      match route_listing st (req_url rq) with
      | Some k => (st, Reply (page_response st k))
      | None => (st, Reply (error_response 404))
      end
  | PUT, Some u =>
      match route_variant st (req_url rq) with
      | Some id =>
          if negb (variant_exists id (st_products st)) then (st, Reply (error_response 404))
          else if negb (id =? upd_id u)%Z then (st, Reply (error_response 422))
          else ({| st_name := st_name st; st_token := st_token st;
                   st_products := update_products u (st_products st); st_clock := st_clock st |},
                Reply put_ok_response)
      | None => (st, Reply (error_response 404))
      end
  | PUT, None => (st, Reply (error_response 400))
  end.

Definition store_transport : Transport store := {|
  transport_send := handle;
  transport_wait st ms := {| st_name := st_name st; st_token := st_token st;
                             st_products := st_products st; st_clock := st_clock st + ms |}
|}.

Lemma v_id_set_position id pos v : v_id (set_position id pos v) = v_id v.
Proof. unfold set_position. by destruct (v_id v =? id)%Z. Qed.

Lemma v_title_set_position id pos v : v_title (set_position id pos v) = v_title v.
Proof. unfold set_position. by destruct (v_id v =? id)%Z. Qed.

Lemma variant_exists_SetField u id ps :
  sem = SetField -> variant_exists id (update_products u ps) = variant_exists id ps.
Proof.
  intros Hsem. induction ps as [|p ps IH]; simpl; [done|]. rewrite IH. f_equal.
  unfold apply_update. rewrite Hsem. induction (p_variants p) as [|v vs IHv]; simpl; [done|].
  by rewrite IHv, v_id_set_position.
Qed.

End Store.
