(* ===== verification/Retry.v ===== *)
(** * The back-off retrier: [retryRequest] (src/index.js lines 20-31)

    A GET through [apiClient]; when it rejects with a response of status
    429 and [retriesLeft > 0], the code warns, sleeps [delay] ms and
    retries with one retry less and the delay doubled.  Every other
    rejection is re-thrown.

    The theorems: the unfolding of one attempt on each branch, over any
    [Transport]; k 429 answers followed by a success give k+1 GETs and the
    delays [d], [2d], [4d], ... (P4 of the spec); a store that always
    answers 429 gets [retriesLeft + 1] GETs and the 429 error (P5); any
    other failure is propagated after one request; and, over any store,
    at most [retriesLeft + 1] requests and a prefix of the doubling
    delays. *)

From Stdlib Require Import String ZArith List Lia.
From stdpp Require Import base list strings decidable.
From S2P Require Import Prelude Catalog Http.
Import ListNotations.
Local Open Scope eff_scope.

Section Retry.
Context `{Env} {σ : Type} `{Transport σ}.

Fixpoint retryRequest (url : string) (retriesLeft : nat) (delay : Z) : M σ response :=
  try (apiClient_get url) catch (fun error =>
    match error with
    | AxiosError (Some r) =>
        if (status r =? 429)%Z then
          match retriesLeft with
          | S n =>
              console (LogRetry delay) ;;
              sleep delay ;;
              retryRequest url n (delay * 2)
          | O => throw error
          end
        else throw error
    | AxiosError None => throw error
    end).

Definition get_request (url : string) : request := mk_request GET url None.

(** The trace of [k] rejected attempts, starting with delay [d]. *)
Fixpoint backoff_trace (url : string) (d : Z) (k : nat) : list event :=
  match k with
  | O => []
  | S k' => [EvRequest (get_request url); EvLog (LogRetry d); EvSleep d] ++
            backoff_trace url (d * 2) k'
  end.

(** ** One attempt, on each branch *)

Lemma retry_ok url n d s s1 r :
  transport_send s (get_request url) = (s1, Reply r) ->
  validateStatus (status r) = true ->
  retryRequest url n d s = (s1, [EvRequest (get_request url)], Ok r).
Proof.
  intros Hs Hv. destruct n; cbn [retryRequest]; unfold try_catch, apiClient_get, send;
    fold (get_request url); rewrite Hs; simpl; by rewrite Hv.
Qed.

Lemma retry_429 url n d s s1 r :
  transport_send s (get_request url) = (s1, Reply r) ->
  status r = 429%Z ->
  retryRequest url (S n) d s =
    let '(s2, t2, o) := retryRequest url n (d * 2) (transport_wait s1 d) in
    (s2, [EvRequest (get_request url); EvLog (LogRetry d); EvSleep d] ++ t2, o).
Proof.
  intros Hs H429. destruct r as [st dt hd]; simpl in H429; subst st.
  cbn [retryRequest]. unfold try_catch, apiClient_get, send.
  fold (get_request url). rewrite Hs. cbn -[retryRequest].
  destruct (retryRequest url n (d * 2) (transport_wait s1 d)) as [[s2 t2] o]. done.
Qed.

Lemma retry_fail url n d s s1 rep e :
  transport_send s (get_request url) = (s1, rep) ->
  settle rep = Exc e ->
  (forall r, e = AxiosError (Some r) -> status r = 429%Z -> n = O) ->
  retryRequest url n d s = (s1, [EvRequest (get_request url)], Exc e).
Proof.
  intros Hs He Hn. destruct n as [|n]; cbn [retryRequest]; unfold try_catch, apiClient_get, send;
    fold (get_request url); rewrite Hs; simpl; rewrite He; simpl;
    destruct e as [[r|]]; simpl; try done;
    destruct (Z.eqb_spec (status r) 429); try done.
  by specialize (Hn r eq_refl e).
Qed.

(** The delays [d], [2d], [4d], ... of [k] retries. *)
Definition doubling (d : Z) (k : nat) : list Z := map (fun i => d * 2 ^ Z.of_nat i)%Z (seq 0 k).

Lemma doubling_S d k : doubling d (S k) = d :: doubling (d * 2) k.
Proof.
  unfold doubling. simpl. f_equal; [lia|].
  rewrite <- seq_shift, map_map. apply map_ext. intros i.
  rewrite Nat2Z.inj_succ, Z.pow_succ_r; lia.
Qed.

Lemma backoff_trace_requests url d k :
  requests (backoff_trace url d k) = repeat (get_request url) k.
Proof.
  revert d. induction k as [|k IH]; intros d; [done|].
  cbn [backoff_trace]. rewrite requests_app, IH. done.
Qed.

Lemma backoff_trace_sleeps url d k :
  sleeps (backoff_trace url d k) = doubling d k.
Proof.
  revert d. induction k as [|k IH]; intros d; [done|].
  cbn [backoff_trace]. rewrite sleeps_app, IH, doubling_S. done.
Qed.

(** The first attempt ends the call, or is a 429 answered by a retry. *)
Lemma retry_first_attempt url n d s :
  (exists s1 o, retryRequest url n d s = (s1, [EvRequest (get_request url)], o)) \/
  (exists n' s1, n = S n' /\
     retryRequest url n d s =
       let '(s2, t2, o) := retryRequest url n' (d * 2) s1 in
       (s2, [EvRequest (get_request url); EvLog (LogRetry d); EvSleep d] ++ t2, o)).
Proof.
  destruct (transport_send s (get_request url)) as [s1 rep] eqn:Hs.
  destruct (settle rep) as [r|e|] eqn:Hset.
  - left. exists s1, (Ok r). destruct rep as [r'|]; simpl in Hset; [|discriminate].
    destruct (validateStatus (status r')) eqn:Hv; [|discriminate]. injection Hset as <-.
    by apply retry_ok.
  - destruct e as [[r|]]; [destruct (Z.eqb_spec (status r) 429) as [H429|H429]; [destruct n as [|n]|]|].
    + left. eexists _, _. apply (retry_fail _ _ _ _ _ _ _ Hs Hset). done.
    + right. exists n, (transport_wait s1 d). split; [done|].
      destruct rep as [r'|]; simpl in Hset; [|discriminate].
      destruct (validateStatus (status r')); [discriminate|]. injection Hset as <-.
      by apply (retry_429 _ _ _ _ _ _ Hs).
    + left. eexists _, _. apply (retry_fail _ _ _ _ _ _ _ Hs Hset).
      intros r' [= <-] ?. congruence.
    + left. eexists _, _. apply (retry_fail _ _ _ _ _ _ _ Hs Hset). done.
  - destruct rep as [r'|]; simpl in Hset; [destruct (validateStatus _)|]; discriminate.
Qed.

Lemma retry_always_429 url n d s r :
  status r = 429%Z ->
  (forall s0, snd (transport_send s0 (get_request url)) = Reply r) ->
  exists s', retryRequest url n d s =
    (s', backoff_trace url d n ++ [EvRequest (get_request url)], Exc (AxiosError (Some r))).
Proof.
  intros H429 Hall. revert d s. induction n as [|n IH]; intros d s;
    pose proof (surjective_pairing (transport_send s (get_request url))) as Hs;
    rewrite Hall in Hs.
  - eexists. apply (retry_fail _ _ _ _ _ _ _ Hs); [simpl; unfold validateStatus; rewrite H429; done|done].
  - destruct (IH (d * 2)%Z (transport_wait (fst (transport_send s (get_request url))) d)) as [s' Hs'].
    exists s'. rewrite (retry_429 _ _ _ _ _ _ Hs H429), Hs'. done.
Qed.

Lemma repeat_snoc {A} (x : A) k : repeat x k ++ [x] = repeat x (S k).
Proof. induction k as [|k IH]; [done|]. simpl. by rewrite IH. Qed.

Lemma retry_never_oof url n d : never_oof (retryRequest url n d).
Proof.
  revert d. induction n as [|n IH]; intros d; cbn [retryRequest];
    apply never_oof_catch; try apply send_never_oof; intros [[r|]];
    try destruct (status r =? 429)%Z; auto with eff.
Qed.

(** ** Properties *)

(** C4 (P5 of the spec).  Against a store that answers every GET of the
    URL with 429, [retryRequest url n d] makes exactly [n + 1] GETs,
    sleeps the [n] doubling delays, and rejects with the last 429
    response. *)
Theorem retry_exhaustion url n d s r :
  status r = 429%Z ->
  (forall s0, snd (transport_send s0 (get_request url)) = Reply r) ->
  let '(_, tr, o) := retryRequest url n d s in
  o = Exc (AxiosError (Some r)) /\ requests tr = repeat (get_request url) (S n) /\
  sleeps tr = doubling d n.
Proof.
  intros H429 Hall. destruct (retry_always_429 url n d s r H429 Hall) as [s' ->].
  rewrite requests_app, sleeps_app, backoff_trace_requests, backoff_trace_sleeps.
  split; [done|]. split; [apply repeat_snoc|]. apply app_nil_r.
Qed.

(** C14.  Over any store, one call of [retryRequest url n d] makes at most
    [n + 1] requests, and its delays are a prefix of [d], [2d], [4d],
    ...: for the defaults, at most 6 GETs and at most 31 s of waiting. *)
Theorem retry_bounded url n d s :
  let '(_, tr, _) := retryRequest url n d s in
  (length (requests tr) <= S n)%nat /\ sleeps tr `prefix_of` doubling d n.
Proof.
  revert d s. induction n as [|n IH]; intros d s.
  - destruct (retry_first_attempt url 0 d s) as [(s1 & o & ->) | (n' & s1 & ? & _)]; [|discriminate].
    split; [simpl; lia | apply prefix_nil].
  - destruct (retry_first_attempt url (S n) d s) as [(s1 & o & ->) | (n' & s1 & [= <-] & ->)].
    { split; [simpl; lia | apply prefix_nil]. }
    specialize (IH (d * 2)%Z s1). destruct (retryRequest url n (d * 2)%Z s1) as [[s2 t2] o].
    destruct IH as [Hlen Hpre]. rewrite requests_app, sleeps_app, length_app, doubling_S.
    split; [simpl in *; lia|]. by apply prefix_cons.
Qed.

(** C15.  A rejection that is not a 429 (another status, or a network
    failure) is re-thrown after one request, with no delay. *)
Theorem retry_other_failure url n d s s1 rep e :
  transport_send s (get_request url) = (s1, rep) ->
  settle rep = Exc e ->
  (forall r, e = AxiosError (Some r) -> status r <> 429%Z) ->
  retryRequest url n d s = (s1, [EvRequest (get_request url)], Exc e).
Proof.
  intros Hs He Hnot. apply (retry_fail _ _ _ _ _ _ _ Hs He).
  intros r -> H429. by destruct (Hnot r eq_refl).
Qed.

End Retry.

Section RetryScripted.
Context `{Env}.

(** C3 (P4 of the spec).  When the store answers the first [k] GETs with
    429 and the next one with a 2xx response, and [k <= retriesLeft],
    [retryRequest] returns that response after exactly [k + 1] GETs of
    the same URL, having slept [d], [2d], [4d], ... ([k] delays), and
    consumes exactly [k + 1] answers of the store. *)
Theorem retry_backoff_then_success url n k d r429 ok rest :
  status r429 = 429%Z -> validateStatus (status ok) = true -> (k <= n)%nat ->
  let '(s', tr, o) := @retryRequest _ _ script_transport url n d
                        (repeat (Reply r429) k ++ Reply ok :: rest) in
  o = Ok ok /\ s' = rest /\ requests tr = repeat (get_request url) (S k) /\
  sleeps tr = doubling d k.
Proof.
  intros H429 Hok Hk. revert n d Hk. induction k as [|k IH]; intros n d Hk; simpl.
  - rewrite (retry_ok url n d _ rest ok); done.
  - destruct n as [|n]; [lia|].
    rewrite (retry_429 url n d _ (repeat (Reply r429) k ++ Reply ok :: rest) r429); [|done|done].
    specialize (IH n (d * 2)%Z ltac:(lia)). cbn [transport_wait script_transport].
    destruct (retryRequest url n (d * 2)%Z _) as [[s' tr] o].
    destruct IH as (-> & -> & Hr & Hsl).
    rewrite requests_app, sleeps_app, Hr, Hsl, doubling_S. done.
Qed.

End RetryScripted.

(** ** Witnesses *)

#[local] Existing Instance demo_env.

Definition r429 : response := mkResponse 429 (OtherBody "Too Many Requests") [].
Definition page_ok : response := mkResponse 200 (JsonObject (Some [])) [].

Lemma retry_backoff_then_success_witness :
  let '(s', tr, o) := @retryRequest _ _ script_transport "products.json?limit=250" 5 1000
                        (repeat (Reply r429) 3 ++ Reply page_ok :: []) in
  o = Ok page_ok /\ s' = [] /\ requests tr = repeat (get_request "products.json?limit=250") 4 /\
  sleeps tr = [1000; 2000; 4000]%Z.
Proof.
  pose proof (retry_backoff_then_success "products.json?limit=250" 5 3 1000 r429 page_ok []
                eq_refl eq_refl ltac:(lia)) as H.
  exact H.
Defined.

#[local] Instance always_429 : Transport unit := {
  transport_send s _ := (s, Reply r429);
  transport_wait s _ := s
}.

Lemma retry_exhaustion_witness :
  let '(_, tr, o) := @retryRequest _ _ always_429 "products.json?limit=250" 5 1000 tt in
  o = Exc (AxiosError (Some r429)) /\ requests tr = repeat (get_request "products.json?limit=250") 6 /\
  sleeps tr = [1000; 2000; 4000; 8000; 16000]%Z.
Proof.
  exact (retry_exhaustion "products.json?limit=250" 5 1000 tt r429 eq_refl (fun _ => eq_refl)).
Defined.

Lemma retry_other_failure_witness :
  @retryRequest _ _ script_transport "products.json?limit=250" 5 1000 [NetworkFailure; Reply page_ok] =
    ([Reply page_ok], [EvRequest (get_request "products.json?limit=250")], Exc (AxiosError None)) /\
  @retryRequest _ _ script_transport "products.json?limit=250" 5 1000
     [Reply (mkResponse 500 (OtherBody "") [])] =
    ([], [EvRequest (get_request "products.json?limit=250")],
     Exc (AxiosError (Some (mkResponse 500 (OtherBody "") [])))).
Proof.
  split.
  - apply (retry_other_failure _ _ _ _ _ NetworkFailure); [done|done|].
    intros r [=].
  - apply (retry_other_failure _ _ _ _ _ (Reply (mkResponse 500 (OtherBody "") []))); [done|done|].
    intros r [= <-]. discriminate.
Defined.
