(* ===== verification/Reorder.v ===== *)
(** * The reorder policy: [checkAndReorderVariants] and
      [updateVariantPosition] (src/index.js lines 63-88)

    The first variant whose lower-cased title contains "sample" and the
    first whose lower-cased title contains "bolt" are looked up
    independently; when both exist and the sample variant's position is
    below the bolt variant's, the bolt variant is written to the sample's
    position, the code sleeps 1 s, the sample variant is written to the
    bolt's position, and the code sleeps 1 s again.  A rejected PUT
    propagates at once.

    The abstract specification is [reorder_writes]: the list of writes the
    policy promises for a product snapshot.  The theorems: no request and
    no event when a classification is missing (P1) or the order is already
    right (P2); the exact request, delay and log sequence of a swap over
    any transport; a rejected second write propagates with no
    compensating request; a second pass over a swapped product is a
    no-op.  [reorder_product] gives the product the writes make; on the
    store of [Store] with the [SetField] semantics and unique variant ids,
    the policy turns exactly the product it is given into
    [reorder_product] of it and touches no other product (P3). *)

From Stdlib Require Import String ZArith List Lia.
From stdpp Require Import base list strings decidable.
From S2P Require Import Prelude Catalog Http Store.
Import ListNotations.
Local Open Scope eff_scope.

(** The two classifications (lines 65-66). *)
Definition is_sample (v : variant) : bool :=
  JsString.includes (JsString.toLowerCase (v_title v)) "sample".

Definition is_bolt (v : variant) : bool :=
  JsString.includes (JsString.toLowerCase (v_title v)) "bolt".

(** ** The abstract specification: the writes a product calls for

    The bolt variant to the sample's position, then the sample variant to
    the bolt's position. *)

Definition first_write (sv bv : variant) : variant_update :=
  {| upd_id := v_id bv; upd_position := v_position sv |}.
Definition second_write (sv bv : variant) : variant_update :=
  {| upd_id := v_id sv; upd_position := v_position bv |}.

Definition reorder_writes (product : product) : list variant_update :=
  match find is_sample (p_variants product), find is_bolt (p_variants product) with
  | Some sv, Some bv =>
      if (v_position sv <? v_position bv)%Z then [first_write sv bv; second_write sv bv] else []
  | _, _ => []
  end.

Section Reorder.
Context `{Env} {σ : Type} `{Transport σ}.

Definition updateVariantPosition (variantId newPosition : Z) : M σ unit :=
  apiClient_put ("variants/" ++ JsString.number_to_string variantId ++ ".json")%string
    {| upd_id := variantId; upd_position := newPosition |} ;;
  eret tt.

Definition checkAndReorderVariants (product : product) : M σ unit :=
  let variants := p_variants product in
  let sampleVariant := find is_sample variants in
  let boltVariant := find is_bolt variants in
  match sampleVariant, boltVariant with
  | Some sv, Some bv =>
      if (v_position sv <? v_position bv)%Z then
        console (LogReorder (p_id product) (p_title product)) ;;
        console (LogOrder (v_position sv) (v_position bv)) ;;
        updateVariantPosition (v_id bv) (v_position sv) ;;
        sleep 1000 ;;
        updateVariantPosition (v_id sv) (v_position bv) ;;
        sleep 1000 ;;
        console LogReorderComplete
      else eret tt
  | _, _ => eret tt
  end.

(** The request [updateVariantPosition] sends for a write. *)
Definition put_request (u : variant_update) : request :=
  mk_request PUT ("variants/" ++ JsString.number_to_string (upd_id u) ++ ".json")%string (Some u).

Lemma update_ok id pos s s1 rep r :
  transport_send s (put_request {| upd_id := id; upd_position := pos |}) = (s1, rep) ->
  settle rep = Ok r ->
  updateVariantPosition id pos s =
    (s1, [EvRequest (put_request {| upd_id := id; upd_position := pos |})], Ok tt).
Proof.
  intros Hs Hr. unfold updateVariantPosition, ebind, apiClient_put.
  rewrite send_run. unfold put_request in Hs; cbn [upd_id] in Hs.
  rewrite Hs; simpl. by rewrite Hr.
Qed.

Lemma update_exc id pos s s1 rep e :
  transport_send s (put_request {| upd_id := id; upd_position := pos |}) = (s1, rep) ->
  settle rep = Exc e ->
  updateVariantPosition id pos s =
    (s1, [EvRequest (put_request {| upd_id := id; upd_position := pos |})], Exc e).
Proof.
  intros Hs Hr. unfold updateVariantPosition, ebind, apiClient_put.
  rewrite send_run. unfold put_request in Hs; cbn [upd_id] in Hs.
  rewrite Hs; simpl. by rewrite Hr.
Qed.

Lemma update_never_oof id pos : never_oof (updateVariantPosition id pos).
Proof. unfold updateVariantPosition. auto with eff. Qed.

Lemma reorder_never_oof product : never_oof (checkAndReorderVariants product).
Proof.
  unfold checkAndReorderVariants; cbv zeta.
  destruct (find is_sample (p_variants product)) as [sv|], (find is_bolt (p_variants product)) as [bv|];
    try destruct (v_position sv <? v_position bv)%Z; auto 10 using update_never_oof with eff.
Qed.

(** The policy does nothing when the specification calls for no write. *)
Lemma reorder_noop product s :
  reorder_writes product = [] -> checkAndReorderVariants product s = (s, [], Ok tt).
Proof.
  unfold reorder_writes, checkAndReorderVariants; cbv zeta.
  destruct (find is_sample (p_variants product)) as [sv|], (find is_bolt (p_variants product)) as [bv|];
    try done.
  by destruct (v_position sv <? v_position bv)%Z.
Qed.

(** The run of a swap whose two writes the store accepts. *)
Lemma reorder_swap_run product sv bv s s1 rep1 r1 s2 rep2 r2 :
  find is_sample (p_variants product) = Some sv ->
  find is_bolt (p_variants product) = Some bv ->
  (v_position sv < v_position bv)%Z ->
  transport_send s (put_request (first_write sv bv)) = (s1, rep1) -> settle rep1 = Ok r1 ->
  transport_send (transport_wait s1 1000) (put_request (second_write sv bv)) = (s2, rep2) ->
  settle rep2 = Ok r2 ->
  checkAndReorderVariants product s =
    (transport_wait s2 1000,
     [EvLog (LogReorder (p_id product) (p_title product));
      EvLog (LogOrder (v_position sv) (v_position bv));
      EvRequest (put_request (first_write sv bv)); EvSleep 1000;
      EvRequest (put_request (second_write sv bv)); EvSleep 1000;
      EvLog LogReorderComplete], Ok tt).
Proof.
  intros Hs Hb Hlt H1 Hr1 H2 Hr2. unfold checkAndReorderVariants; cbv zeta.
  rewrite Hs, Hb. destruct (Z.ltb_spec (v_position sv) (v_position bv)); [|lia].
  unfold first_write, second_write in *.
  unfold ebind, console, emit, sleep; cbn -[updateVariantPosition].
  rewrite (update_ok _ _ _ _ _ _ H1 Hr1); cbn -[updateVariantPosition].
  by rewrite (update_ok _ _ _ _ _ _ H2 Hr2).
Qed.

(** ** Properties over any transport *)

(** C9 (P1 of the spec).  When no variant title contains "sample", or
    none contains "bolt" (after lower-casing), the policy does nothing:
    no request, no delay, no log line, and the store is untouched. *)
Theorem reorder_noop_unclassified product s :
  Forall (fun v => is_sample v = false) (p_variants product) \/
  Forall (fun v => is_bolt v = false) (p_variants product) ->
  checkAndReorderVariants product s = (s, [], Ok tt).
Proof.
  intros HF. apply reorder_noop. unfold reorder_writes. destruct HF as [Hs|Hb].
  - by rewrite (proj2 (find_none_iff _ _) Hs).
  - rewrite (proj2 (find_none_iff _ _) Hb). by destruct (find is_sample _).
Qed.

(** C10 (P2 of the spec).  When the first sample variant's position is
    not below the first bolt variant's, the policy does nothing. *)
Theorem reorder_noop_ordered product sv bv s :
  find is_sample (p_variants product) = Some sv ->
  find is_bolt (p_variants product) = Some bv ->
  (v_position bv <= v_position sv)%Z ->
  checkAndReorderVariants product s = (s, [], Ok tt).
Proof.
  intros Hs Hb Hle. apply reorder_noop. unfold reorder_writes. rewrite Hs, Hb.
  destruct (Z.ltb_spec (v_position sv) (v_position bv)); [lia|done].
Qed.

(** C8.  A swap, over any store that accepts both writes: two log
    lines, the PUT of the bolt variant to the sample's position, a 1 s
    delay, the PUT of the sample variant to the bolt's position, a 1 s
    delay, the completion line; the writes are [reorder_writes]. *)
Theorem reorder_swap_sequence product sv bv s s1 rep1 r1 s2 rep2 r2 :
  find is_sample (p_variants product) = Some sv ->
  find is_bolt (p_variants product) = Some bv ->
  (v_position sv < v_position bv)%Z ->
  transport_send s (put_request (first_write sv bv)) = (s1, rep1) -> settle rep1 = Ok r1 ->
  transport_send (transport_wait s1 1000) (put_request (second_write sv bv)) = (s2, rep2) ->
  settle rep2 = Ok r2 ->
  checkAndReorderVariants product s =
    (transport_wait s2 1000,
     [EvLog (LogReorder (p_id product) (p_title product));
      EvLog (LogOrder (v_position sv) (v_position bv));
      EvRequest (put_request (first_write sv bv)); EvSleep 1000;
      EvRequest (put_request (second_write sv bv)); EvSleep 1000;
      EvLog LogReorderComplete], Ok tt) /\
  reorder_writes product = [first_write sv bv; second_write sv bv].
Proof.
  intros Hs Hb Hlt H1 Hr1 H2 Hr2. split; [by eapply reorder_swap_run|].
  unfold reorder_writes. rewrite Hs, Hb. by destruct (Z.ltb_spec (v_position sv) (v_position bv)); [|lia].
Qed.

(** C13 (the partial reorder of section 7 of the spec).  When the first
    write is accepted and the second rejected, the rejection propagates
    right after the second PUT: no completion line, no second delay, no
    compensating request; the store keeps the first write. *)
Theorem reorder_second_write_fails product sv bv s s1 rep1 r1 s2 rep2 e :
  find is_sample (p_variants product) = Some sv ->
  find is_bolt (p_variants product) = Some bv ->
  (v_position sv < v_position bv)%Z ->
  transport_send s (put_request (first_write sv bv)) = (s1, rep1) -> settle rep1 = Ok r1 ->
  transport_send (transport_wait s1 1000) (put_request (second_write sv bv)) = (s2, rep2) ->
  settle rep2 = Exc e ->
  checkAndReorderVariants product s =
    (s2,
     [EvLog (LogReorder (p_id product) (p_title product));
      EvLog (LogOrder (v_position sv) (v_position bv));
      EvRequest (put_request (first_write sv bv)); EvSleep 1000;
      EvRequest (put_request (second_write sv bv))], Exc e).
Proof.
  intros Hs Hb Hlt H1 Hr1 H2 Hr2. unfold checkAndReorderVariants; cbv zeta.
  rewrite Hs, Hb. destruct (Z.ltb_spec (v_position sv) (v_position bv)); [|lia].
  unfold first_write, second_write in *.
  unfold ebind, console, emit, sleep; cbn -[updateVariantPosition].
  rewrite (update_ok _ _ _ _ _ _ H1 Hr1); cbn -[updateVariantPosition].
  by rewrite (update_exc _ _ _ _ _ _ H2 Hr2).
Qed.

(** C26 (a rejected first write, e.g. a 429 on a PUT).  Writes are not
    retried: when the store rejects the first PUT of a swap, the
    rejection propagates right after it, with no delay, no second PUT
    and no completion line. *)
Theorem reorder_first_write_fails product sv bv s s1 rep1 e :
  find is_sample (p_variants product) = Some sv ->
  find is_bolt (p_variants product) = Some bv ->
  (v_position sv < v_position bv)%Z ->
  transport_send s (put_request (first_write sv bv)) = (s1, rep1) -> settle rep1 = Exc e ->
  checkAndReorderVariants product s =
    (s1,
     [EvLog (LogReorder (p_id product) (p_title product));
      EvLog (LogOrder (v_position sv) (v_position bv));
      EvRequest (put_request (first_write sv bv))], Exc e).
Proof.
  intros Hs Hb Hlt H1 Hr1. unfold checkAndReorderVariants; cbv zeta.
  rewrite Hs, Hb. destruct (Z.ltb_spec (v_position sv) (v_position bv)); [|lia].
  unfold first_write in *. unfold ebind, console, emit; cbn -[updateVariantPosition].
  by rewrite (update_exc _ _ _ _ _ _ H1 Hr1).
Qed.

End Reorder.

(** ** The effect of a swap on the positions *)

(** The positions after a swap, as the spec states it: the variant with
    the sample's id takes the bolt's position, the variant with the
    bolt's id takes the sample's position, every other variant keeps its
    own. *)
Definition swapped (sv bv w : variant) : variant :=
  {| v_id := v_id w; v_title := v_title w;
     v_position := if (v_id w =? v_id sv)%Z then v_position bv
                   else if (v_id w =? v_id bv)%Z then v_position sv
                   else v_position w |}.

Definition map_variants (f : variant -> variant) (p : product) : product :=
  {| p_id := p_id p; p_title := p_title p; p_variants := map f (p_variants p) |}.

Lemma is_sample_swapped sv bv w : is_sample (swapped sv bv w) = is_sample w.
Proof. done. Qed.

Lemma is_bolt_swapped sv bv w : is_bolt (swapped sv bv w) = is_bolt w.
Proof. done. Qed.

Lemma find_swapped (f : variant -> bool) sv bv vs :
  (forall w, f (swapped sv bv w) = f w) ->
  find f (map (swapped sv bv) vs) = option_map (swapped sv bv) (find f vs).
Proof. intros Hf. rewrite find_map. f_equal. by apply find_ext. Qed.

(** The product the specification asks for: when the first sample variant
    sits below the first bolt variant, the two exchange positions. *)
Definition reorder_product (p : product) : product :=
  match find is_sample (p_variants p), find is_bolt (p_variants p) with
  | Some sv, Some bv =>
      if (v_position sv <? v_position bv)%Z then map_variants (swapped sv bv) p else p
  | _, _ => p
  end.

Lemma reorder_writes_swapped product sv bv :
  find is_sample (p_variants product) = Some sv ->
  find is_bolt (p_variants product) = Some bv ->
  (v_position sv < v_position bv)%Z ->
  reorder_writes (map_variants (swapped sv bv) product) = [].
Proof.
  intros Hs Hb Hlt. unfold reorder_writes; simpl.
  rewrite (find_swapped is_sample), (find_swapped is_bolt), Hs, Hb by done; simpl.
  rewrite !Z.eqb_refl. destruct (v_id bv =? v_id sv)%Z; simpl;
    destruct (Z.ltb_spec (v_position bv) (v_position bv)); try done;
    destruct (Z.ltb_spec (v_position bv) (v_position sv)); try done; lia.
Qed.

(** A product either calls for no write and is left alone, or calls for
    the swap of its first sample and first bolt variants. *)
Lemma reorder_product_cases p :
  (reorder_writes p = [] /\ reorder_product p = p) \/
  exists sv bv, find is_sample (p_variants p) = Some sv /\ find is_bolt (p_variants p) = Some bv /\
    (v_position sv < v_position bv)%Z /\ reorder_product p = map_variants (swapped sv bv) p.
Proof.
  unfold reorder_product, reorder_writes.
  destruct (find is_sample (p_variants p)) as [sv|], (find is_bolt (p_variants p)) as [bv|];
    try (left; done).
  destruct (Z.ltb_spec (v_position sv) (v_position bv)); [right; by exists sv, bv|by left].
Qed.

Lemma reorder_writes_reorder_product p : reorder_writes (reorder_product p) = [].
Proof.
  destruct (reorder_product_cases p) as [[Hw ->]|(sv & bv & Hs & Hb & Hlt & ->)]; [done|].
  by apply reorder_writes_swapped.
Qed.

Lemma reorder_product_fixed p : reorder_writes p = [] -> reorder_product p = p.
Proof.
  destruct (reorder_product_cases p) as [[_ ->]|(sv & bv & Hs & Hb & Hlt & _)]; [done|].
  unfold reorder_writes. rewrite Hs, Hb. by destruct (Z.ltb_spec (v_position sv) (v_position bv)); [|lia].
Qed.

Lemma reorder_product_idem p : reorder_product (reorder_product p) = reorder_product p.
Proof. apply reorder_product_fixed, reorder_writes_reorder_product. Qed.

Lemma reorder_product_ids p : map v_id (p_variants (reorder_product p)) = map v_id (p_variants p).
Proof.
  destruct (reorder_product_cases p) as [[_ ->]|(sv & bv & _ & _ & _ & ->)]; [done|].
  simpl. by rewrite map_map.
Qed.

Lemma variant_ids_reorder ps : variant_ids (map reorder_product ps) = variant_ids ps.
Proof.
  induction ps as [|p ps IH]; [done|]. cbn [map]. by rewrite !variant_ids_cons, IH, reorder_product_ids.
Qed.


Section OnStore.
Context `{Env}.

(** The store accepts a write of the program when it is the store the
    program is configured for and the variant exists. *)
Lemma store_accepts_put sem st u :
  st_name st = SHOPIFY_STORE -> st_token st = SHOPIFY_ACCESS_TOKEN ->
  variant_exists (upd_id u) (st_products st) = true ->
  handle sem st (put_request u) =
    ({| st_name := st_name st; st_token := st_token st;
        st_products := update_products sem u (st_products st); st_clock := st_clock st |},
     Reply put_ok_response).
Proof.
  intros Hn Ht He. assert (Hb : baseURL = store_base st) by (unfold baseURL, store_base; by rewrite Hn).
  unfold handle, authorized, put_request, mk_request; simpl.
  rewrite Ht, String.eqb_refl. simpl. by rewrite Hb, route_variant_id, He, Z.eqb_refl.
Qed.

(** C20 (round trip of the variant id).  Over any store, the run of
    [updateVariantPosition id pos] sends one request, a PUT whose body
    carries [id] and [pos] and whose URL the store configured for the
    program routes back to the variant [id]: the decimal text the template
    literal of line 82 writes is read back as [id], for every integer,
    negative ones included. *)
Theorem update_url_roundtrip {σ : Type} (T : Transport σ) st id pos s s' t o :
  st_name st = SHOPIFY_STORE ->
  @updateVariantPosition _ _ T id pos s = (s', t, o) ->
  exists rq, t = [EvRequest rq] /\ req_method rq = PUT /\
    route_variant st (req_url rq) = Some id /\ req_body rq = Some {| upd_id := id; upd_position := pos |}.
Proof.
  intros Hn Hrun. assert (Hb : baseURL = store_base st) by (unfold baseURL, store_base; by rewrite Hn).
  unfold updateVariantPosition, ebind, apiClient_put in Hrun. rewrite send_run in Hrun.
  eexists. split; [destruct (settle _); cbn in Hrun; injection Hrun as _ <- _; done|].
  unfold mk_request; cbn [req_url req_method req_body]. rewrite Hb.
  split; [done|]. split; [apply route_variant_id|done].
Qed.

Lemma set_position_twice_swapped sv bv w :
  set_position (v_id sv) (v_position bv) (set_position (v_id bv) (v_position sv) w) = swapped sv bv w.
Proof.
  unfold set_position, swapped.
  destruct (Z.eqb_spec (v_id w) (v_id bv)), (Z.eqb_spec (v_id w) (v_id sv)); simpl;
    repeat match goal with |- context [(?a =? ?b)%Z] => destruct (Z.eqb_spec a b) end;
    subst; try congruence; destruct w; done.
Qed.

(** The swap on the [SetField] store: both writes are accepted and every
    variant of the store with one of the two ids is swapped. *)
Lemma swap_on_store st product sv bv :
  st_name st = SHOPIFY_STORE -> st_token st = SHOPIFY_ACCESS_TOKEN ->
  find is_sample (p_variants product) = Some sv ->
  find is_bolt (p_variants product) = Some bv ->
  (v_position sv < v_position bv)%Z ->
  variant_exists (v_id sv) (st_products st) = true ->
  variant_exists (v_id bv) (st_products st) = true ->
  exists st' t, @checkAndReorderVariants _ _ (store_transport SetField) product st = (st', t, Ok tt) /\
    st_name st' = st_name st /\ st_token st' = st_token st /\
    st_products st' = map (map_variants (swapped sv bv)) (st_products st) /\
    requests t = [put_request (first_write sv bv); put_request (second_write sv bv)].
Proof.
  intros Hn Ht Hs Hb Hlt Hes Heb.
  erewrite (@reorder_swap_run _ _ (store_transport SetField));
    [|exact Hs|exact Hb|exact Hlt|apply store_accepts_put; done|done|
     apply store_accepts_put; simpl; [done|done|]; by rewrite variant_exists_SetField|done].
  do 2 eexists. split; [done|]. do 2 (split; [done|]). split; [simpl|done].
  unfold update_products, apply_update. rewrite map_map.
  apply map_ext. intros p. unfold map_variants. simpl. f_equal. rewrite map_map.
  apply map_ext. apply set_position_twice_swapped.
Qed.

Lemma swapped_other sv bv w : v_id w <> v_id sv -> v_id w <> v_id bv -> swapped sv bv w = w.
Proof.
  intros Hs Hb. unfold swapped. apply Z.eqb_neq in Hs, Hb. rewrite Hs, Hb. by destruct w.
Qed.

Lemma map_swapped_other sv bv ws :
  v_id sv ∉ map v_id ws -> v_id bv ∉ map v_id ws -> map (swapped sv bv) ws = ws.
Proof.
  induction ws as [|w ws IH]; [done|]. cbn [map]. rewrite !not_elem_of_cons.
  intros [Hs1 Hs2] [Hb1 Hb2]. by rewrite swapped_other, IH.
Qed.

(** A swap leaves alone every product that holds neither id. *)
Lemma swapped_disjoint sv bv qs :
  v_id sv ∉ variant_ids qs -> v_id bv ∉ variant_ids qs ->
  map (map_variants (swapped sv bv)) qs = qs.
Proof.
  induction qs as [|[i ti vs] qs IH]; intros Hs Hb; [done|].
  rewrite variant_ids_cons, !elem_of_app in Hs, Hb. cbn [map]. rewrite IH by naive_solver.
  unfold map_variants; simpl. rewrite map_swapped_other; naive_solver.
Qed.

Lemma elem_of_ids sv p : In sv (p_variants p) -> v_id sv ∈ map v_id (p_variants p).
Proof. intros Hin. apply list_elem_of_In, in_map_iff. by exists sv. Qed.

(** The policy on one product of the [SetField] store, when variant ids
    are unique: that product, and no other, becomes [reorder_product]. *)
Lemma reorder_on_store st pre product post :
  st_name st = SHOPIFY_STORE -> st_token st = SHOPIFY_ACCESS_TOKEN ->
  st_products st = pre ++ product :: post -> NoDup (variant_ids (st_products st)) ->
  exists st' t, @checkAndReorderVariants _ _ (store_transport SetField) product st = (st', t, Ok tt) /\
    st_name st' = st_name st /\ st_token st' = st_token st /\
    st_products st' = pre ++ reorder_product product :: post /\
    (reorder_writes product = [] -> t = []) /\ requests t = map put_request (reorder_writes product).
Proof.
  intros Hn Ht Hp Hu.
  destruct (reorder_product_cases product) as [[Hw ->]|(sv & bv & Hs & Hb & Hlt & ->)].
  { exists st, []. by rewrite reorder_noop, Hw. }
  pose proof (proj1 (find_In _ _ _ Hs)) as Hsv. pose proof (proj1 (find_In _ _ _ Hb)) as Hbv.
  rewrite Hp, variant_ids_app, variant_ids_cons in Hu.
  apply stdpp.list_relations.list.NoDup_app in Hu as (_ & Hpre & Hu). apply stdpp.list_relations.list.NoDup_app in Hu as (_ & Hpost & _).
  destruct (swap_on_store st product sv bv) as (st' & t & Hrun & Hn' & Ht' & Hp' & Hrq);
    try done; try (rewrite Hp; apply variant_exists_In;
      rewrite variant_ids_app, variant_ids_cons, !elem_of_app; right; left; by apply elem_of_ids).
  exists st', t. do 3 (split; [done|]). split.
  - rewrite Hp', Hp, map_app. cbn [map].
    rewrite !swapped_disjoint; try done; try (apply Hpost; by apply elem_of_ids);
      intros Hin; (eapply Hpre; [exact Hin|]); apply elem_of_app; left; by apply elem_of_ids.
  - rewrite Hrq. unfold reorder_writes. rewrite Hs, Hb.
    destruct (Z.ltb_spec (v_position sv) (v_position bv)); [|lia]. split; [discriminate|done].
Qed.

(** C19 (a second pass over what the first one wrote).  On the
    [SetField] store with unique variant ids, the policy run on a product
    leaves in its place a product with the same id, and the policy run
    again on that product, as the store now holds it, sends nothing, logs
    nothing and changes nothing. *)
Theorem reorder_second_pass_noop st pre product post :
  st_name st = SHOPIFY_STORE -> st_token st = SHOPIFY_ACCESS_TOKEN ->
  st_products st = pre ++ product :: post -> NoDup (variant_ids (st_products st)) ->
  exists st' t q,
    @checkAndReorderVariants _ _ (store_transport SetField) product st = (st', t, Ok tt) /\
    st_products st' = pre ++ q :: post /\ p_id q = p_id product /\
    @checkAndReorderVariants _ _ (store_transport SetField) q st' = (st', [], Ok tt).
Proof.
  intros Hn Ht Hp Hu.
  destruct (reorder_on_store st pre product post) as (st' & t & Hrun & _ & _ & Hp' & _); try done.
  exists st', t, (reorder_product product). split; [done|]. split; [done|].
  split; [by destruct (reorder_product_cases product) as [[_ ->]|(? & ? & _ & _ & _ & ->)]|].
  apply reorder_noop, reorder_writes_reorder_product.
Qed.

(** C2 (P3 of the spec).  On the store with the [SetField] semantics and
    unique variant ids, when the sample variant sits below the bolt
    variant, the policy succeeds and leaves the bolt variant at the
    sample's old position, the sample variant at the bolt's old position,
    every other variant of the product where it was, and every other
    product of the store untouched. *)
Theorem reorder_swaps_positions st pre product post sv bv :
  st_name st = SHOPIFY_STORE -> st_token st = SHOPIFY_ACCESS_TOKEN ->
  st_products st = pre ++ product :: post -> NoDup (variant_ids (st_products st)) ->
  find is_sample (p_variants product) = Some sv ->
  find is_bolt (p_variants product) = Some bv ->
  (v_position sv < v_position bv)%Z ->
  let '(st', _, o) := @checkAndReorderVariants _ _ (store_transport SetField) product st in
  o = Ok tt /\ st_products st' = pre ++ map_variants (swapped sv bv) product :: post.
Proof.
  intros Hn Ht Hp Hu Hs Hb Hlt.
  destruct (reorder_on_store st pre product post) as (st' & t & -> & _ & _ & -> & _ & _); try done.
  unfold reorder_product. rewrite Hs, Hb. by destruct (Z.ltb_spec (v_position sv) (v_position bv)); [|lia].
Qed.

End OnStore.

(** ** Witnesses

    The product of the spec's end-to-end example: "Sample" at position 1
    before "Bolt" at position 2. *)

#[local] Existing Instance demo_env.
Local Open Scope string_scope.

Definition sample10 : variant := mkVariant 10 "Sample" 1.
Definition bolt11 : variant := mkVariant 11 "Bolt" 2.
Definition r429put : response := mkResponse 429 (OtherBody "Exceeded 2 calls per second") [].
Definition widget : product := mkProduct 1 "Widget" [sample10; bolt11].
Definition demo_store : store := mkStore "demo" "shpat_0" [widget] 0.

Lemma reorder_swaps_positions_witness :
  let '(st', _, o) := @checkAndReorderVariants _ _ (store_transport SetField) widget demo_store in
  o = Ok tt /\ st_products st' = [mkProduct 1 "Widget" [mkVariant 10 "Sample" 2; mkVariant 11 "Bolt" 1]].
Proof.
  exact (reorder_swaps_positions demo_store [] widget [] sample10 bolt11
           eq_refl eq_refl eq_refl ltac:(apply (bool_decide_unpack _); vm_compute; exact I) eq_refl eq_refl
           ltac:(vm_compute; reflexivity)).
Defined.

Lemma reorder_noop_unclassified_witness :
  @checkAndReorderVariants _ _ (store_transport SetField) (mkProduct 2 "Gadget" [mkVariant 20 "Large" 1; mkVariant 21 "SAMPLE pack" 2])
    demo_store = (demo_store, [], Ok tt).
Proof. apply reorder_noop_unclassified. right. repeat constructor. Defined.

Lemma reorder_noop_ordered_witness :
  @checkAndReorderVariants _ _ (store_transport SetField) (mkProduct 3 "Nut" [mkVariant 30 "bolt" 1; mkVariant 31 "Free sample" 2])
    demo_store = (demo_store, [], Ok tt).
Proof.
  apply (reorder_noop_ordered _ (mkVariant 31 "Free sample" 2) (mkVariant 30 "bolt" 1));
    [reflexivity|reflexivity|simpl; lia].
Defined.

Lemma reorder_swap_sequence_witness :
  @checkAndReorderVariants _ _ script_transport widget [Reply put_ok_response; Reply put_ok_response] =
    ([],
     [EvLog (LogReorder 1 "Widget"); EvLog (LogOrder 1 2);
      EvRequest (put_request (first_write sample10 bolt11)); EvSleep 1000;
      EvRequest (put_request (second_write sample10 bolt11)); EvSleep 1000;
      EvLog LogReorderComplete], Ok tt) /\
  reorder_writes widget = [first_write sample10 bolt11; second_write sample10 bolt11].
Proof.
  exact (reorder_swap_sequence widget sample10 bolt11 [Reply put_ok_response; Reply put_ok_response] _ _ put_ok_response _ _ put_ok_response
           eq_refl eq_refl ltac:(vm_compute; reflexivity) eq_refl eq_refl eq_refl eq_refl).
Defined.

Lemma reorder_second_write_fails_witness :
  @checkAndReorderVariants _ _ script_transport widget [Reply put_ok_response; NetworkFailure] =
    ([],
     [EvLog (LogReorder 1 "Widget"); EvLog (LogOrder 1 2);
      EvRequest (put_request (first_write sample10 bolt11)); EvSleep 1000;
      EvRequest (put_request (second_write sample10 bolt11))], Exc (AxiosError None)).
Proof.
  exact (reorder_second_write_fails widget sample10 bolt11 [Reply put_ok_response; NetworkFailure] _ _ put_ok_response _ _ _
           eq_refl eq_refl ltac:(vm_compute; reflexivity) eq_refl eq_refl eq_refl eq_refl).
Defined.

Lemma reorder_second_pass_noop_witness :
  exists st' t q,
    @checkAndReorderVariants _ _ (store_transport SetField) widget demo_store = (st', t, Ok tt) /\
    st_products st' = ([] ++ q :: [])%list /\ p_id q = p_id widget /\
    @checkAndReorderVariants _ _ (store_transport SetField) q st' = (st', [], Ok tt).
Proof.
  apply (reorder_second_pass_noop demo_store [] widget []); [reflexivity..|].
  apply (bool_decide_unpack _). vm_compute. exact I.
Defined.

Lemma update_url_roundtrip_witness :
  let '(_, t, _) := @updateVariantPosition _ _ script_transport (-42) 3 [] in
  exists rq, t = [EvRequest rq] /\ req_method rq = PUT /\
    route_variant demo_store (req_url rq) = Some (-42)%Z /\
    req_body rq = Some {| upd_id := -42; upd_position := 3 |}.
Proof.
  destruct (@updateVariantPosition _ _ script_transport (-42) 3 []) as [[s' t] o] eqn:E.
  exact (update_url_roundtrip script_transport demo_store (-42) 3 [] s' t o eq_refl E).
Defined.

Lemma reorder_first_write_fails_witness :
  @checkAndReorderVariants _ _ script_transport widget [Reply r429put] =
    ([],
     [EvLog (LogReorder 1 "Widget"); EvLog (LogOrder 1 2);
      EvRequest (put_request (first_write sample10 bolt11))], Exc (AxiosError (Some r429put))).
Proof.
  exact (reorder_first_write_fails widget sample10 bolt11 [Reply r429put] [] _ _
           eq_refl eq_refl ltac:(vm_compute; reflexivity) eq_refl eq_refl).
Defined.
