(* ===== verification/Regex.v ===== *)
(** * The link-header regular expression (src/index.js line 51)

    [linkHeader.match(/<(.* page_info=([^>]* ) .* )>; rel="next"/)] (shown
    with a space before each closing parenthesis) runs an ECMAScript
    regular expression without the [g] flag: the matcher is
    tried at index 0, 1, ... and the first index where it succeeds gives
    the result; at one index it is a backtracking search in which a
    greedy [*] first tries the longest repetition.  The expression uses
    literal characters, [.] (any code unit but a line terminator), a
    negated class [[^>]], greedy [*] on those one-character atoms, and
    two capturing groups.

    This file models that fragment: the syntax [regex], the matcher [m]
    in the continuation-passing style of the ECMAScript specification
    (section 22.2.2, "Pattern Semantics"), [str_match] for
    [String.prototype.match], and [next_page_info] for lines 51-53.  A
    relational semantics [rmatch] states which matches exist; the matcher
    is proved sound and complete for it.  The cursor theorems show what
    the code extracts from a [link] header. *)

From Stdlib Require Import String Ascii ZArith List Lia.
From stdpp Require Import base list strings decidable.
From S2P Require Import Prelude Catalog Http Store.
Import ListNotations.
Local Open Scope string_scope.

(** ** Syntax *)

Inductive char_class :=
| CChar (c : ascii)            (* a literal character *)
| CDot                         (* . *)
| CNot (cs : list ascii).      (* [^...] *)

Inductive regex :=
| REmpty
| RAtom (k : char_class)
| RStar (k : char_class)       (* greedy k* *)
| RSeq (r1 r2 : regex)
| RGroup (n : nat) (r : regex).

Definition class_matches (k : char_class) (a : ascii) : bool :=
  match k with
  | CChar c => if ascii_dec a c then true else false
  | CDot => negb (JsString.is_line_terminator a)
  | CNot cs => negb (existsb (fun c => if ascii_dec a c then true else false) cs)
  end.

(** A literal string as a sequence of one-character atoms. *)
Fixpoint lit (w : string) : regex :=
  match w with
  | EmptyString => REmpty
  | String c w' => RSeq (RAtom (CChar c)) (lit w')
  end.

(** ** Matcher

    The captures recorded so far, the most recent first; the input left
    to match is the suffix of the subject still to be read.  A capture is
    the text its group consumed. *)

Definition captures := list (nat * string).

Fixpoint cap_get (n : nat) (caps : captures) : option string :=
  match caps with
  | [] => None
  | (k, v) :: caps' => if Nat.eqb k n then Some v else cap_get n caps'
  end.

(** The text between a position [s] and a later position [s'] of the
    subject, both given as suffixes. *)
Definition consumed (s s' : string) : string := substring 0 (String.length s - String.length s') s.

Definition cont := string -> captures -> option (string * captures).

(** [k*], greedy: one more repetition first, then the continuation. *)
Fixpoint star_m (k : char_class) (s : string) (caps : captures) (kont : cont) : option (string * captures) :=
  match s with
  | String a s' =>
      if class_matches k a then
        match star_m k s' caps kont with
        | Some r => Some r
        | None => kont s caps
        end
      else kont s caps
  | EmptyString => kont s caps
  end.

Fixpoint m (r : regex) (s : string) (caps : captures) (kont : cont) : option (string * captures) :=
  match r with
  | REmpty => kont s caps
  | RAtom k =>
      match s with
      | String a s' => if class_matches k a then kont s' caps else None
      | EmptyString => None
      end
  | RStar k => star_m k s caps kont
  | RSeq r1 r2 => m r1 s caps (fun s1 c1 => m r2 s1 c1 kont)
  | RGroup n r1 => m r1 s caps (fun s1 c1 => kont s1 ((n, consumed s s1) :: c1))
  end.

Definition final_cont : cont := fun s' caps => Some (s', caps).

Record match_result := mkMatch {
  mr_index : nat;              (* match.index *)
  mr_rest : string;            (* the subject after the match *)
  mr_captures : captures
}.

(** The search over start indices of a non-global [exec]. *)
Fixpoint exec_from (r : regex) (s : string) (i : nat) : option match_result :=
  match m r s [] final_cont with
  | Some (s', caps) => Some (mkMatch i s' caps)
  | None =>
      match s with
      | String _ s' => exec_from r s' (S i)
      | EmptyString => None
      end
  end.

(** [subject.match(re)] for a regular expression without the [g] flag. *)
Definition str_match (r : regex) (subject : string) : option match_result := exec_from r subject 0.

(** [match[n]] *)
Definition group (n : nat) (mr : match_result) : option string := cap_get n (mr_captures mr).

(** ** The expression of line 51 *)

Definition rel_next : string := ">; rel=" ++ dquote ++ "next" ++ dquote.

(** The expression of line 51, with the two groups numbered 1 and 2. *)
Definition link_next_re : regex :=
  RSeq (lit "<")
    (RSeq (RGroup 1 (RSeq (RStar CDot)
                     (RSeq (lit "page_info=")
                       (RSeq (RGroup 2 (RStar (CNot [">"%char]))) (RStar CDot)))))
          (lit rel_next)).

(** Lines 51-53: the cursor the loop continues with, if any: [match] must
    succeed and [match[2]] be a non-empty string. *)
Definition next_page_info (linkHeader : string) : option string :=
  match str_match link_next_re linkHeader with
  | Some mr =>
      match group 2 mr with
      | Some EmptyString | None => None
      | Some pageInfo => Some pageInfo
      end
  | None => None
  end.

(** ** Which matches exist *)

Inductive rmatch : regex -> string -> string -> captures -> captures -> Prop :=
| rm_empty s c : rmatch REmpty s s c c
| rm_atom k a s c : class_matches k a = true -> rmatch (RAtom k) (String a s) s c c
| rm_star_nil k s c : rmatch (RStar k) s s c c
| rm_star_cons k a s s' c :
    class_matches k a = true -> rmatch (RStar k) s s' c c -> rmatch (RStar k) (String a s) s' c c
| rm_seq r1 r2 s s1 s2 c c1 c2 :
    rmatch r1 s s1 c c1 -> rmatch r2 s1 s2 c1 c2 -> rmatch (RSeq r1 r2) s s2 c c2
| rm_group n r s s' c c' :
    rmatch r s s' c c' -> rmatch (RGroup n r) s s' c ((n, consumed s s') :: c').

#[export] Hint Constructors rmatch : core.

Lemma star_m_sound k s c kont res :
  star_m k s c kont = Some res -> exists s', rmatch (RStar k) s s' c c /\ kont s' c = Some res.
Proof.
  induction s as [|a s IH]; simpl; intros H; [by eauto|].
  destruct (class_matches k a) eqn:Hk; [|by eauto].
  destruct (star_m k s c kont) eqn:Hs.
  - injection H as ->. destruct (IH eq_refl) as (s' & Hr & Hkont). eauto.
  - eauto.
Qed.

(** The backtracking matcher only returns matches that exist. *)
Lemma m_sound r s c kont res :
  m r s c kont = Some res -> exists s' c', rmatch r s s' c c' /\ kont s' c' = Some res.
Proof.
  revert s c kont res. induction r as [|k|k|r1 IH1 r2 IH2|n r IH]; intros s c kont res; simpl; intros H.
  - eauto.
  - destruct s as [|a s]; [discriminate|]. destruct (class_matches k a) eqn:Hk; [eauto|discriminate].
  -  destruct (star_m_sound _ _ _ _ _ H) as (s' & ? & ?). eauto.
  - destruct (IH1 _ _ _ _ H) as (s1 & c1 & H1 & H2).
    destruct (IH2 _ _ _ _ H2) as (s2 & c2 & ? & ?). eauto.
  - destruct (IH _ _ _ _ H) as (s1 & c1 & ? & ?). exists s1, ((n, consumed s s1) :: c1). eauto.
Qed.

Lemma star_m_complete k s s' c kont res :
  rmatch (RStar k) s s' c c -> kont s' c = Some res -> exists res', star_m k s c kont = Some res'.
Proof.
  revert s'. induction s as [|a s IH]; intros s' Hr Hk; inversion Hr; subst; simpl.
  - eauto.
  - destruct (class_matches k a); [destruct (star_m k s c kont)|]; eauto.
  - match goal with
    | Hc : class_matches k a = true, Hs : rmatch _ s s' _ _ |- _ =>
        rewrite Hc; destruct (IH s' Hs Hk) as [res' ->]; eauto
    end.
Qed.

(** A match that exists is found: the search fails only when no match
    with an accepting continuation exists. *)
Lemma m_complete r s s' c c' kont res :
  rmatch r s s' c c' -> kont s' c' = Some res -> exists res', m r s c kont = Some res'.
Proof.
  intros Hr. revert kont res. induction Hr; intros kont res Hk; cbn [m].
  - eauto.
  - rewrite H. eauto.
  - eapply star_m_complete; eauto.
  - eapply star_m_complete; [apply rm_star_cons|]; eauto.
  - destruct (IHHr2 kont res Hk) as [res2 H2]. eapply IHHr1. exact H2.
  - eapply IHHr. exact Hk.
Qed.

(** ** Running the matcher *)

Lemma m_seq r1 r2 s c kont : m (RSeq r1 r2) s c kont = m r1 s c (fun s1 c1 => m r2 s1 c1 kont).
Proof. reflexivity. Qed.

Lemma m_group n r s c kont :
  m (RGroup n r) s c kont = m r s c (fun s1 c1 => kont s1 ((n, consumed s s1) :: c1)).
Proof. reflexivity. Qed.

Lemma m_star k s c kont : m (RStar k) s c kont = star_m k s c kont.
Proof. reflexivity. Qed.

Lemma m_lit_app w rest c kont : m (lit w) (w ++ rest) c kont = kont rest c.
Proof.
  induction w as [|a w IH]; [done|]. rewrite string_app_cons. cbn [lit m class_matches].
  destruct (ascii_dec a a); [apply IH|congruence].
Qed.

Lemma m_lit_mismatch w s c kont : String.prefix w s = false -> m (lit w) s c kont = None.
Proof.
  revert s. induction w as [|a w IH]; intros s H; [by destruct s|].
  destruct s as [|b s]; [done|]. cbn [lit m class_matches]. cbn in H.
  destruct (ascii_dec b a) as [->|]; [|done]. destruct (ascii_dec a a); [by apply IH|congruence].
Qed.

(** A greedy star that can stop nowhere is a failure. *)
Lemma star_m_none k y c kont :
  (forall w z, y = w ++ z -> string_forall (class_matches k) w = true -> kont z c = None) ->
  star_m k y c kont = None.
Proof.
  induction y as [|a y IH]; intros H; simpl; [by apply (H EmptyString EmptyString)|].
  destruct (class_matches k a) eqn:Hk; [|by apply (H EmptyString (String a y))].
  rewrite IH; [by apply (H EmptyString (String a y))|].
  intros w z -> Hw. apply (H (String a w) z); [done|]. cbn. by rewrite Hk, Hw.
Qed.

(** A greedy star over [x ++ y] stops after [x] when the continuation
    accepts there and fails at every longer stop. *)
Lemma star_m_greedy k x y c kont r :
  string_forall (class_matches k) x = true ->
  (forall w z, y = w ++ z -> w <> EmptyString -> string_forall (class_matches k) w = true ->
               kont z c = None) ->
  kont y c = Some r ->
  star_m k (x ++ y) c kont = Some r.
Proof.
  induction x as [|a x IH]; intros Hx Hlong Hy.
  - destruct y as [|b y]; simpl; [done|].
    destruct (class_matches k b) eqn:Hb; [|done].
    rewrite star_m_none; [done|]. intros w z -> Hw.
    apply (Hlong (String b w) z); [done|discriminate|]. cbn. by rewrite Hb, Hw.
  - rewrite string_app_cons. cbn in Hx |- *. apply andb_prop in Hx as [Ha Hx].
    by rewrite Ha, IH.
Qed.

Lemma substring_app_length x y : substring 0 (String.length x) (x ++ y) = x.
Proof. induction x as [|a x IH]; [by destruct y|]. rewrite string_app_cons. cbn. by rewrite IH. Qed.

Lemma consumed_app x y : consumed (x ++ y) y = x.
Proof. unfold consumed. rewrite string_length_app, Nat.add_sub. apply substring_app_length. Qed.

(** ** Cursors *)

(** The characters of a Shopify cursor: letters, digits, [-] and [_]. *)
Definition is_cursor_char (c : ascii) : bool :=
  let n := nat_of_ascii c in
  (((48 <=? n) && (n <=? 57)) || ((65 <=? n) && (n <=? 90)) || ((97 <=? n) && (n <=? 122)) ||
   (n =? 45) || (n =? 95))%nat.

Definition differs_from (c : ascii) (d : ascii) : bool := if ascii_dec d c then false else true.

Lemma prefix_head_mismatch d p c z : d <> c -> String.prefix (String d p) (String c z) = false.
Proof. intros Hne. cbn. by destruct (ascii_dec d c). Qed.

(** A character of a string that avoids [c] is not [c]. *)
Lemma forall_differs_head c w x2 a x2' :
  string_forall (differs_from c) w = true -> w = x2 ++ String a x2' -> a <> c.
Proof.
  intros Hw ->. rewrite string_forall_app in Hw. apply andb_prop in Hw as [_ Hw].
  cbn in Hw. unfold differs_from in Hw. destruct (ascii_dec a c); [discriminate|done].
Qed.

Lemma rel_next_head : rel_next = String ">"%char ("; rel=" ++ dquote ++ "next" ++ dquote).
Proof. reflexivity. Qed.

(** A cursor for the theorems below: no [>], and no [page_info=] inside. *)
Definition plain_cursor (cur : string) : Prop :=
  string_forall (differs_from ">"%char) cur = true /\ JsString.includes cur "page_info=" = false.

Lemma plain_cursor_suffix y x : plain_cursor (y ++ x) -> plain_cursor x.
Proof.
  intros [Hg Hi]. rewrite string_forall_app in Hg. apply andb_prop in Hg as [_ Hg]. split; [done|].
  destruct (JsString.includes x _) eqn:E; [|done]. by rewrite (JsString.includes_app_l y) in Hi.
Qed.

Lemma cursor_then_rel x : plain_cursor x -> String.prefix "page_info=" (x ++ rel_next) = false.
Proof.
  intros [Hg Hi]. destruct (String.prefix _ _) eqn:E; [|done].
  apply prefix_app_inv in E as [E|(p2 & Hp & E)].
  - by rewrite (JsString.includes_prefix _ _ E) in Hi.
  - destruct p2 as [|d p2].
    + rewrite string_app_nil_r in Hp. rewrite <- Hp in Hi. discriminate.
    + rewrite rel_next_head in E. cbn in E. destruct (ascii_dec d ">"%char) as [->|]; [|discriminate].
      assert (Hgt : string_forall (differs_from ">"%char) "page_info=" = true) by reflexivity.
      by destruct (forall_differs_head _ _ _ _ _ Hgt Hp).
Qed.

(** After the [page_info=] that precedes a cursor, no later position of
    the header starts another [page_info=]. *)
Lemma no_page_info_later cur w z :
  plain_cursor cur ->
  "page_info=" ++ cur ++ rel_next = w ++ z -> w <> EmptyString ->
  String.prefix "page_info=" z = false.
Proof.
  intros Hcur H Hw. destruct w as [|a w]; [done|].
  change ("page_info=" ++ cur ++ rel_next) with (String "p"%char ("age_info=" ++ cur ++ rel_next)) in H.
  rewrite string_app_cons in H. injection H as _ H.
  change ("age_info=" ++ (cur ++ rel_next) = w ++ z) in H.
  apply string_app_eq_app in H as [(x2 & Hx2 & ->)|(y1 & Hy1 & _)].
  - destruct x2 as [|b x2]; [by apply cursor_then_rel|].
    assert (Hp : string_forall (differs_from "p"%char) "age_info=" = true) by reflexivity.
    rewrite string_app_cons. apply prefix_head_mismatch.
    intros <-. by apply (forall_differs_head _ _ _ _ _ Hp Hx2).
  - apply string_app_eq_app in Hy1 as [(x2 & Hc & ->)|(y2 & Hr & _)].
    + apply cursor_then_rel. rewrite Hc in Hcur. by apply (plain_cursor_suffix y1).
    + destruct z as [|b z]; [done|]. apply prefix_head_mismatch. intros <-.
      assert (Hp : string_forall (differs_from "p"%char) rel_next = true) by reflexivity.
      by apply (forall_differs_head _ _ _ _ _ Hp Hr).
Qed.

(** The whole expression on a header [<pre page_info=cur>; rel="next"]. *)
Lemma link_next_re_run pre cur :
  string_forall (fun c => negb (JsString.is_line_terminator c)) pre = true ->
  plain_cursor cur ->
  m link_next_re ("<" ++ pre ++ "page_info=" ++ cur ++ rel_next) [] final_cont =
    Some (EmptyString, [(1%nat, consumed (pre ++ "page_info=" ++ cur ++ rel_next) rel_next); (2%nat, cur)]).
Proof.
  intros Hpre Hcur. unfold link_next_re.
  rewrite m_seq, m_lit_app, m_seq, m_group, m_seq, m_star.
  apply star_m_greedy; [exact Hpre| |].
  - intros w z Hwz Hw _. cbv beta. rewrite m_seq. apply m_lit_mismatch.
    exact (no_page_info_later cur w z Hcur Hwz Hw).
  - cbv beta. rewrite m_seq, m_lit_app, m_seq, m_group, m_star.
    apply star_m_greedy.
    + apply (string_forall_impl (differs_from ">"%char)); [|apply Hcur].
      intros c. unfold differs_from. cbn. by destruct (ascii_dec c ">"%char).
    + intros w z Hr Hw Hall. destruct w as [|a w]; [done|].
      rewrite rel_next_head, string_app_cons in Hr. injection Hr as <- _.
      cbn in Hall. discriminate.
    + cbv beta. rewrite consumed_app. reflexivity.
Qed.

(** No [page_info=] starts after the first character of ["page_info=" ++ v]
    when none occurs in [v]. *)
Lemma no_page_info_after v w z :
  JsString.includes v "page_info=" = false ->
  "page_info=" ++ v = w ++ z -> w <> EmptyString ->
  String.prefix "page_info=" z = false.
Proof.
  intros Hv H Hw. destruct w as [|a w]; [done|].
  change ("page_info=" ++ v) with (String "p"%char ("age_info=" ++ v)) in H.
  rewrite (string_app_cons a w z) in H. injection H as _ H.
  apply string_app_eq_app in H as [(x2 & Hx2 & ->)|(y1 & -> & _)].
  - destruct x2 as [|b x2].
    + change ("" ++ v) with v. destruct (String.prefix _ v) eqn:E; [|done].
      by rewrite (JsString.includes_prefix _ _ E) in Hv.
    + rewrite string_app_cons. apply prefix_head_mismatch. intros <-.
      assert (Hp : string_forall (differs_from "p"%char) "age_info=" = true) by reflexivity.
      by apply (forall_differs_head _ _ _ _ _ Hp Hx2).
  - destruct (String.prefix "page_info=" z) eqn:E; [|done].
    apply JsString.prefix_spec in E as [r ->].
    assert (Hin : JsString.includes (y1 ++ "page_info=" ++ r) "page_info=" = true)
      by (apply JsString.includes_spec; by exists y1, r).
    congruence.
Qed.

Lemma prefix_length p s : String.prefix p s = true -> (String.length p <= String.length s)%nat.
Proof. intros [r ->]%JsString.prefix_spec. rewrite string_length_app. lia. Qed.

Lemma class_not_gt a : class_matches (CNot [">"%char]) a = differs_from ">"%char a.
Proof. unfold class_matches, differs_from. cbn. by destruct (ascii_dec a ">"%char). Qed.

Lemma forall_not_gt y :
  string_forall (class_matches (CNot [">"%char])) y = string_forall (differs_from ">"%char) y.
Proof. induction y as [|a y IH]; [done|]. cbn [string_forall]. by rewrite class_not_gt, IH. Qed.

(** The whole expression on [<x page_info=y z>; rel="next"]: the greedy
    [.*] of group 1 stops at the last [page_info=], group 2 takes [y] up
    to the [>] that [z] starts with, and the final [.*] takes [z]. *)
Lemma link_next_re_run_last x y z :
  string_forall (fun c => negb (JsString.is_line_terminator c)) x = true ->
  string_forall (differs_from ">"%char) y = true ->
  string_forall (fun c => negb (JsString.is_line_terminator c)) z = true ->
  String.prefix ">" (z ++ rel_next) = true ->
  JsString.includes (y ++ z ++ rel_next) "page_info=" = false ->
  exists c1, m link_next_re ("<" ++ x ++ "page_info=" ++ y ++ z ++ rel_next) [] final_cont =
    Some (EmptyString, [(1%nat, c1); (2%nat, y)]).
Proof.
  intros Hx Hy Hz Hgt Hpi. eexists. unfold link_next_re.
  rewrite m_seq, m_lit_app, m_seq, m_group, m_seq, m_star.
  apply star_m_greedy; [exact Hx| |].
  { intros w v Hwv Hw _. cbv beta. rewrite m_seq. apply m_lit_mismatch.
    exact (no_page_info_after _ w v Hpi Hwv Hw). }
  cbv beta. rewrite m_seq, m_lit_app, m_seq, m_group, m_star.
  apply star_m_greedy; [by rewrite forall_not_gt| |].
  { intros w v Hr Hw Hall. destruct w as [|a w]; [done|].
    rewrite Hr, string_app_cons in Hgt.
    apply JsString.prefix_spec in Hgt as [r [= -> _]].
    rewrite forall_not_gt in Hall. cbn [string_forall] in Hall. unfold differs_from in Hall.
    by destruct (ascii_dec ">"%char ">"%char). }
  cbv beta. rewrite m_star. apply star_m_greedy; [exact Hz| |].
  { intros w v Hr Hw _. cbv beta. apply m_lit_mismatch.
    destruct (String.prefix rel_next v) eqn:E; [|done]. apply prefix_length in E.
    apply (f_equal String.length) in Hr. rewrite string_length_app in Hr.
    destruct w; [done|]. cbn in Hr. lia. }
  cbv beta. change (m (lit rel_next) rel_next) with (m (lit rel_next) (rel_next ++ "")).
  rewrite m_lit_app, consumed_app. reflexivity.
Qed.

Lemma rmatch_lit w s s' c c' : rmatch (lit w) s s' c c' -> s = w ++ s'.
Proof.
  revert s c. induction w as [|a w IH]; intros s c H; [by inversion H|].
  inversion H; subst.
  match goal with
  | Ha : rmatch (RAtom _) _ _ _ _, Hw : rmatch (lit w) _ _ _ _ |- _ =>
      inversion Ha; subst; rewrite (IH _ _ Hw)
  end.
  match goal with
  | Hb : class_matches _ _ = true |- _ =>
      cbn in Hb; destruct (ascii_dec _ _) as [->|]; [done|discriminate]
  end.
Qed.

Lemma rmatch_suffix r s s' c c' : rmatch r s s' c c' -> exists x, s = x ++ s'.
Proof.
  induction 1.
  - by exists EmptyString.
  - by exists (String a EmptyString).
  - by exists EmptyString.
  - destruct IHrmatch as [x ->]. by exists (String a x).
  - destruct IHrmatch1 as [x1 ->], IHrmatch2 as [x2 ->]. exists (x1 ++ x2). apply string_app_assoc.
  - done.
Qed.

Lemma exec_from_first r s i s' caps :
  m r s [] final_cont = Some (s', caps) -> exec_from r s i = Some (mkMatch i s' caps).
Proof. intros H. destruct s; cbn [exec_from]; by rewrite H. Qed.

Lemma exec_from_Some r s i mr :
  exec_from r s i = Some mr ->
  exists pre s0, s = pre ++ s0 /\ m r s0 [] final_cont = Some (mr_rest mr, mr_captures mr).
Proof.
  revert i. induction s as [|a s IH]; intros i; cbn [exec_from];
    destruct (m r _ [] final_cont) as [[s' caps]|] eqn:Hm; intros H.
  - injection H as <-. by exists EmptyString, EmptyString.
  - discriminate.
  - injection H as <-. by exists EmptyString, (String a s).
  - destruct (IH _ H) as (pre & s0 & -> & Hs0). by exists (String a pre), s0.
Qed.

(** The cursor of a [<pre page_info=cur>; rel="next"] header. *)
Lemma next_page_info_cursor pre cur :
  string_forall (fun c => negb (JsString.is_line_terminator c)) pre = true ->
  plain_cursor cur -> cur <> EmptyString ->
  next_page_info ("<" ++ pre ++ "page_info=" ++ cur ++ rel_next) = Some cur.
Proof.
  intros Hpre Hcur Hne. unfold next_page_info, str_match.
  rewrite (exec_from_first _ _ _ _ _ (link_next_re_run pre cur Hpre Hcur)). unfold group. cbn.
  destruct cur; [done|reflexivity].
Qed.

(** No cursor without a [rel="next"] entry. *)
Lemma next_page_info_no_next header :
  JsString.includes header rel_next = false -> next_page_info header = None.
Proof.
  intros H. unfold next_page_info, str_match.
  destruct (exec_from link_next_re header 0) as [mr|] eqn:E; [exfalso|done].
  apply exec_from_Some in E as (pre & s0 & -> & Hm).
  apply m_sound in Hm as (s' & c' & Hr & _). unfold link_next_re in Hr.
  inversion Hr as [| | | |? ? ? s1 ? ? c1 ? H1 H2|]; subst.
  inversion H2 as [| | | |? ? ? s2 ? ? c2 ? H3 H4|]; subst.
  destruct (rmatch_suffix _ _ _ _ _ H1) as [x1 ->].
  destruct (rmatch_suffix _ _ _ _ _ H3) as [x2 ->].
  lazymatch type of H4 with
  | rmatch _ ?a ?b ?c ?d => assert (H5 : rmatch (lit rel_next) a b c d) by exact H4
  end.
  rewrite (rmatch_lit _ _ _ _ _ H5) in H.
  assert (Hin : JsString.includes (pre ++ x1 ++ x2 ++ rel_next ++ s') rel_next = true).
  { apply JsString.includes_spec. exists (pre ++ x1 ++ x2), s'. by rewrite !string_app_assoc. }
  congruence.
Qed.

(** The search finds a match when the matcher succeeds at some suffix. *)
Lemma exec_from_complete r pre s0 i :
  (exists res, m r s0 [] final_cont = Some res) -> exists mr, exec_from r (pre ++ s0) i = Some mr.
Proof.
  intros [[s' caps] Hm]. revert i. induction pre as [|a pre IH]; intros i; cbn [exec_from].
  - change ("" ++ s0) with s0. destruct s0 as [|b s0]; cbn [exec_from]; rewrite Hm; eauto.
  - rewrite string_app_cons. cbn [exec_from].
    destruct (m r (String a (pre ++ s0)) [] final_cont) as [[? ?]|]; eauto.
Qed.

(** Inversion and introduction for the relational semantics. *)
Lemma rmatch_seq_inv r1 r2 s s' c c' :
  rmatch (RSeq r1 r2) s s' c c' -> exists s1 c1, rmatch r1 s s1 c c1 /\ rmatch r2 s1 s' c1 c'.
Proof. intros H. inversion H; subst. eauto. Qed.

Lemma rmatch_group_inv n r s s' c c' : rmatch (RGroup n r) s s' c c' -> exists c1, rmatch r s s' c c1.
Proof. intros H. inversion H; subst. eauto. Qed.

Lemma rmatch_star_inv k s s' c c' :
  rmatch (RStar k) s s' c c' -> exists w, s = w ++ s' /\ string_forall (class_matches k) w = true.
Proof.
  intros H. remember (RStar k) as r eqn:Er. induction H; inversion Er; subst.
  - by exists EmptyString.
  - destruct IHrmatch as (w & -> & Hw); [done|].
    exists (String a w). split; [done|]. cbn. by rewrite H, Hw.
Qed.

Lemma rmatch_star_intro k w s c :
  string_forall (class_matches k) w = true -> rmatch (RStar k) (w ++ s) s c c.
Proof.
  induction w as [|a w IH]; [constructor|]. cbn [string_forall]. intros [Ha Hw]%andb_prop.
  rewrite string_app_cons. constructor; auto.
Qed.

Lemma rmatch_lit_intro w s c : rmatch (lit w) (w ++ s) s c c.
Proof.
  induction w as [|a w IH]; cbn [lit]; [constructor|].
  eapply rm_seq; [|apply IH]. rewrite string_app_cons. constructor. cbn. by destruct (ascii_dec a a).
Qed.

(** ** Properties *)

(** C5 (P7 of the spec).  On a header [<pre page_info=cur>; rel="next"]
    whose [pre] holds no line terminator (a [rel="previous"] entry before
    it included), the code continues with exactly [cur], for any non-empty
    cursor without [>] and without an inner [page_info=]. *)
Theorem next_page_info_extracts pre cur :
  string_forall (fun c => negb (JsString.is_line_terminator c)) pre = true ->
  plain_cursor cur -> cur <> EmptyString ->
  next_page_info ("<" ++ pre ++ "page_info=" ++ cur ++ rel_next) = Some cur.
Proof. exact (next_page_info_cursor pre cur). Qed.

(** C16.  A header with no [>; rel="next"] in it yields no cursor, so the
    loop stops (the page it came with is the last one processed). *)
Theorem next_page_info_requires_next header :
  JsString.includes header rel_next = false -> next_page_info header = None.
Proof. exact (next_page_info_no_next header). Qed.

(** C17.  The cursor the code continues with is the text after the
    last [page_info=] that precedes the final [>; rel="next"], up to the
    first [>] after it, whichever entry of the header that text belongs
    to: on [<x page_info=y z>; rel="next"] with no line terminator in [x]
    and [z], no [>] in [y], [z] starting at a [>] and no [page_info=]
    after the one shown, the cursor is [y].  Later query parameters of
    the same URL are part of it, and when the [rel="next"] entry has no
    [page_info] parameter the cursor comes from an earlier entry. *)
Theorem next_page_info_last_cursor x y z :
  string_forall (fun c => negb (JsString.is_line_terminator c)) x = true ->
  string_forall (differs_from ">"%char) y = true ->
  string_forall (fun c => negb (JsString.is_line_terminator c)) z = true ->
  String.prefix ">" (z ++ rel_next) = true ->
  JsString.includes (y ++ z ++ rel_next) "page_info=" = false ->
  y <> EmptyString ->
  next_page_info ("<" ++ x ++ "page_info=" ++ y ++ z ++ rel_next) = Some y.
Proof.
  intros Hx Hy Hz Hgt Hpi Hne. destruct (link_next_re_run_last x y z Hx Hy Hz Hgt Hpi) as [c1 H].
  unfold next_page_info, str_match. rewrite (exec_from_first _ _ _ _ _ H). unfold group. cbn.
  destruct y; [done|reflexivity].
Qed.

(** C27 (the headers line 51 matches).  [linkHeader.match] with the
    expression of line 51 succeeds exactly on the headers that contain
    [<x page_info=y1 y2>; rel="next"] with no line terminator in [x] and
    [y2] and no [>] in [y1]: the match needs a [page_info=] somewhere
    between a [<] and the [>; rel="next"], not inside the [rel="next"]
    entry. *)
Theorem str_match_link_exists header :
  (exists mr, str_match link_next_re header = Some mr) <->
  exists pre x y1 y2 suf,
    header = pre ++ "<" ++ x ++ "page_info=" ++ y1 ++ y2 ++ rel_next ++ suf /\
    string_forall (fun c => negb (JsString.is_line_terminator c)) x = true /\
    string_forall (differs_from ">"%char) y1 = true /\
    string_forall (fun c => negb (JsString.is_line_terminator c)) y2 = true.
Proof.
  split.
  - intros [mr Hmr]. apply exec_from_Some in Hmr as (pre & s0 & -> & Hm).
    apply m_sound in Hm as (s' & c' & Hr & _). unfold link_next_re in Hr.
    apply rmatch_seq_inv in Hr as (s1 & c1 & H1 & Hr). apply rmatch_lit in H1 as ->.
    apply rmatch_seq_inv in Hr as (s2 & c2 & Hg & H5). apply rmatch_lit in H5 as ->.
    apply rmatch_group_inv in Hg as (c3 & Hg).
    apply rmatch_seq_inv in Hg as (s3 & c4 & Hx & Hg). apply rmatch_star_inv in Hx as (x & -> & Hx).
    apply rmatch_seq_inv in Hg as (s4 & c5 & Hp & Hg). apply rmatch_lit in Hp as ->.
    apply rmatch_seq_inv in Hg as (s5 & c6 & Hy1 & Hy2). apply rmatch_group_inv in Hy1 as (c7 & Hy1).
    apply rmatch_star_inv in Hy1 as (y1 & -> & Hy1). apply rmatch_star_inv in Hy2 as (y2 & -> & Hy2).
    exists pre, x, y1, y2, s'. rewrite <- forall_not_gt. by repeat split.
  - intros (pre & x & y1 & y2 & suf & -> & Hx & Hy1 & Hy2). apply exec_from_complete.
    assert (Hr : exists c', rmatch link_next_re ("<" ++ x ++ "page_info=" ++ y1 ++ y2 ++ rel_next ++ suf) suf [] c').
    { eexists. unfold link_next_re. eapply rm_seq; [apply rmatch_lit_intro|].
      eapply rm_seq; [apply rm_group|apply rmatch_lit_intro].
      eapply rm_seq; [by apply rmatch_star_intro|].
      eapply rm_seq; [apply rmatch_lit_intro|].
      eapply rm_seq; [apply rm_group; apply rmatch_star_intro; by rewrite forall_not_gt|].
      by apply rmatch_star_intro. }
    destruct Hr as [c' Hr]. exact (m_complete _ _ _ _ _ final_cont (suf, c') Hr eq_refl).
Qed.

(** ** Witnesses *)

Lemma next_page_info_extracts_witness :
  next_page_info ("<" ++ "https://x/products.json?limit=250&" ++ "page_info=" ++ "ABC123" ++ rel_next)
    = Some "ABC123".
Proof.
  apply next_page_info_extracts; [vm_compute; reflexivity | split; vm_compute; reflexivity | discriminate].
Defined.

Lemma next_page_info_requires_next_witness :
  next_page_info ("<https://x/products.json?limit=250&page_info=P0>; rel=" ++ dquote ++ "previous" ++ dquote)
    = None.
Proof. apply next_page_info_requires_next. vm_compute. reflexivity. Defined.

Lemma str_match_link_exists_witness :
  exists mr, str_match link_next_re ("x, " ++ "<" ++ "u?" ++ "page_info=" ++ "C" ++ "" ++ rel_next ++ "") = Some mr.
Proof.
  apply (str_match_link_exists _). exists "x, ", "u?", "C", "", "".
  split; [reflexivity|]. repeat split.
Defined.

(** The header of a page whose [rel="next"] entry lacks [page_info]: the
    code continues with the cursor of the [rel="previous"] entry. *)
Lemma next_page_info_last_cursor_witness :
  next_page_info ("<" ++ "https://demo.myshopify.com/admin/api/2023-10/products.json?" ++ "page_info="
    ++ "prev1" ++ (">; rel=" ++ dquote ++ "previous" ++ dquote
    ++ ", <https://demo.myshopify.com/admin/api/2023-10/products.json?limit=250") ++ rel_next)
    = Some "prev1".
Proof. apply next_page_info_last_cursor; [vm_compute; reflexivity..|discriminate]. Defined.
