(* ===== verification/Pager.v ===== *)
(** * The pager and the top level: [processAllProducts] (src/index.js
      lines 33-61) and the async IIFE (lines 90-95)

    The [while (true)] loop fetches a page with [retryRequest], stops on
    an absent or empty [products] list, logs the page, runs
    [checkAndReorderVariants] on each product in order, and continues
    with the cursor of the [rel="next"] entry of the [link] header, or
    stops.  After the loop it logs that it finished.  The IIFE runs the
    whole and logs any rejection with [console.error].

    [page_loop] is the loop with a fuel bound: [OutOfFuel] when the fuel
    runs out, which is no outcome of the program.  [loop_exec] is the
    loop's big-step semantics, one rule per way an iteration ends; the
    fuel-bounded loop is proved to agree with it, and more fuel never
    changes a result. *)

From Stdlib Require Import String ZArith List Lia.
From stdpp Require Import base list strings decidable.
From S2P Require Import Prelude Catalog Http Store Retry Reorder Regex.
Import ListNotations.
Local Open Scope eff_scope.

Definition first_page_url : string := "products.json?limit=250".

Definition page_info_url (pageInfo : string) : string :=
  ("products.json?limit=250&page_info=" ++ pageInfo)%string.

(** Lines 49-57: where the loop goes after a batch, from the response
    headers: [None] is a [break]. *)
Definition next_url (hs : list (string * string)) : option string :=
  match header_get "link" hs with
  | None | Some EmptyString => None
  | Some linkHeader =>
      match next_page_info linkHeader with
      | Some pageInfo => Some (page_info_url pageInfo)
      | None => None
      end
  end.

(** What [console.error] prints on line 94. *)
Definition report (error : js_error) : error_report :=
  match error with
  | AxiosError (Some r) => ReportData (data r)
  | AxiosError None => ReportError error
  end.

Section Pager.
Context {env : Env} {σ : Type} {transport : Transport σ}.

(** The body of the [while (true)] loop, from a URL and the page counter. *)
Fixpoint page_loop (fuel : nat) (url : string) (pageNumber : Z) : M σ unit :=
  match fuel with
  | O => out_of_fuel
  | S fuel' =>
      r <- retryRequest url 5 1000 ;;
      match products_field (data r) with
      | None | Some [] => eret tt
      | Some products =>
          console (LogPage (pageNumber + 1) (length products)) ;;
          for_each products checkAndReorderVariants ;;
          match next_url (headers r) with
          | Some url' => page_loop fuel' url' (pageNumber + 1)
          | None => eret tt
          end
      end
  end.

Definition processAllProducts (fuel : nat) : M σ unit :=
  page_loop fuel first_page_url 0 ;;
  console LogFinished.

(** The IIFE of lines 90-95. *)
Definition main (fuel : nat) : M σ unit :=
  try (processAllProducts fuel) catch (fun error => console (LogError (report error))).

(** One iteration of the loop, unfolded. *)
Lemma page_loop_step fuel url n s :
  page_loop (S fuel) url n s =
    match retryRequest url 5 1000 s with
    | (s1, t1, Ok r) =>
        match products_field (data r) with
        | Some ((_ :: _) as ps) =>
            match for_each ps checkAndReorderVariants s1 with
            | (s2, t2, Ok _) =>
                match next_url (headers r) with
                | Some url' =>
                    let '(s3, t3, o) := page_loop fuel url' (n + 1) s2 in
                    (s3, t1 ++ EvLog (LogPage (n + 1) (length ps)) :: t2 ++ t3, o)
                | None => (s2, t1 ++ EvLog (LogPage (n + 1) (length ps)) :: t2, Ok tt)
                end
            | (s2, t2, Exc e) => (s2, t1 ++ EvLog (LogPage (n + 1) (length ps)) :: t2, Exc e)
            | (s2, t2, OutOfFuel) => (s2, t1 ++ EvLog (LogPage (n + 1) (length ps)) :: t2, OutOfFuel)
            end
        | _ => (s1, t1 ++ [], Ok tt)
        end
    | (s1, t1, Exc e) => (s1, t1, Exc e)
    | (s1, t1, OutOfFuel) => (s1, t1, OutOfFuel)
    end.
Proof.
  cbn [page_loop]. unfold ebind at 1.
  destruct (retryRequest url 5 1000 s) as [[s1 t1] [r|e|]]; [|done|done].
  destruct (products_field (data r)) as [[|p ps]|]; [done| |done].
  remember (for_each (p :: ps) checkAndReorderVariants) as F eqn:HF.
  remember (page_loop fuel) as PL eqn:HPL.
  unfold ebind, console, emit. cbn.
  destruct (F s1) as [[s2 t2] [[]|e|]]; [|done|done].
  destruct (next_url (headers r)) as [url'|].
  - by destruct (PL url' (n + 1)%Z s2) as [[s3 t3] o].
  - unfold eret. cbn. by rewrite app_nil_r.
Qed.

(** ** The loop's big-step semantics

    [loop_exec url n s s' t o]: the loop entered with [url] and page
    counter [n] in state [s] ends in state [s'] with trace [t] and outcome
    [o]; one rule per way an iteration ends. *)
Inductive loop_exec : string -> Z -> σ -> σ -> list event -> outcome js_error unit -> Prop :=
| le_fetch_error url n s s1 t1 e :
    retryRequest url 5 1000 s = (s1, t1, Exc e) ->
    loop_exec url n s s1 t1 (Exc e)
| le_no_products url n s s1 t1 r :
    retryRequest url 5 1000 s = (s1, t1, Ok r) ->
    products_field (data r) = None \/ products_field (data r) = Some [] ->
    loop_exec url n s s1 t1 (Ok tt)
| le_batch_error url n s s1 t1 r ps s2 t2 e :
    retryRequest url 5 1000 s = (s1, t1, Ok r) ->
    products_field (data r) = Some ps -> ps <> [] ->
    for_each ps checkAndReorderVariants s1 = (s2, t2, Exc e) ->
    loop_exec url n s s2 (t1 ++ EvLog (LogPage (n + 1) (length ps)) :: t2) (Exc e)
| le_last_page url n s s1 t1 r ps s2 t2 :
    retryRequest url 5 1000 s = (s1, t1, Ok r) ->
    products_field (data r) = Some ps -> ps <> [] ->
    for_each ps checkAndReorderVariants s1 = (s2, t2, Ok tt) ->
    next_url (headers r) = None ->
    loop_exec url n s s2 (t1 ++ EvLog (LogPage (n + 1) (length ps)) :: t2) (Ok tt)
| le_next_page url n s s1 t1 r ps s2 t2 url' s3 t3 o :
    retryRequest url 5 1000 s = (s1, t1, Ok r) ->
    products_field (data r) = Some ps -> ps <> [] ->
    for_each ps checkAndReorderVariants s1 = (s2, t2, Ok tt) ->
    next_url (headers r) = Some url' ->
    loop_exec url' (n + 1) s2 s3 t3 o ->
    loop_exec url n s s3 (t1 ++ EvLog (LogPage (n + 1) (length ps)) :: t2 ++ t3) o.

Lemma loop_exec_not_oof url n s s' t o : loop_exec url n s s' t o -> o <> OutOfFuel.
Proof. induction 1; done. Qed.

Lemma page_loop_sound fuel url n s s' t o :
  page_loop fuel url n s = (s', t, o) -> o <> OutOfFuel -> loop_exec url n s s' t o.
Proof.
  revert url n s s' t o. induction fuel as [|fuel IH]; intros url n s s' t o H Ho.
  { by injection H as _ _ <-. }
  rewrite page_loop_step in H.
  destruct (retryRequest url 5 1000 s) as [[s1 t1] [r|e|]] eqn:Hr; [| |by injection H as _ _ <-].
  - destruct (products_field (data r)) as [[|p ps]|] eqn:Hp;
      [injection H as <- <- <-; rewrite app_nil_r; eapply le_no_products; eauto| |
       injection H as <- <- <-; rewrite app_nil_r; eapply le_no_products; eauto].
    destruct (for_each (p :: ps) checkAndReorderVariants s1) as [[s2 t2] [[]|e|]] eqn:Hf;
      [|injection H as <- <- <-; eapply (le_batch_error _ _ _ _ _ _ (p :: ps)); eauto; discriminate|by injection H as _ _ <-].
    destruct (next_url (headers r)) as [url'|] eqn:Hn.
    + destruct (page_loop fuel url' (n + 1)%Z s2) as [[s3 t3] o3] eqn:Hl. injection H as <- <- <-.
      eapply (le_next_page _ _ _ _ _ _ (p :: ps)); eauto; discriminate.
    + injection H as <- <- <-. eapply (le_last_page _ _ _ _ _ _ (p :: ps)); eauto; discriminate.
  - injection H as <- <- <-. by apply le_fetch_error.
Qed.

Lemma page_loop_complete url n s s' t o :
  loop_exec url n s s' t o -> exists F, forall fuel, (F <= fuel)%nat -> page_loop fuel url n s = (s', t, o).
Proof.
  induction 1 as [url n s s1 t1 e Hr|url n s s1 t1 r Hr Hp|url n s s1 t1 r ps s2 t2 e Hr Hp Hne Hf
                 |url n s s1 t1 r ps s2 t2 Hr Hp Hne Hf Hn|url n s s1 t1 r ps s2 t2 url' s3 t3 o Hr Hp Hne Hf Hn _ [F HF]];
    [exists 1%nat..|exists (S F)]; intros [|fuel] Hle; try lia; rewrite page_loop_step, Hr; try done.
  - destruct Hp as [-> | ->]; by rewrite app_nil_r.
  - rewrite Hp. destruct ps; [done|]. by rewrite Hf.
  - rewrite Hp. destruct ps; [done|]. by rewrite Hf, Hn.
  - rewrite Hp. destruct ps; [done|]. rewrite Hf, Hn, HF; [done|lia].
Qed.

(** ** Adequacy of the fuel *)

(** The fuel-bounded loop and the big-step semantics agree: the loop has
    a run from [s] ending in [s'] with trace [t] and outcome [o] exactly
    when [o] is an outcome of the program and every fuel from some bound
    on produces that run. *)
Lemma page_loop_agrees url n s s' t o :
  loop_exec url n s s' t o <->
  o <> OutOfFuel /\ exists F, forall fuel, (F <= fuel)%nat -> page_loop fuel url n s = (s', t, o).
Proof.
  split.
  - intros H. split; [by apply (loop_exec_not_oof _ _ _ _ _ _ H)|]. by apply page_loop_complete.
  - intros [Ho [F HF]]. apply (page_loop_sound F); [apply HF; lia|done].
Qed.

(** More fuel never changes a run that ended. *)
Lemma page_loop_fuel_mono fuel fuel' url n s s' t o :
  page_loop fuel url n s = (s', t, o) -> o <> OutOfFuel -> (fuel <= fuel')%nat ->
  page_loop fuel' url n s = (s', t, o).
Proof.
  revert fuel' url n s s' t o. induction fuel as [|fuel IH]; intros fuel' url n s s' t o H Ho Hle.
  { by injection H as _ _ <-. }
  destruct fuel' as [|fuel']; [lia|]. rewrite page_loop_step in H |- *.
  destruct (retryRequest url 5 1000 s) as [[s1 t1] [r|e|]]; try done.
  destruct (products_field (data r)) as [[|p ps]|]; try done.
  destruct (for_each _ _ s1) as [[s2 t2] [[]|e|]]; try done.
  destruct (next_url (headers r)) as [url'|]; [|done].
  destruct (page_loop fuel url' (n + 1)%Z s2) as [[s3 t3] o3] eqn:Hl.
  injection H as <- <- <-. by rewrite (IH fuel' url' (n + 1)%Z s2 s3 t3 o3); [| | |lia].
Qed.

End Pager.

Section Main.
Context {env : Env} {σ : Type} {transport : Transport σ}.

(** C12 (the error path, lines 20-31, 33-61 and 90-95).  Whatever the
    store, when the GET of the first page is refused with a status that
    is neither 2xx nor 429, the program sends that one GET, prints the
    body of the refusal with [console.error] ([error.response.data]) and
    its promise resolves; when the GET fails at the network level it
    prints the error itself.  No retry, no delay, no other request. *)
Theorem main_reports_and_resolves fuel s s1 rep :
  (0 < fuel)%nat ->
  transport_send s (get_request first_page_url) = (s1, rep) ->
  match rep with
  | Reply r =>
      validateStatus (status r) = false -> status r <> 429%Z ->
      main fuel s = (s1, [EvRequest (get_request first_page_url); EvLog (LogError (ReportData (data r)))], Ok tt)
  | NetworkFailure =>
      main fuel s = (s1, [EvRequest (get_request first_page_url); EvLog (LogError (ReportError (AxiosError None)))], Ok tt)
  end.
Proof.
  intros Hf Hs. destruct fuel as [|fuel]; [lia|]. unfold main, processAllProducts.
  destruct rep as [r|]; [intros Hv H429|];
    [rewrite (try_catch_Exc _ _ _ s1 [EvRequest (get_request first_page_url)] (AxiosError (Some r)))
    |rewrite (try_catch_Exc _ _ _ s1 [EvRequest (get_request first_page_url)] (AxiosError None))];
    try done; apply ebind_Exc; rewrite page_loop_step.
  - rewrite (retry_fail _ _ _ _ s1 (Reply r) (AxiosError (Some r))); [done|done| |].
    + cbn. by rewrite Hv.
    + by intros r' [= <-].
  - by rewrite (retry_fail _ _ _ _ s1 NetworkFailure (AxiosError None)).
Qed.

(** C18.  The loop ends only when the store stops sending a next link:
    against a store that answers every GET with the same non-empty page
    that needs no reorder and that links to a next page, no fuel is
    enough. *)
Theorem page_loop_endless_next fuel url n s r ps :
  (forall s0 url0, snd (transport_send s0 (get_request url0)) = Reply r) ->
  validateStatus (status r) = true ->
  products_field (data r) = Some ps -> ps <> [] ->
  Forall (fun p => Forall (fun v => is_sample v = false) (p_variants p)) ps ->
  next_url (headers r) <> None ->
  exists s' t, page_loop fuel url n s = (s', t, OutOfFuel).
Proof.
  intros Hget Hok Hp Hne Hns Hnext. revert url n s.
  induction fuel as [|fuel IH]; intros url n s; [by exists s, []|].
  rewrite page_loop_step.
  pose proof (surjective_pairing (transport_send s (get_request url))) as Hs. rewrite Hget in Hs.
  rewrite (retry_ok _ _ _ _ _ _ Hs Hok), Hp. destruct ps as [|p ps]; [done|].
  rewrite for_each_skip.
  - destruct (next_url (headers r)) as [url'|]; [|done].
    destruct (IH url' (n + 1)%Z (fst (transport_send s (get_request url)))) as (s' & t & ->).
    by eexists _, _.
  - eapply Forall_impl; [|exact Hns]. intros q Hq s0.
    apply reorder_noop. unfold reorder_writes. by rewrite (proj2 (find_none_iff _ _) Hq).
Qed.

End Main.

(** ** Witnesses *)

#[local] Existing Instance demo_env.
Local Open Scope string_scope.

Definition nut : product := mkProduct 5 "Nut" [mkVariant 50 "Large" 1].
Definition last_page : response := mkResponse 200 (JsonObject (Some [nut])) [].
Definition linked_page : response :=
  mkResponse 200 (JsonObject (Some [nut]))
    [("link", "<https://demo.myshopify.com/admin/api/2023-10/products.json?limit=250&page_info=N" ++ rel_next)].

Definition server_error : response := mkResponse 500 (OtherBody "Internal Server Error") [].

Lemma main_reports_and_resolves_witness :
  @main _ _ script_transport 1 [Reply server_error] =
    ([], [EvRequest (get_request first_page_url); EvLog (LogError (ReportData (data server_error)))], Ok tt).
Proof.
  exact (@main_reports_and_resolves _ _ script_transport 1 [Reply server_error] [] (Reply server_error)
           ltac:(lia) eq_refl eq_refl ltac:(discriminate)).
Defined.

(** A store that answers every GET with the same linked page. *)
#[local] Instance endless_store : Transport unit := {
  transport_send s _ := (s, Reply linked_page);
  transport_wait s _ := s
}.

Lemma page_loop_endless_next_witness :
  exists s' t, @page_loop _ _ endless_store 3 first_page_url 0 tt = (s', t, OutOfFuel).
Proof.
  apply (page_loop_endless_next 3 first_page_url 0 tt linked_page [nut]);
    [intros; reflexivity|reflexivity|reflexivity|discriminate|repeat constructor|vm_compute; discriminate].
Defined.
