(* ===== verification/Run.v ===== *)
(** * The whole run against the store model

    [main] run on the [SetField] store of Store.v: the GET requests the
    pager sends are routed to the pages of the catalogue, the [link]
    headers of those pages lead it from each page to the next, and every
    product is processed once, on the store it was fetched from.  The
    result: the run terminates after the number of pages of the
    catalogue, resolves, and leaves every product as [reorder_product]
    makes it, with exactly the planned PUTs and one GET per page; a
    second run changes nothing and sends only GETs.  Against a store that
    refuses the configured token, the run is one GET and one error line. *)

From Stdlib Require Import String Ascii ZArith List Lia DecimalString DecimalNat.
From stdpp Require Import base list strings decidable.
From S2P Require Import Prelude Catalog Http Store Retry Reorder Regex Pager.
Import ListNotations.

(** ** The text of the store's URLs *)

Local Open Scope string_scope.

(** A store handle, the subdomain of [myshopify.com]: lower-case letters,
    digits and hyphens. *)
Definition is_handle_char (c : ascii) : bool :=
  let n := nat_of_ascii c in
  (((97 <=? n) && (n <=? 122)) || ((48 <=? n) && (n <=? 57)) || (n =? 45))%nat.

(** A character of the store's URLs: no line terminator, no [>]. *)
Definition url_char (c : ascii) : bool :=
  negb (JsString.is_line_terminator c) && differs_from ">"%char c.

Ltac ascii_cases := intros [[] [] [] [] [] [] [] []]; vm_compute; try discriminate; reflexivity.

Lemma handle_url_char c : is_handle_char c = true -> url_char c = true.
Proof. revert c. ascii_cases. Qed.

Lemma digit_url_char c : is_digit c = true -> url_char c = true.
Proof. revert c. ascii_cases. Qed.

Lemma digit_not_p c : is_digit c = true -> differs_from "p"%char c = true.
Proof. revert c. ascii_cases. Qed.

Lemma url_char_not_lt c : url_char c = true -> negb (JsString.is_line_terminator c) = true.
Proof. unfold url_char. by intros [-> _]%andb_prop. Qed.

Lemma url_char_not_gt c : url_char c = true -> differs_from ">"%char c = true.
Proof. unfold url_char. by intros [_ ->]%andb_prop. Qed.

Lemma encode_cursor_nonempty k : encode_cursor (S k) <> EmptyString.
Proof. intros E. pose proof (decode_encode_cursor (S k)) as D. by rewrite E in D. Qed.

(** A pattern whose first character a string avoids is found only after
    that string. *)
Lemma includes_skip c pat x y :
  string_forall (differs_from c) x = true ->
  JsString.includes (x ++ y) (String c pat) = JsString.includes y (String c pat).
Proof.
  induction x as [|a x IH]; [done|]. cbn [string_forall]. intros [Ha Hx]%andb_prop.
  rewrite string_app_cons. cbn [JsString.includes]. rewrite prefix_head_mismatch, IH; [done|done|].
  unfold differs_from in Ha. by destruct (ascii_dec a c).
Qed.

Lemma includes_absent c pat x :
  string_forall (differs_from c) x = true -> JsString.includes x (String c pat) = false.
Proof. intros H. rewrite <- (string_app_nil_r x), includes_skip; done. Qed.

Section Urls.
Variable st : store.
Hypothesis Hname : string_forall is_handle_char (st_name st) = true.

Lemma store_base_url_chars : string_forall url_char (store_base st) = true.
Proof.
  unfold store_base. rewrite !string_forall_app, (string_forall_impl is_handle_char url_char (st_name st));
    [reflexivity| |done].
  apply handle_url_char.
Qed.

Lemma page_url_chars k : string_forall url_char (page_url st k) = true.
Proof.
  unfold page_url. rewrite !string_forall_app, store_base_url_chars.
  rewrite (string_forall_impl is_digit url_char (encode_cursor k));
    [reflexivity|apply digit_url_char|apply string_of_uint_digits].
Qed.

Lemma store_base_not_lt :
  string_forall (fun c => negb (JsString.is_line_terminator c)) (store_base st) = true.
Proof. exact (string_forall_impl _ _ _ url_char_not_lt store_base_url_chars). Qed.

Lemma page_url_not_lt k :
  string_forall (fun c => negb (JsString.is_line_terminator c)) (page_url st k) = true.
Proof. exact (string_forall_impl _ _ _ url_char_not_lt (page_url_chars k)). Qed.

Lemma page_url_not_gt k : string_forall (differs_from ">"%char) (page_url st k) = true.
Proof. exact (string_forall_impl _ _ _ url_char_not_gt (page_url_chars k)). Qed.

End Urls.

Lemma plain_encode_cursor k : plain_cursor (encode_cursor k).
Proof.
  split.
  - apply (string_forall_impl url_char); [apply url_char_not_gt|].
    apply (string_forall_impl is_digit); [apply digit_url_char|apply string_of_uint_digits].
  - apply includes_absent. apply (string_forall_impl is_digit); [apply digit_not_p|apply string_of_uint_digits].
Qed.

(** ** Routing: the URLs of the pager reach the pages of the store *)

(** The URL the loop fetches for page [k]. *)
Definition loop_url (k : nat) : string :=
  match k with
  | O => first_page_url
  | S _ => page_info_url (encode_cursor k)
  end.

Lemma route_listing_app st r :
  route_listing st (store_base st ++ listing_path ++ r) =
    match r with
    | EmptyString => Some O
    | _ => match strip_prefix "&page_info=" r with Some c => decode_cursor c | None => None end
    end.
Proof. unfold route_listing. rewrite string_app_assoc, strip_prefix_app. by destruct r. Qed.

Lemma route_loop_url st k : route_listing st (store_base st ++ loop_url k) = Some k.
Proof.
  destruct k as [|k].
  - change (loop_url 0) with (listing_path ++ ""). by rewrite route_listing_app.
  - change (loop_url (S k)) with (listing_path ++ ("&page_info=" ++ encode_cursor (S k))).
    rewrite route_listing_app, strip_prefix_app, decode_encode_cursor.
    by cbv beta iota delta [String.append].
Qed.

(** ** The [link] headers of the store lead from each page to the next *)

Lemma next_url_link l : l <> EmptyString ->
  next_url [("link", l)] = option_map page_info_url (next_page_info l).
Proof. intros Hl. unfold next_url. cbn. destruct l; [done|]. by destruct (next_page_info _). Qed.

Lemma next_entry_shape st k :
  "<" ++ page_url st k ++ ">; rel=" ++ dquote ++ "next" ++ dquote =
    "<" ++ (store_base st ++ listing_path ++ "&") ++ "page_info=" ++ encode_cursor k ++ rel_next.
Proof. unfold page_url, rel_next. rewrite <- !string_app_assoc. reflexivity. Qed.

Lemma prev_next_entry_shape st j k :
  ("<" ++ page_url st j ++ ">; rel=" ++ dquote ++ "previous" ++ dquote) ++ ", " ++
  ("<" ++ page_url st k ++ ">; rel=" ++ dquote ++ "next" ++ dquote) =
    "<" ++ (page_url st j ++ ">; rel=" ++ dquote ++ "previous" ++ dquote ++ ", <" ++
            store_base st ++ listing_path ++ "&") ++ "page_info=" ++ encode_cursor k ++ rel_next.
Proof. unfold page_url at 2, rel_next. rewrite <- !string_app_assoc. reflexivity. Qed.

Lemma link_no_next st j :
  string_forall is_handle_char (st_name st) = true ->
  JsString.includes ("<" ++ page_url st j ++ ">; rel=" ++ dquote ++ "previous" ++ dquote) rel_next = false.
Proof.
  intros Hname. rewrite rel_next_head, (string_app_assoc "<"), includes_skip; [reflexivity|].
  rewrite string_forall_app, page_url_not_gt; done.
Qed.

(** Where the loop goes after page [k]: to page [k + 1] exactly when the
    store has one. *)
Lemma next_url_page st k :
  string_forall is_handle_char (st_name st) = true ->
  next_url (headers (page_response st k)) =
    if has_next_page k (st_products st) then Some (loop_url (S k)) else None.
Proof.
  intros Hname. unfold page_response, link_header; cbn [headers].
  destruct k as [|j]; destruct (has_next_page _ (st_products st)); [| done | |];
    rewrite next_url_link by (by rewrite <- ?string_app_assoc).
  - rewrite next_entry_shape, next_page_info_cursor;
      [done| |apply plain_encode_cursor|apply encode_cursor_nonempty].
    rewrite !string_forall_app, store_base_not_lt; done.
  - rewrite prev_next_entry_shape, next_page_info_cursor;
      [done| |apply plain_encode_cursor|apply encode_cursor_nonempty].
    rewrite !string_forall_app, store_base_not_lt, page_url_not_lt; done.
  - by rewrite next_page_info_no_next by (by apply link_no_next).
Qed.

Section Routing.
Context {env : Env}.

(** The store answers the loop's GET of page [k] with page [k]. *)
Lemma store_get sem st k :
  st_name st = SHOPIFY_STORE -> st_token st = SHOPIFY_ACCESS_TOKEN ->
  handle sem st (get_request (loop_url k)) = (st, Reply (page_response st k)).
Proof.
  intros Hn Ht. assert (Hb : baseURL = store_base st) by (unfold baseURL, store_base; by rewrite Hn).
  unfold handle, authorized, get_request, mk_request; simpl. rewrite Ht, String.eqb_refl. simpl.
  by rewrite Hb, route_loop_url.
Qed.

End Routing.

(** ** The run *)

(** A product the policy leaves alone. *)
Definition fixed (p : product) : Prop := reorder_writes p = [].

(** An event that writes nothing: a GET, a delay or a log line. *)
Definition reads_only (ev : event) : Prop :=
  match ev with
  | EvRequest rq => req_method rq = GET
  | _ => True
  end.

Local Close Scope string_scope.

(** The writes the policy plans for a list of products, in order. *)
Definition planned_writes (ps : list product) : list variant_update := concat (map reorder_writes ps).

Lemma planned_writes_app ps qs : planned_writes (ps ++ qs) = planned_writes ps ++ planned_writes qs.
Proof. unfold planned_writes. by rewrite map_app, concat_app. Qed.

(** The number of pages the loop fetches for [n] remaining products: one,
    and one more for each further [page_limit]. *)
Definition pages_fetched (n : nat) : nat := S ((n - 1) / page_limit).

Lemma pages_fetched_last n : (n <= page_limit)%nat -> pages_fetched n = 1%nat.
Proof. intros H. unfold pages_fetched. rewrite Nat.div_small; [done|unfold page_limit in *; lia]. Qed.

Lemma pages_fetched_more n :
  (page_limit < n)%nat -> pages_fetched n = S (pages_fetched (n - page_limit)).
Proof.
  intros H. unfold pages_fetched, page_limit in *.
  replace (n - 1)%nat with (n - 250 - 1 + 1 * 250)%nat by lia. rewrite Nat.div_add by lia. lia.
Qed.

(** The PUT and the GET requests of a trace, in order. *)
Definition sent_puts (t : list event) : list request := filter (fun rq => req_method rq = PUT) (requests t).
Definition sent_gets (t : list event) : list request := filter (fun rq => req_method rq = GET) (requests t).

Lemma sent_puts_app t1 t2 : sent_puts (t1 ++ t2) = sent_puts t1 ++ sent_puts t2.
Proof. unfold sent_puts. by rewrite requests_app, list.filter_app. Qed.

Lemma sent_gets_app t1 t2 : sent_gets (t1 ++ t2) = sent_gets t1 ++ sent_gets t2.
Proof. unfold sent_gets. by rewrite requests_app, list.filter_app. Qed.

Section Run.
Context {env : Env}.

#[local] Instance set_field_transport : Transport store := store_transport SetField.

Lemma sent_puts_of_writes t l : requests t = map put_request l -> sent_puts t = map put_request l.
Proof.
  unfold sent_puts. intros ->. induction l as [|u l IH]; [reflexivity|]. cbn [map].
  by rewrite filter_cons_True, IH.
Qed.

Lemma sent_gets_of_writes t l : requests t = map put_request l -> sent_gets t = [].
Proof.
  unfold sent_gets. intros ->. induction l as [|u l IH]; [reflexivity|]. cbn [map].
  by rewrite filter_cons_False, IH.
Qed.

(** The products of a batch are processed in order; each one is the
    product the store holds at that moment, and becomes [reorder_product]. *)
Lemma for_each_on_store todo done rest st :
  st_name st = SHOPIFY_STORE -> st_token st = SHOPIFY_ACCESS_TOKEN ->
  st_products st = map reorder_product done ++ todo ++ rest ->
  NoDup (variant_ids (done ++ todo ++ rest)) ->
  exists st' t, for_each todo checkAndReorderVariants st = (st', t, Ok tt) /\
    st_name st' = st_name st /\ st_token st' = st_token st /\
    st_products st' = map reorder_product (done ++ todo) ++ rest /\
    (Forall fixed todo -> t = []) /\ requests t = map put_request (planned_writes todo).
Proof.
  revert done st. induction todo as [|p todo IH]; intros done st Hn Ht Hp Hu.
  { exists st, []. by rewrite app_nil_r. }
  destruct (reorder_on_store st (map reorder_product done) p (todo ++ rest))
    as (st1 & t1 & H1 & Hn1 & Ht1 & Hp1 & Hf1 & Hr1); [done|done|done| |].
  { by rewrite Hp, variant_ids_app, variant_ids_reorder, <- variant_ids_app. }
  destruct (IH (done ++ [p]) st1) as (st2 & t2 & H2 & Hn2 & Ht2 & Hp2 & Hf2 & Hr2);
    [congruence|congruence| | |].
  { by rewrite Hp1, map_app, <- app_assoc. }
  { by rewrite <- app_assoc. }
  exists st2, (t1 ++ t2). cbn [for_each]. unfold ebind. unfold set_field_transport in *. rewrite H1, H2.
  split; [done|]. split; [congruence|]. split; [congruence|]. split; [by rewrite Hp2, <- app_assoc|].
  split; [intros Hfx; inversion Hfx; subst; by rewrite Hf1, Hf2|].
  by rewrite requests_app, Hr1, Hr2, <- map_app.
Qed.

Lemma page_slice_after k done todo :
  length done = (k * page_limit)%nat ->
  page_slice k (map reorder_product done ++ todo) = firstn page_limit todo.
Proof.
  intros Hk. unfold page_slice.
  by rewrite skipn_app, length_map, Hk, skipn_all2, Nat.sub_diag by (rewrite length_map; lia).
Qed.

(** The loop entered at page [k], when the [k * 250] products before it
    are done and the rest are not: it processes every remaining product,
    given one unit of fuel per remaining page. *)
Lemma page_loop_on_store fuel k done todo st :
  string_forall is_handle_char (st_name st) = true ->
  st_name st = SHOPIFY_STORE -> st_token st = SHOPIFY_ACCESS_TOKEN ->
  st_products st = map reorder_product done ++ todo ->
  length done = (k * page_limit)%nat -> NoDup (variant_ids (done ++ todo)) ->
  (length todo <= fuel * page_limit)%nat -> (0 < fuel)%nat ->
  exists st' t, page_loop fuel (loop_url k) (Z.of_nat k) st = (st', t, Ok tt) /\
    st_name st' = st_name st /\ st_token st' = st_token st /\
    st_products st' = map reorder_product (done ++ todo) /\
    (Forall fixed todo -> Forall reads_only t) /\
    sent_puts t = map put_request (planned_writes todo) /\
    sent_gets t = map (fun j => get_request (loop_url j)) (seq k (pages_fetched (length todo))).
Proof.
  revert k done todo st.
  induction fuel as [|fuel IH]; intros k done todo st Hh Hn Ht Hp Hk Hu Hlen Hf; [lia|].
  rewrite page_loop_step.
  rewrite (retry_ok _ _ _ _ st (page_response st k)); [|by apply store_get|reflexivity].
  change (products_field (data (page_response st k))) with (Some (page_slice k (st_products st))).
  rewrite Hp, page_slice_after by done.
  destruct (firstn page_limit todo) as [|q qs] eqn:Hfirst.
  { destruct todo; [|discriminate]. eexists _, _. split; [reflexivity|].
    rewrite Hp, !app_nil_r. repeat split. by repeat constructor. }
  pose proof (firstn_skipn page_limit todo) as Hsplit. rewrite Hfirst in Hsplit.
  destruct (for_each_on_store (q :: qs) done (skipn page_limit todo) st)
    as (st2 & t2 & H2 & Hn2 & Ht2 & Hp2 & Hf2 & Hr2); [done|done|by rewrite Hsplit|by rewrite Hsplit|].
  rewrite H2, (next_url_page st k Hh).
  unfold has_next_page. rewrite Hp, length_app, length_map, Hk.
  assert (Hq : length (q :: qs) = Nat.min page_limit (length todo)) by (by rewrite <- Hfirst, length_firstn).
  assert (Hfx : Forall fixed todo -> t2 = [] /\ Forall fixed (skipn page_limit todo)).
  { rewrite <- Hsplit. intros [Ha Hb]%Forall_app. split; [by apply Hf2|]. by rewrite Hsplit. }
  assert (Hw : planned_writes todo = planned_writes (q :: qs) ++ planned_writes (skipn page_limit todo))
    by (by rewrite <- planned_writes_app, Hsplit).
  pose proof (sent_puts_of_writes _ _ Hr2) as Hpu2. pose proof (sent_gets_of_writes _ _ Hr2) as Hg2.
  unfold page_limit in *. destruct (Nat.ltb_spec (S k * 250) (k * 250 + length todo)).
  - destruct (IH (S k) (done ++ q :: qs) (skipn 250 todo) st2)
      as (st3 & t3 & H3 & Hn3 & Ht3 & Hp3 & Hf3 & Hpu3 & Hg3);
      try (rewrite ?length_app, ?length_skipn; lia); try congruence.
    + by rewrite <- app_assoc, Hsplit.
    + replace (Z.of_nat k + 1)%Z with (Z.of_nat (S k)) by lia. rewrite H3.
      do 2 eexists. split; [done|]. split; [congruence|]. split; [congruence|].
      split; [by rewrite Hp3, <- app_assoc, Hsplit|].
      split; [intros Hfix; destruct (Hfx Hfix) as [-> Hrest]; repeat constructor; by apply Hf3|].
      change (EvLog ?l :: ?t) with ([EvLog l] ++ t).
      rewrite !sent_puts_app, !sent_gets_app, Hpu2, Hpu3, Hg2, Hg3, Hw, map_app, length_skipn.
      rewrite (pages_fetched_more (length todo)) by (unfold page_limit; lia). split; reflexivity.
  - rewrite skipn_all2 in Hp2 by lia. rewrite app_nil_r in Hp2.
    rewrite firstn_all2 in Hfirst by lia. rewrite Hfirst.
    do 2 eexists. split; [done|]. split; [congruence|]. split; [congruence|]. split; [by rewrite Hp2|].
    split; [intros Hfix; rewrite (Hf2 Hfix); by repeat constructor|].
    change (EvLog ?l :: ?t) with ([EvLog l] ++ t).
    rewrite !sent_puts_app, !sent_gets_app, Hpu2, Hg2, (pages_fetched_last (length (q :: qs)))
      by (unfold page_limit; lia).
    split; reflexivity.
Qed.

(** [processAllProducts] on the store, with enough fuel for its pages. *)
Lemma process_on_store fuel st :
  string_forall is_handle_char (st_name st) = true ->
  st_name st = SHOPIFY_STORE -> st_token st = SHOPIFY_ACCESS_TOKEN ->
  NoDup (variant_ids (st_products st)) ->
  (length (st_products st) <= fuel * page_limit)%nat -> (0 < fuel)%nat ->
  exists st' t, processAllProducts fuel st = (st', t ++ [EvLog LogFinished], Ok tt) /\
    st_name st' = st_name st /\ st_token st' = st_token st /\
    st_products st' = map reorder_product (st_products st) /\
    (Forall fixed (st_products st) -> Forall reads_only t) /\
    sent_puts t = map put_request (planned_writes (st_products st)) /\
    sent_gets t = map (fun j => get_request (loop_url j)) (seq 0 (pages_fetched (length (st_products st)))).
Proof.
  intros Hh Hn Ht Hu Hlen Hf.
  destruct (page_loop_on_store fuel 0 [] (st_products st) st)
    as (st' & t & H & Hn' & Ht' & Hp' & Hf' & Hpu & Hg); try done.
  exists st', t. unfold processAllProducts, ebind.
  change (page_loop fuel first_page_url 0 st) with (page_loop fuel (loop_url 0) (Z.of_nat 0) st).
  by rewrite H.
Qed.

(** C1 (P6 of the spec, and the purpose of the program).  Run on the
    [SetField] store of a correctly configured account (a store handle,
    its access token, unique variant ids), with at least one unit of fuel
    per page of 250 products, the program terminates, resolves after
    logging that it finished, and leaves every product of the store as
    [reorder_product] makes it: the first sample and first bolt variants
    swapped where the sample was below the bolt, every other product and
    variant unchanged. *)
Theorem main_on_store fuel st :
  string_forall is_handle_char (st_name st) = true ->
  st_name st = SHOPIFY_STORE -> st_token st = SHOPIFY_ACCESS_TOKEN ->
  NoDup (variant_ids (st_products st)) ->
  (length (st_products st) <= fuel * page_limit)%nat -> (0 < fuel)%nat ->
  exists st' t, main fuel st = (st', t ++ [EvLog LogFinished], Ok tt) /\
    st_products st' = map reorder_product (st_products st).
Proof.
  intros Hh Hn Ht Hu Hlen Hf.
  destruct (process_on_store fuel st) as (st' & t & H & _ & _ & Hp & _ & _ & _); try done.
  exists st', t. split; [|done]. unfold main. apply try_catch_not_Exc; [done|discriminate].
Qed.

(** C11 (the spec's idempotence).  A second run of the program on the
    store the first run left changes no product and sends no PUT: every
    request of the second run is a GET of the listing. *)
Theorem main_second_run fuel st :
  string_forall is_handle_char (st_name st) = true ->
  st_name st = SHOPIFY_STORE -> st_token st = SHOPIFY_ACCESS_TOKEN ->
  NoDup (variant_ids (st_products st)) ->
  (length (st_products st) <= fuel * page_limit)%nat -> (0 < fuel)%nat ->
  exists st1 t1 st2 t2, main fuel st = (st1, t1, Ok tt) /\ main fuel st1 = (st2, t2, Ok tt) /\
    st_products st2 = st_products st1 /\ Forall reads_only t2.
Proof.
  intros Hh Hn Ht Hu Hlen Hf.
  destruct (process_on_store fuel st) as (st1 & t1 & H1 & Hn1 & Ht1 & Hp1 & _ & _ & _); try done.
  destruct (process_on_store fuel st1) as (st2 & t2 & H2 & _ & _ & Hp2 & Hf2 & _ & _);
    rewrite ?Hn1, ?Ht1, ?Hp1, ?variant_ids_reorder, ?length_map; try done.
  exists st1, (t1 ++ [EvLog LogFinished]), st2, (t2 ++ [EvLog LogFinished]). unfold main.
  split; [apply try_catch_not_Exc; [done|discriminate]|].
  split; [apply try_catch_not_Exc; [done|discriminate]|].
  split; [rewrite Hp2, Hp1, map_map; apply map_ext, reorder_product_idem|].
  apply Forall_app. split; [|by repeat constructor]. apply Hf2. rewrite Hp1.
  apply Forall_map, Forall_forall. intros p _. apply reorder_writes_reorder_product.
Qed.

(** C28 (the requests of a run).  On the store of C1, [main] sends
    exactly the PUTs the policy plans, product after product in the
    catalogue's order (the two writes of each product whose sample variant
    sits below its bolt variant, none for the others), and exactly one GET
    per page of the catalogue, pages [0 .. (n - 1) / 250] for [n]
    products, in order. *)
Theorem main_requests_on_store fuel st :
  string_forall is_handle_char (st_name st) = true ->
  st_name st = SHOPIFY_STORE -> st_token st = SHOPIFY_ACCESS_TOKEN ->
  NoDup (variant_ids (st_products st)) ->
  (length (st_products st) <= fuel * page_limit)%nat -> (0 < fuel)%nat ->
  exists st' t, main fuel st = (st', t, Ok tt) /\
    sent_puts t = map put_request (planned_writes (st_products st)) /\
    sent_gets t = map (fun j => get_request (loop_url j)) (seq 0 (pages_fetched (length (st_products st)))).
Proof.
  intros Hh Hn Ht Hu Hlen Hf.
  destruct (process_on_store fuel st) as (st' & t & H & _ & _ & _ & _ & Hpu & Hg); try done.
  exists st', (t ++ [EvLog LogFinished]).
  split; [unfold main; apply try_catch_not_Exc; [done|discriminate]|].
  split; [rewrite sent_puts_app, Hpu|rewrite sent_gets_app, Hg]; apply app_nil_r.
Qed.

(** The store refuses every request that does not carry its token. *)
Lemma store_refuses_token sem st url b :
  st_token st <> SHOPIFY_ACCESS_TOKEN ->
  handle sem st (mk_request GET url b) = (st, Reply (error_response 401)).
Proof.
  intros Ht. unfold handle, authorized, mk_request; simpl.
  destruct (String.eqb_spec SHOPIFY_ACCESS_TOKEN (st_token st)); [congruence|done].
Qed.

(** C22 (the run against a store that refuses the token).  When the
    configured access token is not the store's, [main] sends one GET,
    logs the store's 401 body with [console.error], resolves, and leaves
    the store as it was: no retry, no write, no "finished" line. *)
Theorem main_wrong_token fuel st :
  st_token st <> SHOPIFY_ACCESS_TOKEN -> (0 < fuel)%nat ->
  main fuel st =
    (st, [EvRequest (get_request first_page_url);
          EvLog (LogError (ReportData (data (error_response 401))))], Ok tt).
Proof.
  intros Ht Hf. destruct fuel as [|fuel]; [lia|].
  unfold main, processAllProducts. rewrite (try_catch_Exc _ _ _ st [EvRequest (get_request first_page_url)]
    (AxiosError (Some (error_response 401)))); [done|].
  apply ebind_Exc. rewrite page_loop_step,
    (retry_fail _ _ _ _ st (Reply (error_response 401)) (AxiosError (Some (error_response 401)))); try done.
  - by apply store_refuses_token.
  - by intros r [= <-].
Qed.
End Run.


(** ** Witnesses

    The store of the spec's example: one product, "Sample" at position 1
    and "Bolt" at position 2. *)

#[local] Existing Instance demo_env.

Lemma main_on_store_witness :
  exists st' t, @main _ _ set_field_transport 1 demo_store = (st', t ++ [EvLog LogFinished], Ok tt) /\
    st_products st' = map reorder_product (st_products demo_store).
Proof.
  apply main_on_store; [reflexivity|reflexivity|reflexivity| |simpl; lia|lia].
  apply (bool_decide_unpack _). vm_compute. exact I.
Defined.

Lemma main_second_run_witness :
  exists st1 t1 st2 t2, @main _ _ set_field_transport 1 demo_store = (st1, t1, Ok tt) /\
    @main _ _ set_field_transport 1 st1 = (st2, t2, Ok tt) /\ st_products st2 = st_products st1 /\
    Forall reads_only t2.
Proof.
  apply main_second_run; [reflexivity|reflexivity|reflexivity| |simpl; lia|lia].
  apply (bool_decide_unpack _). vm_compute. exact I.
Defined.

Lemma main_requests_on_store_witness :
  exists st' t, @main _ _ set_field_transport 1 demo_store = (st', t, Ok tt) /\
    sent_puts t = map put_request (planned_writes (st_products demo_store)) /\
    sent_gets t = map (fun j => get_request (loop_url j)) (seq 0 (pages_fetched (length (st_products demo_store)))).
Proof.
  apply main_requests_on_store; [reflexivity|reflexivity|reflexivity| |simpl; lia|lia].
  apply (bool_decide_unpack _). vm_compute. exact I.
Defined.

Lemma main_wrong_token_witness :
  @main _ _ set_field_transport 1 (mkStore "demo" "shpat_wrong" [widget] 0) =
    (mkStore "demo" "shpat_wrong" [widget] 0,
     [EvRequest (get_request first_page_url); EvLog (LogError (ReportData (data (error_response 401))))],
     Ok tt).
Proof. apply main_wrong_token; [intros H; vm_compute in H; discriminate|lia]. Defined.
