(* ===== verification/Safety.v ===== *)
(** * What the program may send: a safety property of every run

    Whatever the store answers, and however a run ends (resolved,
    rejected, or cut by the fuel bound), every request the program sends
    goes to the configured store's Admin API with the access token, and
    is either a GET of a page of the product listing or the PUT of one
    variant's position to that variant's own URL; every delay is at
    least one second.  The proof is by the sequencing rules of
    [all_events] (Prelude), component by component. *)

From Stdlib Require Import String ZArith List Lia.
From stdpp Require Import base list strings decidable.
From S2P Require Import Prelude Catalog Http Retry Reorder Pager.
Import ListNotations.

(** The URLs the loop fetches: the first page, or a page by cursor. *)
Definition listing_url (u : string) : Prop :=
  u = first_page_url \/ exists c, u = page_info_url c.

Section Safety.
Context {env : Env}.

(** The requests the program is meant to send. *)
Definition allowed_request (rq : request) : Prop :=
  req_headers rq = default_headers /\
  ((req_method rq = GET /\ req_body rq = None /\
    exists u, req_url rq = (baseURL ++ u)%string /\ listing_url u) \/
   (req_method rq = PUT /\ exists u, req_body rq = Some u /\
    req_url rq = (baseURL ++ "variants/" ++ JsString.number_to_string (upd_id u) ++ ".json")%string)).

Definition safe_event (ev : event) : Prop :=
  match ev with
  | EvRequest rq => allowed_request rq
  | EvSleep ms => (1000 <= ms)%Z
  | EvLog _ => True
  end.

Context {σ : Type} {transport : Transport σ}.

Lemma send_safe m url b : allowed_request (mk_request m url b) -> all_events safe_event (send m url b).
Proof. intros Hrq s s' t o. rewrite send_run. intros [= _ <- _]. by constructor. Qed.

Lemma sleep_safe ms : (1000 <= ms)%Z -> all_events safe_event (sleep ms).
Proof. intros Hms s s' t o [= _ <- _]. by repeat constructor. Qed.

Lemma console_safe l : all_events safe_event (console (σ:=σ) l).
Proof. by apply all_events_emit. Qed.

#[local] Hint Resolve sleep_safe console_safe : events.

Lemma retry_safe url n d :
  listing_url url -> (1000 <= d)%Z -> all_events safe_event (retryRequest url n d).
Proof.
  intros Hu. revert d. induction n as [|n IH]; intros d Hd; cbn [retryRequest];
    (apply all_events_catch; [apply send_safe; split; [done|left; repeat split; by exists url]|]);
    intros [[r|]]; repeat case_match; auto with events.
  repeat apply all_events_bind; auto with events lia.
Qed.

Lemma update_safe id pos : all_events safe_event (updateVariantPosition id pos).
Proof.
  unfold updateVariantPosition. apply all_events_bind; [|auto with events].
  apply send_safe. split; [done|right]. split; [done|]. by eexists.
Qed.

#[local] Hint Resolve update_safe : events.

Lemma reorder_safe p : all_events safe_event (checkAndReorderVariants p).
Proof.
  unfold checkAndReorderVariants; cbv zeta. repeat case_match; auto 20 with events lia.
Qed.

Lemma next_url_listing hs u : next_url hs = Some u -> listing_url u.
Proof. unfold next_url. repeat case_match; intros [= <-]; right; by eexists. Qed.

Lemma page_loop_safe fuel url n : listing_url url -> all_events safe_event (page_loop fuel url n).
Proof.
  revert url n. induction fuel as [|fuel IH]; intros url n Hu; cbn [page_loop]; [auto with events|].
  apply all_events_bind; [apply retry_safe; [done|lia]|]. intros r.
  repeat case_match; auto using reorder_safe with events.
  all: repeat apply all_events_bind; eauto using reorder_safe, next_url_listing with events.
Qed.

(** C6 (safety of every run).  Whatever the store answers and however
    the run ends, every request [main] sends carries the access token and
    is a GET of a listing page or the PUT of a variant's position to
    [variants/<id>.json] with the same id in its body, each under the
    configured store's [baseURL]; every delay is at least 1000 ms. *)
Theorem main_sends_only_allowed fuel : all_events safe_event (main fuel).
Proof.
  unfold main, processAllProducts.
  apply all_events_catch; [|auto with events].
  apply all_events_bind; [apply page_loop_safe; by left|auto with events].
Qed.

End Safety.

(** ** Witness *)

#[local] Existing Instance demo_env.

Lemma main_sends_only_allowed_witness :
  let '(_, t, _) := @main _ _ script_transport 2 [Reply last_page] in Forall safe_event t.
Proof.
  pose proof (@main_sends_only_allowed _ _ script_transport 2 [Reply last_page]) as H.
  destruct (main 2 [Reply last_page]) as [[s' t] o] eqn:E. exact (H s' t o eq_refl).
Defined.
