(* ===== verification/Positions.v ===== *)
(** * Well-formed positions: the catalogue invariant the run keeps

    Shopify numbers the variants of a product [1..n].  A swap exchanges
    the positions of two distinct variants, so the positions of a product
    stay a permutation of what they were; in particular a product whose
    positions are [1..n] before the run has positions [1..n] after it,
    with no position held twice. *)

From Stdlib Require Import String ZArith List Lia.
From stdpp Require Import base list strings decidable sets.
From S2P Require Import Prelude Catalog Http Store Reorder Pager Run.
Import ListNotations.

Local Abbreviation NoDup_cons := stdpp.list_relations.list.NoDup_cons.
Local Abbreviation NoDup_app := stdpp.list_relations.list.NoDup_app.

(** The positions of a product are [1..n]. *)
Definition wf_positions (p : product) : Prop :=
  map v_position (p_variants p) ≡ₚ map Z.of_nat (seq 1 (length (p_variants p))).

Lemma NoDup_map_eq {A B} (f : A -> B) l x y :
  NoDup (map f l) -> x ∈ l -> y ∈ l -> f x = f y -> x = y.
Proof.
  induction l as [|z l IH]; [by rewrite elem_of_nil|]. cbn [map]. rewrite NoDup_cons.
  intros [Hz Hl]. rewrite !elem_of_cons. intros [->|Hx] [->|Hy] Hf; try done.
  - destruct Hz. rewrite Hf. apply list_elem_of_In, in_map, list_elem_of_In; done.
  - destruct Hz. rewrite <- Hf. apply list_elem_of_In, in_map, list_elem_of_In; done.
  - by apply IH.
Qed.

Lemma swapped_comm sv bv w : v_id sv <> v_id bv -> swapped sv bv w = swapped bv sv w.
Proof.
  intros Hne. unfold swapped.
  destruct (Z.eqb_spec (v_id w) (v_id sv)), (Z.eqb_spec (v_id w) (v_id bv)); congruence.
Qed.

(** The swap of [x] placed before [y] in the list. *)
Lemma swapped_positions_split x y a b c :
  NoDup (map v_id (a ++ x :: b ++ y :: c)) ->
  map v_position (map (swapped x y) (a ++ x :: b ++ y :: c)) ≡ₚ
    map v_position (a ++ x :: b ++ y :: c).
Proof.
  rewrite !map_app. cbn [map]. rewrite !map_app. cbn [map].
  rewrite !NoDup_app, !NoDup_cons, !NoDup_app, !NoDup_cons.
  intros (_ & Ha & Hx & _ & Hb & Hy & _).
  assert (Hxy : v_id x <> v_id y) by (intros E; apply Hx; rewrite E; set_solver).
  rewrite !map_swapped_other;
    try (intros Hin; first [apply (Ha _ Hin) | apply (Hb _ Hin)]; set_solver); try set_solver.
  unfold swapped at 1 2; cbn [v_position v_id]. rewrite !Z.eqb_refl.
  destruct (Z.eqb_spec (v_id y) (v_id x)); [congruence|]. solve_Permutation.
Qed.

Lemma swapped_positions sv bv vs :
  NoDup (map v_id vs) -> sv ∈ vs -> bv ∈ vs -> v_id sv <> v_id bv ->
  map v_position (map (swapped sv bv) vs) ≡ₚ map v_position vs.
Proof.
  intros Hu Hs Hb Hne. destruct (list_elem_of_split _ _ Hs) as (a & r & ->).
  rewrite elem_of_app, elem_of_cons in Hb. destruct Hb as [Hb|[->|Hb]]; [|done|].
  - destruct (list_elem_of_split _ _ Hb) as (a1 & a2 & ->).
    rewrite (map_ext _ (swapped bv sv)) by (intros; by apply swapped_comm).
    rewrite <- app_assoc in Hu |- *. cbn [app] in Hu |- *. by apply swapped_positions_split.
  - destruct (list_elem_of_split _ _ Hb) as (b & c & ->). by apply swapped_positions_split.
Qed.

(** The reorder of one product permutes its positions. *)
Lemma reorder_product_positions p :
  NoDup (map v_id (p_variants p)) ->
  map v_position (p_variants (reorder_product p)) ≡ₚ map v_position (p_variants p).
Proof.
  intros Hu. destruct (reorder_product_cases p) as [[_ ->]|(sv & bv & Hs & Hb & Hlt & ->)]; [done|].
  apply find_In in Hs as [Hs _]. apply find_In in Hb as [Hb _]. apply list_elem_of_In in Hs, Hb.
  apply swapped_positions; [done|done|done|]. intros Hid.
  assert (sv = bv) as -> by (eapply NoDup_map_eq; eauto). lia.
Qed.

Lemma wf_positions_reorder p :
  NoDup (map v_id (p_variants p)) -> wf_positions p -> wf_positions (reorder_product p).
Proof.
  unfold wf_positions. intros Hu Hp. rewrite reorder_product_positions, Hp by done.
  by rewrite <- (length_map v_id (p_variants (reorder_product p))), reorder_product_ids, length_map.
Qed.

Lemma variant_ids_NoDup_product ps p :
  NoDup (variant_ids ps) -> p ∈ ps -> NoDup (map v_id (p_variants p)).
Proof.
  induction ps as [|q ps IH]; [by rewrite elem_of_nil|]. rewrite variant_ids_cons, NoDup_app, elem_of_cons.
  intros (Hq & _ & Hps) [->|Hp]; [done|by apply IH].
Qed.

Section Positions.
Context {env : Env}.

(** C21 (well-formedness of the catalogue).  Run on the [SetField]
    store under the hypotheses of C1, [main] keeps the Shopify invariant
    that the positions of every product are exactly [1..n]: no position
    is lost, and none is held by two variants, at the end of the run. *)
Theorem main_keeps_positions fuel st :
  string_forall is_handle_char (st_name st) = true ->
  st_name st = SHOPIFY_STORE -> st_token st = SHOPIFY_ACCESS_TOKEN ->
  NoDup (variant_ids (st_products st)) ->
  (length (st_products st) <= fuel * page_limit)%nat -> (0 < fuel)%nat ->
  Forall wf_positions (st_products st) ->
  exists st' t, @main _ _ set_field_transport fuel st = (st', t, Ok tt) /\
    Forall wf_positions (st_products st').
Proof.
  intros Hh Hn Ht Hu Hlen Hf Hwf.
  destruct (process_on_store fuel st) as (st' & t & H & _ & _ & Hp & _ & _ & _); try done.
  exists st', (t ++ [EvLog LogFinished]). split.
  - unfold main. apply try_catch_not_Exc; [done|discriminate].
  - rewrite Hp, Forall_map. rewrite Forall_forall in Hwf |- *. intros p Hin.
    apply wf_positions_reorder; [|by apply Hwf].
    eapply variant_ids_NoDup_product; [exact Hu|first [done|by apply list_elem_of_In]].
Qed.

End Positions.

(** ** Witness *)

#[local] Existing Instance demo_env.

Lemma main_keeps_positions_witness :
  exists st' t, @main _ _ set_field_transport 1 demo_store = (st', t, Ok tt) /\
    Forall wf_positions (st_products st').
Proof.
  apply main_keeps_positions; [reflexivity|reflexivity|reflexivity| |simpl; lia|lia|].
  - apply (bool_decide_unpack _). vm_compute. exact I.
  - repeat constructor.
Defined.
