(* ===== verification/Console.v ===== *)
(** * What the program prints: the console lines of a trace

    Each [console] call of [src/index.js] is a [log_line] of the trace
    (Http.v); this file renders it as Node prints it: the channel
    ([console.log] writes to standard output, [console.warn] and
    [console.error] to standard error) and the text of the template
    literal.  [console.error] on line 94 receives a second argument, an
    object that Node formats with [util.inspect]; that formatting is not
    modelled, the line keeps the object itself.

    The one number the code divides is the delay on line 25, printed as
    [${delay / 1000}]: [div1000_to_string] is [Number.prototype.toString]
    of [n / 1000] for an integer [n], exact for [|n| < 10^15] (the
    decimal has at most 15 significant digits, so it is the shortest text
    that reads back as that double); the delays of the program are
    [1000 * 2^k] with [k < 5].

    Two properties are proved: the back-off warnings of line 25, and the
    closing line of a run (lines 60 and 94), last and printed once, as a
    trace invariant [all_events not_closing] of the loop. *)

From Stdlib Require Import String ZArith List Lia.
From stdpp Require Import base list strings decidable.
From S2P Require Import Prelude Catalog Http Store Retry Reorder Pager Run.
Import ListNotations.
Local Open Scope string_scope.

Inductive channel := Stdout | Stderr.

#[export] Instance channel_eq_dec : EqDecision channel.
Proof. solve_decision. Defined.

Record console_line := mkLine {
  cl_channel : channel;
  cl_text : string;
  cl_arg : option error_report
}.

(** One decimal digit. *)
Definition digit (d : Z) : string := JsString.number_to_string d.

(** The decimals of [r / 1000] for [0 < r < 1000], trailing zeros dropped. *)
Definition frac_digits (r : Z) : string :=
  let d1 := (r / 100)%Z in
  let d2 := (r / 10 mod 10)%Z in
  let d3 := (r mod 10)%Z in
  if (d3 =? 0)%Z then
    if (d2 =? 0)%Z then digit d1 else digit d1 ++ digit d2
  else digit d1 ++ digit d2 ++ digit d3.

(** [String(n / 1000)] for an integer [n]. *)
Definition div1000_to_string (n : Z) : string :=
  let a := Z.abs n in
  (if (n <? 0)%Z then "-" else "") ++ JsString.number_to_string (a / 1000) ++
  (if (a mod 1000 =? 0)%Z then "" else "." ++ frac_digits (a mod 1000)).

Definition render (l : log_line) : console_line :=
  match l with
  | LogRetry delay =>                                             (* line 25 *)
      mkLine Stderr ("Received 429 Too Many Requests. Retrying in " ++
                     div1000_to_string delay ++ " seconds...") None
  | LogPage pageNumber count =>                                   (* line 43 *)
      mkLine Stdout ("Processing page " ++ JsString.number_to_string pageNumber ++ " with " ++
                     JsString.number_to_string (Z.of_nat count) ++ " products...") None
  | LogReorder id title =>                                        (* line 70 *)
      mkLine Stdout ("Reordering Product ID: " ++ JsString.number_to_string id ++ " - " ++
                     dquote ++ title ++ dquote) None
  | LogOrder sp bp =>                                             (* line 71 *)
      mkLine Stdout ("Current Order: Sample (pos: " ++ JsString.number_to_string sp ++
                     ") before Bolt (pos: " ++ JsString.number_to_string bp ++ ")") None
  | LogReorderComplete =>                                         (* line 76 *)
      mkLine Stdout ("Reorder complete." ++ String (Ascii.ascii_of_nat 10) "") None
  | LogFinished =>                                                (* line 60 *)
      mkLine Stdout "Finished processing all products." None
  | LogError r =>                                                 (* line 94 *)
      mkLine Stderr "Error occurred:" (Some r)
  end.

(** The console lines of a trace, in order. *)
Definition console_lines (t : list event) : list console_line :=
  omap (fun e => match e with EvLog l => Some (render l) | _ => None end) t.

Lemma console_lines_app t1 t2 : console_lines (t1 ++ t2) = (console_lines t1 ++ console_lines t2)%list.
Proof. apply omap_app. Qed.

Lemma div1000_mul m : (0 <= m)%Z -> div1000_to_string (1000 * m) = JsString.number_to_string m.
Proof.
  intros Hm. unfold div1000_to_string.
  rewrite Z.abs_eq by lia. destruct (Z.ltb_spec (1000 * m) 0); [lia|].
  rewrite Z.mul_comm, Z.div_mul, Z_mod_mult by lia. apply string_app_nil_r.
Qed.

Section Warnings.
Context {env : Env}.

Lemma backoff_trace_console url d k :
  console_lines (backoff_trace url d k) = map (fun ms => render (LogRetry ms)) (doubling d k).
Proof.
  revert d. induction k as [|k IH]; intros d; [done|].
  cbn [backoff_trace]. rewrite console_lines_app, IH, doubling_S. done.
Qed.

Context {σ : Type} {transport : Transport σ}.

(** C23 (the back-off warnings, line 25).  Against a store that always
    answers 429, [retryRequest url n 1000] prints on standard error, and
    nowhere else, exactly the [n] lines "Received 429 Too Many Requests.
    Retrying in 2^i seconds..." for [i = 0 .. n-1]: the delay of each
    retry in whole seconds. *)
Theorem retry_warnings url n s r :
  status r = 429%Z ->
  (forall s0, snd (transport_send s0 (get_request url)) = Reply r) ->
  let '(_, t, _) := retryRequest url n 1000 s in
  console_lines t =
    map (fun i => mkLine Stderr ("Received 429 Too Many Requests. Retrying in " ++
                                 JsString.number_to_string (2 ^ Z.of_nat i) ++ " seconds...") None)
        (seq 0 n).
Proof.
  intros H429 Hall. destruct (retry_always_429 url n 1000 s r H429 Hall) as [s' ->].
  rewrite console_lines_app, backoff_trace_console, app_nil_r. unfold doubling. rewrite map_map.
  apply map_ext. intros i. cbn [render]. by rewrite div1000_mul by lia.
Qed.

End Warnings.

(** ** The last line of a run *)

(** A line other than the two closing ones of the program: the line 60
    [console.log] after the loop and the line 94 [console.error]. *)
Definition not_closing (ev : event) : Prop :=
  match ev with
  | EvLog LogFinished | EvLog (LogError _) => False
  | _ => True
  end.

Definition finished_text : string := "Finished processing all products.".
Definition error_text : string := "Error occurred:".

(** Every other line starts with a letter other than [F] and [E]. *)
Lemma render_not_closing l :
  not_closing (EvLog l) ->
  cl_text (render l) <> finished_text /\ cl_text (render l) <> error_text.
Proof. destruct l; cbn; try done; split; discriminate. Qed.

Section Closing.
Context {env : Env} {σ : Type} {transport : Transport σ}.

Lemma send_not_closing m url b : all_events not_closing (send m url b).
Proof. intros s s' t o. rewrite send_run. intros [= _ <- _]. by repeat constructor. Qed.

Lemma sleep_not_closing ms : all_events not_closing (sleep ms).
Proof. intros s s' t o [= _ <- _]. by repeat constructor. Qed.

(** The steps of the program that print no closing line. *)
Ltac quiet :=
  repeat first [ apply all_events_ret | apply all_events_throw | apply all_events_out_of_fuel
               | apply send_not_closing | apply sleep_not_closing
               | apply all_events_emit; exact I
               | apply all_events_bind; [|intros] ].

Lemma retry_not_closing url n d : all_events not_closing (retryRequest url n d).
Proof.
  revert d. induction n as [|n IH]; intros d; cbn [retryRequest];
    (apply all_events_catch; [apply send_not_closing|]); intros [[r|]]; repeat case_match; quiet.
  apply IH.
Qed.

Lemma reorder_not_closing p : all_events not_closing (checkAndReorderVariants p).
Proof. unfold checkAndReorderVariants, updateVariantPosition; cbv zeta. repeat case_match; quiet. Qed.

Lemma page_loop_not_closing fuel url n : all_events not_closing (page_loop fuel url n).
Proof.
  revert url n. induction fuel as [|fuel IH]; intros url n; cbn [page_loop]; [quiet|].
  apply all_events_bind; [apply retry_not_closing|]. intros r.
  repeat case_match; quiet; auto using all_events_for_each, reorder_not_closing.
Qed.

(** C24 (the closing line, lines 60 and 94).  Whatever the store answers,
    a run of the program that resolves prints, as its very last line and
    nowhere before, either "Finished processing all products." on
    standard output (the loop ended) or "Error occurred:" with the error
    on standard error (a request was rejected); no other line of the run
    has either text. *)
Theorem main_closing_line fuel s s' t :
  main fuel s = (s', t, Ok tt) ->
  exists lines final, console_lines t = (lines ++ [final])%list /\
    (final = mkLine Stdout finished_text None \/ exists r, final = mkLine Stderr error_text (Some r)) /\
    Forall (fun cl => cl_text cl <> finished_text /\ cl_text cl <> error_text) lines.
Proof.
  unfold main, processAllProducts, try_catch, ebind.
  destruct (page_loop fuel first_page_url 0 s) as [[s1 t1] [[]|e|]] eqn:E; intros H; try discriminate;
    injection H as _ <-; exists (console_lines t1);
    [exists (render LogFinished)|exists (render (LogError (report e)))];
    (split; [rewrite ?app_nil_r; apply console_lines_app|]);
    (split; [by eauto|]).
  all: pose proof (page_loop_not_closing fuel first_page_url 0 s s1 t1 _ E) as Hall;
    clear E; induction Hall as [|[rq|ms|l] t1 Hx _ IH]; cbn; try done;
    constructor; [by apply render_not_closing|done].
Qed.

End Closing.

#[local] Existing Instance demo_env.

(** ** Witness *)

#[local] Instance always_429_store : Transport unit := {
  transport_send s _ := (s, Reply r429);
  transport_wait s _ := s
}.

Lemma retry_warnings_witness :
  let '(_, t, _) := @retryRequest _ _ always_429_store first_page_url 3 1000 tt in
  console_lines t =
    [mkLine Stderr "Received 429 Too Many Requests. Retrying in 1 seconds..." None;
     mkLine Stderr "Received 429 Too Many Requests. Retrying in 2 seconds..." None;
     mkLine Stderr "Received 429 Too Many Requests. Retrying in 4 seconds..." None].
Proof. exact (retry_warnings first_page_url 3 tt r429 eq_refl (fun _ => eq_refl)). Defined.

Lemma main_closing_line_witness :
  exists lines final, console_lines (snd (fst (@main _ _ always_429_store 1 tt))) = (lines ++ [final])%list /\
    (final = mkLine Stdout finished_text None \/ exists r, final = mkLine Stderr error_text (Some r)) /\
    Forall (fun cl => cl_text cl <> finished_text /\ cl_text cl <> error_text) lines.
Proof. apply (main_closing_line 1 tt tt). vm_compute. reflexivity. Defined.
