(* ===== verification/MoveInList.v ===== *)
(** * The swap on a store that moves the variant within its list

    Shopify's Admin API treats [position] in a variant PUT as a move: the
    variant goes to that place in the product's list and the positions
    are renumbered [1..n] ([MoveInList] in Store.v).  On such a store the
    two writes of [checkAndReorderVariants] still swap the two variants,
    provided the product is listed by position with positions [1..n], as
    the API returns it: the bolt variant is moved into the sample's
    place, which pushes the sample one place down, and the sample is then
    moved into the bolt's old place.  The store ends holding
    [reorder_product] of the product, listed by position. *)

From Stdlib Require Import String ZArith List Lia.
From stdpp Require Import base list strings decidable sets.
From S2P Require Import Prelude Catalog Http Store Reorder Positions.
Import ListNotations.

(** ** Renumbering *)

(** A variant placed at position [k]. *)
Definition at_pos (v : variant) (k : Z) : variant :=
  {| v_id := v_id v; v_title := v_title v; v_position := k |}.

(** What a variant is, its position aside. *)
Definition strip (v : variant) : Z * string := (v_id v, v_title v).

Lemma renumber_length k l : length (renumber k l) = length l.
Proof. revert k. induction l as [|v l IH]; intros k; simpl; [done|]. by rewrite IH. Qed.

Lemma renumber_app k a b :
  renumber k (a ++ b) = renumber k a ++ renumber (k + Z.of_nat (length a)) b.
Proof.
  revert k. induction a as [|v a IH]; intros k; simpl; [by rewrite Z.add_0_r|].
  rewrite IH. do 3 f_equal. lia.
Qed.

Lemma renumber_cons k v l : renumber k (v :: l) = at_pos v k :: renumber (k + 1) l.
Proof. done. Qed.

Lemma strip_renumber k l : map strip (renumber k l) = map strip l.
Proof. revert k. induction l as [|v l IH]; intros k; simpl; [done|]. by rewrite IH. Qed.

Lemma renumber_strip k l1 l2 : map strip l1 = map strip l2 -> renumber k l1 = renumber k l2.
Proof.
  revert k l2. induction l1 as [|v l1 IH]; intros k [|w l2]; unfold strip; simpl; try done.
  intros [= Hid Ht Hl]. by rewrite Hid, Ht, (IH (k + 1)%Z l2 Hl).
Qed.

Lemma renumber_In k l v : In v (renumber k l) -> (k <= v_position v < k + Z.of_nat (length l))%Z.
Proof.
  revert k. induction l as [|w l IH]; intros k; simpl; [done|].
  intros [<-|Hin]; [simpl; lia|]. specialize (IH _ Hin). lia.
Qed.

(** The positions of [A ++ x :: B ++ y :: C] renumbered from [k]. *)
Lemma renumber_5 k A x B y C :
  renumber k (A ++ x :: B ++ y :: C) =
    renumber k A ++ at_pos x (k + Z.of_nat (length A)) ::
    renumber (k + Z.of_nat (length A) + 1) B ++
    at_pos y (k + Z.of_nat (length A) + 1 + Z.of_nat (length B)) ::
    renumber (k + Z.of_nat (length A) + 1 + Z.of_nat (length B) + 1) C.
Proof. by rewrite renumber_app, renumber_cons, renumber_app, renumber_cons. Qed.

Lemma app_cons_inj {A} (a1 a2 : list A) x1 x2 r1 r2 :
  length a1 = length a2 -> a1 ++ x1 :: r1 = a2 ++ x2 :: r2 -> a1 = a2 /\ x1 = x2 /\ r1 = r2.
Proof. intros Hl H. apply app_inj_1 in H as [-> H]; [|done]. by injection H as -> ->. Qed.

(** A list listed by position with positions [k..]: its pieces. *)
Lemma ordered_5 k A x B y C :
  renumber k (A ++ x :: B ++ y :: C) = A ++ x :: B ++ y :: C ->
  renumber k A = A /\ x = at_pos x (k + Z.of_nat (length A)) /\
  renumber (k + Z.of_nat (length A) + 1) B = B /\
  y = at_pos y (k + Z.of_nat (length A) + 1 + Z.of_nat (length B)) /\
  renumber (k + Z.of_nat (length A) + 1 + Z.of_nat (length B) + 1) C = C.
Proof.
  rewrite renumber_5. intros H.
  apply app_cons_inj in H as (HA & Hx & H); [|apply renumber_length].
  apply app_cons_inj in H as (HB & Hy & HC); [|apply renumber_length]. done.
Qed.

Lemma ordered_split k A x R :
  renumber k (A ++ x :: R) = A ++ x :: R -> renumber k A = A /\ v_position x = (k + Z.of_nat (length A))%Z.
Proof.
  rewrite renumber_app, renumber_cons. intros H.
  apply app_cons_inj in H as (HA & Hx & _); [|apply renumber_length]. by rewrite <- Hx.
Qed.

(** In a list listed by position, a variant with a smaller position comes first. *)
Lemma ordered_layout vs sv bv :
  renumber 1 vs = vs -> In sv vs -> In bv vs -> (v_position sv < v_position bv)%Z ->
  exists A B C, vs = A ++ sv :: B ++ bv :: C.
Proof.
  intros Ho Hs Hb Hlt. destruct (in_split _ _ Hs) as (A & R & ->).
  destruct (ordered_split _ _ _ _ Ho) as [HA Hsv].
  apply in_app_or in Hb as [Hb|[<-|Hb]]; [|lia|].
  - rewrite <- HA in Hb. apply renumber_In in Hb. lia.
  - destruct (in_split _ _ Hb) as (B & C & ->). by exists A, B, C.
Qed.

(** ** One move *)

(** No variant of [l] has the id [id]. *)
Definition avoids (id : Z) (l : list variant) : Prop := Forall (fun w => v_id w <> id) l.

Lemma avoids_renumber id k l : avoids id l -> avoids id (renumber k l).
Proof.
  unfold avoids. intros H. revert k.
  induction H as [|w l Hw _ IH]; intros k; simpl; [constructor|constructor; [exact Hw|apply IH]].
Qed.

Lemma filter_avoids id l : avoids id l -> filter (fun w => negb (v_id w =? id)%Z) l = l.
Proof.
  induction 1 as [|w l Hw _ IH]; [done|]. apply Z.eqb_neq in Hw.
  rewrite filter_cons_True, IH; [done|]. by rewrite Hw.
Qed.

Lemma move_variant_avoids id pos l : avoids id l -> move_variant id pos l = l.
Proof.
  intros H. unfold move_variant. rewrite (proj2 (find_none_iff _ _)); [done|].
  eapply Forall_impl; [exact H|]. intros w Hw. by apply Z.eqb_neq.
Qed.

(** Moving the variant [v] of [a ++ v :: b] to position [pos]. *)
Lemma move_variant_split id pos a v b :
  v_id v = id -> avoids id a -> avoids id b ->
  move_variant id pos (a ++ v :: b) =
    renumber 1 (firstn (Z.to_nat (Z.min (Z.max (pos - 1) 0) (Z.of_nat (length (a ++ b))))) (a ++ b) ++
                v :: skipn (Z.to_nat (Z.min (Z.max (pos - 1) 0) (Z.of_nat (length (a ++ b))))) (a ++ b)).
Proof.
  intros Hv Ha Hb. unfold move_variant.
  rewrite (proj2 (find_first _ _ v)).
  - rewrite filter_app, filter_cons_False, !filter_avoids; [done|done|done|].
    rewrite Hv, Z.eqb_refl. by intros [].
  - exists a, b. split; [done|]. split; [by apply Z.eqb_eq|].
    eapply Forall_impl; [exact Ha|]. intros w Hw. by apply Z.eqb_neq.
Qed.

Lemma avoids_iff id l : avoids id l <-> id ∉ map v_id l.
Proof.
  unfold avoids. induction l as [|w l IH]; cbn [map]; [split; [intros _; apply not_elem_of_nil|constructor]|].
  rewrite Forall_cons, not_elem_of_cons, IH. naive_solver.
Qed.

Lemma nodup_split_avoids a x b :
  NoDup (map v_id (a ++ x :: b)) -> avoids (v_id x) a /\ avoids (v_id x) b.
Proof.
  rewrite map_app. cbn [map]. rewrite NoDup_app, NoDup_cons. intros (_ & Ha & Hx & _).
  rewrite !avoids_iff. split; [|done]. intros Hin. apply (Ha _ Hin). set_solver.
Qed.

Lemma avoids_app id a b : avoids id (a ++ b) <-> avoids id a /\ avoids id b.
Proof. apply Forall_app. Qed.

(** The positions of the two variants, and the ids the rest avoid. *)
Lemma layout_positions A sv B bv C :
  renumber 1 (A ++ sv :: B ++ bv :: C) = A ++ sv :: B ++ bv :: C ->
  v_position sv = (1 + Z.of_nat (length A))%Z /\
  v_position bv = (1 + Z.of_nat (length A) + 1 + Z.of_nat (length B))%Z.
Proof.
  intros Ho. destruct (ordered_5 1 A sv B bv C Ho) as (_ & Hsv & _ & Hbv & _).
  split; [rewrite Hsv at 1|rewrite Hbv at 1]; reflexivity.
Qed.

Lemma layout_avoids A sv B bv C :
  NoDup (map v_id (A ++ sv :: B ++ bv :: C)) ->
  v_id sv <> v_id bv /\ avoids (v_id sv) A /\ avoids (v_id sv) B /\ avoids (v_id sv) C /\
  avoids (v_id bv) A /\ avoids (v_id bv) B /\ avoids (v_id bv) C.
Proof.
  intros Hu. assert (Hu' : NoDup (map v_id ((A ++ sv :: B) ++ bv :: C))) by (by rewrite <- List.app_assoc).
  destruct (nodup_split_avoids _ _ _ Hu') as [HbA HbC]. apply avoids_app in HbA as [HbA HbR].
  inversion HbR as [|? ? Hbs HbB]; subst.
  destruct (nodup_split_avoids _ _ _ Hu) as [HsA HsR].
  apply avoids_app in HsR as [HsB HsR]. inversion HsR as [|? ? Hsb HsC]; subst.
  by repeat split.
Qed.

Lemma ids_renumber k l : map v_id (renumber k l) = map v_id l.
Proof. revert k. induction l as [|v l IH]; intros k; simpl; [done|]. by rewrite IH. Qed.

(** The first write of a swap, on a list listed by position with unique
    ids and the sample variant [sv] before the bolt variant [bv]: the
    bolt variant takes the sample's place and pushes it down. *)
Lemma first_move A sv B bv C :
  renumber 1 (A ++ sv :: B ++ bv :: C) = A ++ sv :: B ++ bv :: C ->
  NoDup (map v_id (A ++ sv :: B ++ bv :: C)) ->
  move_variant (v_id bv) (v_position sv) (A ++ sv :: B ++ bv :: C) = renumber 1 (A ++ bv :: sv :: B ++ C).
Proof.
  intros Ho Hu. destruct (layout_positions _ _ _ _ _ Ho) as [Psv _].
  destruct (layout_avoids _ _ _ _ _ Hu) as (Hne & _ & _ & _ & HbA & HbB & HbC).
  replace (A ++ sv :: B ++ bv :: C) with ((A ++ sv :: B) ++ bv :: C) by (by rewrite <- List.app_assoc).
  rewrite (move_variant_split (v_id bv) (v_position sv) (A ++ sv :: B) bv C);
    [|done|apply avoids_app; split; [done|by constructor]|done].
  rewrite <- List.app_assoc. cbn [app].
  by rewrite (take_app_length' A _ _), (drop_app_length' A _ _)
    by (rewrite Psv, !length_app; cbn [length]; lia).
Qed.

(** The second write: the sample variant takes the bolt's old place. *)
Lemma second_move A sv B bv C :
  renumber 1 (A ++ sv :: B ++ bv :: C) = A ++ sv :: B ++ bv :: C ->
  NoDup (map v_id (A ++ sv :: B ++ bv :: C)) ->
  move_variant (v_id sv) (v_position bv) (renumber 1 (A ++ bv :: sv :: B ++ C)) =
  renumber 1 (A ++ bv :: B ++ sv :: C).
Proof.
  intros Ho Hu. destruct (layout_positions _ _ _ _ _ Ho) as [_ Pbv].
  destruct (layout_avoids _ _ _ _ _ Hu) as (Hne & HsA & HsB & HsC & _ & _ & _).
  replace (A ++ bv :: sv :: B ++ C) with ((A ++ [bv]) ++ sv :: B ++ C) by (by rewrite <- List.app_assoc).
  rewrite renumber_app, renumber_cons.
  rewrite (move_variant_split (v_id sv) (v_position bv)); [|done| |].
  2: { apply avoids_renumber, avoids_app. split; [done|]. constructor; [|constructor]. congruence. }
  2: { apply avoids_renumber, avoids_app. by split. }
  rewrite (renumber_app _ B C), !List.app_assoc.
  rewrite (take_app_length' (renumber 1 (A ++ [bv]) ++ renumber _ B) _ _),
    (drop_app_length' (renumber 1 (A ++ [bv]) ++ renumber _ B) _ _)
    by (rewrite Pbv, !length_app, !renumber_length, !length_app; cbn [length]; lia).
  apply renumber_strip. rewrite !map_app, !strip_renumber. cbn [map]. rewrite !map_app, !strip_renumber.
  cbn [map app]. by rewrite <- !List.app_assoc.
Qed.

Lemma renumber_idem l : renumber 1 (renumber 1 l) = renumber 1 l.
Proof. apply renumber_strip, strip_renumber. Qed.

(** The swapped list, renumbered, is the specification's swap. *)
Lemma renumber_swapped A sv B bv C :
  renumber 1 (A ++ sv :: B ++ bv :: C) = A ++ sv :: B ++ bv :: C ->
  NoDup (map v_id (A ++ sv :: B ++ bv :: C)) ->
  renumber 1 (A ++ bv :: B ++ sv :: C) ≡ₚ map (swapped sv bv) (A ++ sv :: B ++ bv :: C).
Proof.
  intros Ho Hu. destruct (ordered_5 1 A sv B bv C Ho) as (HA & _ & HB & _ & HC).
  destruct (layout_positions _ _ _ _ _ Ho) as [Psv Pbv].
  destruct (layout_avoids _ _ _ _ _ Hu) as (Hne & HsA & HsB & HsC & HbA & HbB & HbC).
  rewrite renumber_5, HA, HB, HC, !map_app. cbn [map]. rewrite map_app. cbn [map].
  rewrite !map_swapped_other by (apply avoids_iff; done).
  replace (swapped sv bv sv) with (at_pos sv (v_position bv))
    by (unfold swapped, at_pos; by rewrite Z.eqb_refl).
  replace (swapped sv bv bv) with (at_pos bv (v_position sv))
    by (unfold swapped, at_pos; rewrite (proj2 (Z.eqb_neq _ _) (not_eq_sym Hne)); by rewrite Z.eqb_refl).
  rewrite Psv, Pbv. solve_Permutation.
Qed.

(** ** The store *)

Lemma move_products_avoid u qs :
  upd_id u ∉ variant_ids qs -> update_products MoveInList u qs = qs.
Proof.
  induction qs as [|[i ti vs] qs IH]; [done|]. rewrite variant_ids_cons, elem_of_app.
  intros Hn. unfold update_products, apply_update in *. cbn [map].
  rewrite IH by naive_solver. rewrite move_variant_avoids; [done|]. apply avoids_iff. naive_solver.
Qed.

Lemma move_products_split u pre p post :
  upd_id u ∉ variant_ids pre -> upd_id u ∉ variant_ids post ->
  update_products MoveInList u (pre ++ p :: post) =
    pre ++ {| p_id := p_id p; p_title := p_title p;
              p_variants := move_variant (upd_id u) (upd_position u) (p_variants p) |} :: post.
Proof.
  intros Hpre Hpost. unfold update_products at 1. rewrite map_app. cbn [map].
  fold (update_products MoveInList u pre). fold (update_products MoveInList u post).
  by rewrite !move_products_avoid.
Qed.

(** The ids of one product of a catalogue with unique ids occur in no other. *)
Lemma nodup_product_ids pre p post id :
  NoDup (variant_ids (pre ++ p :: post)) -> id ∈ map v_id (p_variants p) ->
  id ∉ variant_ids pre /\ id ∉ variant_ids post.
Proof.
  rewrite variant_ids_app, variant_ids_cons. intros Hu Hid.
  apply NoDup_app in Hu as (_ & Hpre & Hu). apply NoDup_app in Hu as (_ & Hpost & _).
  split; [intros Hin; apply (Hpre _ Hin); set_solver|by apply Hpost].
Qed.

Lemma elem_of_layout_ids x A sv B bv C :
  x = sv \/ x = bv -> v_id x ∈ map v_id (A ++ sv :: B ++ bv :: C).
Proof. intros [->| ->]; rewrite map_app; cbn [map]; rewrite ?map_app; set_solver. Qed.

Section OnMoveStore.
Context {env : Env}.

(** C7 (the swap on Shopify's own semantics).  On the store whose PUT
    moves the variant to the given place of its product's list and
    renumbers the positions, for a product listed by position with
    positions [1..n] (as the API lists it) and unique variant ids, the
    policy succeeds and the store ends holding [reorder_product] of the
    product, listed by position, in place of the product, and nothing
    else changes. *)
Theorem reorder_moves_on_store st pre product post :
  st_name st = SHOPIFY_STORE -> st_token st = SHOPIFY_ACCESS_TOKEN ->
  st_products st = pre ++ product :: post -> NoDup (variant_ids (st_products st)) ->
  renumber 1 (p_variants product) = p_variants product ->
  exists st' t q,
    @checkAndReorderVariants _ _ (store_transport MoveInList) product st = (st', t, Ok tt) /\
    st_products st' = pre ++ q :: post /\ p_id q = p_id product /\ p_title q = p_title product /\
    p_variants q ≡ₚ p_variants (reorder_product product) /\ renumber 1 (p_variants q) = p_variants q.
Proof.
  intros Hn Ht Hp Hu Ho.
  destruct (reorder_product_cases product) as [[Hw ->]|(sv & bv & Hs & Hb & Hlt & Hr)].
  { exists st, [], product. rewrite reorder_noop by done. by repeat split. }
  pose proof (proj1 (find_In _ _ _ Hs)) as Hsi. pose proof (proj1 (find_In _ _ _ Hb)) as Hbi.
  destruct (ordered_layout _ _ _ Ho Hsi Hbi Hlt) as (A & B & C & HL).
  assert (HuP : NoDup (map v_id (p_variants product))).
  { eapply variant_ids_NoDup_product; [exact Hu|]. rewrite Hp. set_solver. }
  rewrite Hp in Hu. rewrite HL in HuP, Ho.
  destruct (nodup_product_ids _ _ _ (v_id sv) Hu) as [Hs1 Hs2]; [by rewrite HL; apply elem_of_layout_ids; left|].
  destruct (nodup_product_ids _ _ _ (v_id bv) Hu) as [Hb1 Hb2]; [by rewrite HL; apply elem_of_layout_ids; right|].
  erewrite (@reorder_swap_run _ _ (store_transport MoveInList));
    [|exact Hs|exact Hb|exact Hlt|apply store_accepts_put; [done|done|]|done|
     apply store_accepts_put; [done|done|]|done].
  - eexists _, _, _. split; [reflexivity|]. cbn [st_products transport_wait store_transport].
    rewrite Hp.
    rewrite (move_products_split (first_write sv bv)); [|exact Hb1|exact Hb2].
    rewrite (move_products_split (second_write sv bv)); [|exact Hs1|exact Hs2].
    cbn [p_variants p_id p_title first_write second_write upd_id upd_position].
    rewrite HL, first_move, second_move by done.
    repeat split; [|apply renumber_idem]. rewrite Hr. cbn [map_variants p_variants]. rewrite HL.
    by apply renumber_swapped.
  - cbn [first_write upd_id]. rewrite Hp. apply variant_exists_In. rewrite variant_ids_app, variant_ids_cons, !elem_of_app, HL.
    right; left. by apply elem_of_layout_ids; right.
  - cbn [st_products transport_wait store_transport second_write upd_id].
    rewrite Hp, (move_products_split (first_write sv bv)); [|exact Hb1|exact Hb2].
    cbn [p_variants first_write upd_id upd_position].
    rewrite HL, first_move by done. apply variant_exists_In.
    rewrite variant_ids_app, variant_ids_cons, !elem_of_app. cbn [p_variants]. rewrite ids_renumber. right; left.
    rewrite map_app; cbn [map]; set_solver.
Qed.

End OnMoveStore.

(** ** Witness: a variant between the sample and the bolt *)

#[local] Existing Instance demo_env.
Local Open Scope string_scope.

Definition gadget : product :=
  mkProduct 2 "Gadget" [mkVariant 20 "Free sample" 1; mkVariant 21 "Large" 2; mkVariant 22 "Bolt" 3].

Definition gadget_store : store := mkStore "demo" "shpat_0" [gadget] 0.

Lemma reorder_moves_on_store_witness :
  exists st' t q,
    @checkAndReorderVariants _ _ (store_transport MoveInList) gadget gadget_store = (st', t, Ok tt) /\
    st_products st' = ([] ++ q :: [])%list /\ p_id q = p_id gadget /\ p_title q = p_title gadget /\
    p_variants q ≡ₚ p_variants (reorder_product gadget) /\ renumber 1 (p_variants q) = p_variants q.
Proof.
  apply (reorder_moves_on_store gadget_store [] gadget []); [reflexivity|reflexivity|reflexivity| |reflexivity].
  apply (bool_decide_unpack _). vm_compute. exact I.
Defined.
