(* ===== verification/Pages.v ===== *)
(** * Pagination termination (P6 of the spec) on a scripted listing

    The store here answers the GETs with a given sequence of pages, one
    page per GET, and accepts every PUT.  When each page is a success
    with products and every page but the last carries a [rel="next"]
    link that the code follows, the loop takes exactly the pages of the
    sequence, logs one batch line per page, and stops after the last
    one, whatever the cursors and whatever the products. *)

From Stdlib Require Import String ZArith List Lia.
From stdpp Require Import base list strings decidable.
From S2P Require Import Prelude Catalog Http Store Retry Reorder Pager.
Import ListNotations.

(** The listing as a script: each GET takes the next page. *)
Definition pages_transport : Transport (list response) := {|
  transport_send s rq :=
    match req_method rq, s with
    | GET, r :: s' => (s', Reply r)
    | GET, [] => (s, NetworkFailure)
    | PUT, _ => (s, Reply put_ok_response)
    end;
  transport_wait s _ := s
|}.

(** The page numbers of the batch lines of a trace. *)
Definition batches (t : list event) : list Z :=
  omap (fun e => match e with EvLog (LogPage k _) => Some k | _ => None end) t.

Lemma batches_app t1 t2 : batches (t1 ++ t2) = batches t1 ++ batches t2.
Proof. apply omap_app. Qed.

Lemma batches_request rq t : batches (EvRequest rq :: t) = batches t.
Proof. done. Qed.

Lemma batches_page k c t : batches (EvLog (LogPage k c) :: t) = k :: batches t.
Proof. done. Qed.

(** A page the loop processes: a success with a non-empty product list. *)
Definition full_page (r : response) : Prop :=
  validateStatus (status r) = true /\ exists p ps, products_field (data r) = Some (p :: ps).

Section Pages.
Context {env : Env}.
#[local] Existing Instance pages_transport.

(** On this store the policy never reads a page and always succeeds. *)
Lemma reorder_on_pages p s :
  exists t, checkAndReorderVariants p s = (s, t, Ok tt) /\ batches t = [].
Proof.
  destruct (reorder_product_cases p) as [[Hw _]|(sv & bv & Hs & Hb & Hlt & _)].
  - exists []. by rewrite reorder_noop.
  - eexists. erewrite reorder_swap_run; [split; [reflexivity|done]|exact Hs|exact Hb|exact Hlt|
      reflexivity|reflexivity|reflexivity|reflexivity].
Qed.

Lemma for_each_on_pages ps s :
  exists t, for_each ps checkAndReorderVariants s = (s, t, Ok tt) /\ batches t = [].
Proof.
  induction ps as [|p ps IH]; [by exists []|]. cbn [for_each]. unfold ebind.
  destruct (reorder_on_pages p s) as (t1 & -> & H1). destruct IH as (t2 & -> & H2).
  exists (t1 ++ t2). by rewrite batches_app, H1, H2.
Qed.

(** C25 (P6 of the spec).  When the pages [rs ++ [last]] are all
    successes with products, each page of [rs] links to a next page and
    [last] does not, the loop started with enough fuel fetches exactly
    those pages, logs the batches [n+1 .. n+length rs+1], stops, and
    leaves the rest of the listing unread. *)
Theorem page_loop_consumes_pages fuel url n rs last rest :
  Forall full_page (rs ++ [last]) ->
  Forall (fun r => next_url (headers r) <> None) rs -> next_url (headers last) = None ->
  (length rs < fuel)%nat ->
  exists t, page_loop fuel url n (rs ++ last :: rest) = (rest, t, Ok tt) /\
    batches t = map (fun i => n + Z.of_nat i)%Z (seq 1 (S (length rs))).
Proof.
  revert fuel url n. induction rs as [|r rs IH]; intros fuel url n Hfull Hnext Hlast Hf;
    destruct fuel as [|fuel]; try (simpl in Hf; lia); rewrite page_loop_step; cbn [app] in *;
    inversion Hfull as [|? ? (Hok & p & ps & Hp) Hfull']; subst.
  - rewrite (@retry_ok _ _ pages_transport url 5 1000 (last :: rest) rest last eq_refl Hok), Hp.
    destruct (for_each_on_pages (p :: ps) rest) as (t2 & -> & H2). rewrite Hlast.
    eexists. split; [reflexivity|]. rewrite batches_app, batches_request, batches_page, H2. done.
  - rewrite (@retry_ok _ _ pages_transport url 5 1000 (r :: rs ++ last :: rest) (rs ++ last :: rest) r eq_refl Hok), Hp.
    destruct (for_each_on_pages (p :: ps) (rs ++ last :: rest)) as (t2 & -> & H2).
    inversion Hnext as [|? ? Hr Hnext']; subst.
    destruct (next_url (headers r)) as [url'|]; [|done].
    destruct (IH fuel url' (n + 1)%Z Hfull' Hnext' Hlast) as (t3 & -> & H3); [simpl in Hf; lia|].
    eexists. split; [reflexivity|].
    rewrite batches_app, batches_request, batches_page, batches_app, H2, H3.
    assert (Hs : forall k, map (fun i => (n + 1 + Z.of_nat i)%Z) (seq 1 k) =
                           map (fun i => (n + Z.of_nat i)%Z) (seq 2 k)).
    { intros k. rewrite <- (seq_shift k 1), map_map. apply map_ext. intros; lia. }
    rewrite Hs. change (seq 1 (S (length (r :: rs)))) with (1%nat :: seq 2 (length (r :: rs))).
    cbn [map app length]. f_equal; try lia.
Qed.

End Pages.

(** ** Witness: a linked page, then a last page *)

#[local] Existing Instance demo_env.

Lemma page_loop_consumes_pages_witness :
  exists t, @page_loop _ _ pages_transport 2 first_page_url 0 ([linked_page] ++ last_page :: []) =
    ([], t, Ok tt) /\ batches t = map (fun i => (0 + Z.of_nat i)%Z) (seq 1 (S (length [linked_page]))).
Proof.
  apply page_loop_consumes_pages.
  - repeat (apply Forall_cons; [split; [reflexivity|by eexists _, _]|]). apply Forall_nil.
  - apply Forall_cons; [vm_compute; discriminate|apply Forall_nil].
  - reflexivity.
  - simpl. lia.
Defined.
