(* ===== verification/Throttle.v ===== *)
(** * The store's rate limit, and why the pacing delays suffice

    The Admin API meters every store with a leaky bucket: each request
    adds one unit, the bucket leaks [leak] units per second, and a
    request that would overflow [capacity] is answered 429 without being
    served (the REST Admin API's standard bucket holds 40 and leaks 2 per
    second).  The spec's pacing delays (the [sleep(1000)] after each
    write, lines 73 and 75) exist to keep the program under that limit.

    The bucket is modelled two ways:
    - as a meter on traces: [level l t] is the bucket's level after the
      events of [t] from level [l], and [paced l t] says that every
      request of [t] found room;
    - as a store: [throttled T] wraps any transport [T] with a bucket,
      answering 429 when it is full and draining it while the program
      sleeps.

    [paced_by m b k a d] bounds the bucket over every run of [m] in the
    max-plus algebra of leaky buckets: from any level [l], the level never
    exceeds [max b (l + k)], and after an [Ok] outcome it is at most
    [max a (l + d)].  The bounds compose along [ebind] and [try_catch],
    which gives the bound of each function of the program from those of
    [send] and [sleep]: a swap returns the bucket to its level when the
    bucket leaks at least one unit per second, and a page adds one unit.
    A run with fuel [f] from level [l] is paced whenever
    [l + f + 1 <= capacity] (C29), and then the throttled store serves
    it exactly as the unthrottled one (C30), which carries the whole-run
    theorem of Run.v over to a rate-limited store (C31). *)

From Stdlib Require Import String ZArith List Lia.
From stdpp Require Import base list strings decidable.
From S2P Require Import Prelude Catalog Http Store Retry Reorder Pager Run.
Import ListNotations.
Local Open Scope Z_scope.

Create HintDb refines.

Section Bucket.
Variables capacity leak : Z.

(** The units the bucket loses while the program sleeps [ms]. *)
Definition drain (ms : Z) : Z := leak * ms / 1000.

Definition level_after (l : Z) (ev : event) : Z :=
  match ev with
  | EvRequest _ => l + 1
  | EvSleep ms => Z.max 0 (l - drain ms)
  | EvLog _ => l
  end.

Definition level (l : Z) (t : list event) : Z := fold_left level_after t l.

(** Every request of the trace finds room in the bucket. *)
Fixpoint paced (l : Z) (t : list event) : bool :=
  match t with
  | [] => true
  | EvRequest _ :: t' => (l + 1 <=? capacity) && paced (l + 1) t'
  | ev :: t' => paced (level_after l ev) t'
  end.

Lemma level_app l t1 t2 : level l (t1 ++ t2) = level (level l t1) t2.
Proof. apply fold_left_app. Qed.

Lemma level_cons l ev t : level l (ev :: t) = level (level_after l ev) t.
Proof. done. Qed.

Lemma paced_app l t1 t2 : paced l (t1 ++ t2) = paced l t1 && paced (level l t1) t2.
Proof.
  revert l. induction t1 as [|[rq|ms|x] t1 IH]; intros l; [done|..];
    cbn [paced app]; rewrite IH, level_cons; [|done..].
  by destruct (l + 1 <=? capacity).
Qed.

Lemma level_nonneg l t : 0 <= l -> 0 <= level l t.
Proof.
  revert l. induction t as [|[rq|ms|x] t IH]; intros l Hl; cbn; [done| | |]; apply IH; lia.
Qed.

Lemma paced_single_request l rq : paced l [EvRequest rq] = (l + 1 <=? capacity).
Proof. cbn. by destruct (l + 1 <=? capacity). Qed.

Section Bounds.
Context {env : Env} {σ : Type} {T : Transport σ}.

(** From any level [l >= 0] with [max b (l + k)] within the capacity,
    every run of [m] is paced, never leaves the bucket above
    [max b (l + k)], and after an [Ok] leaves it at most [max a (l + d)]. *)
Definition paced_by {A} (m : M σ A) (b k a d : Z) : Prop :=
  forall s s' t o l, m s = (s', t, o) -> 0 <= l -> Z.max b (l + k) <= capacity ->
    paced l t = true /\ level l t <= Z.max b (l + k) /\
    (forall x, o = Ok x -> level l t <= Z.max a (l + d)).

Lemma paced_by_weaken {A} (m : M σ A) b k a d b' k' a' d' :
  paced_by m b k a d -> b <= b' -> k <= k' -> a <= a' -> d <= d' -> paced_by m b' k' a' d'.
Proof.
  intros Hm Hb Hk Ha Hd s s' t o l Hrun Hl Hcap.
  destruct (Hm s s' t o l Hrun Hl) as (Hp & Hpk & Hok); [lia|].
  split; [done|]. split; [lia|]. intros x Hx. specialize (Hok x Hx). lia.
Qed.

(** A computation that sends nothing and does not sleep. *)
Ltac paced_quiet := intros ? ? ? ? ? [= _ <- <-] ? _; cbn; split; [done|]; split; [lia|];
  intros ? ?; (discriminate || lia).

Lemma paced_by_ret {A} (x : A) : paced_by (eret x) 0 0 0 0.
Proof. paced_quiet. Qed.

Lemma paced_by_throw {A} e : paced_by (A:=A) (throw e) 0 0 0 0.
Proof. paced_quiet. Qed.

Lemma paced_by_out_of_fuel {A} : paced_by (A:=A) out_of_fuel 0 0 0 0.
Proof. paced_quiet. Qed.

Lemma paced_by_console x : paced_by (console x) 0 0 0 0.
Proof. paced_quiet. Qed.

Lemma paced_by_send m url body : paced_by (send m url body) 0 1 0 1.
Proof.
  intros s s' t o l Hrun Hl Hcap. rewrite send_run in Hrun. injection Hrun as _ <- _.
  rewrite paced_single_request. cbn. split; [apply Z.leb_le; lia|]. split; [lia|]. intros; lia.
Qed.

Lemma paced_by_sleep ms : 0 <= drain ms -> paced_by (sleep ms) 0 0 0 (- drain ms).
Proof. intros Hd s s' t o l [= _ <- _] Hl _. cbn. split; [done|]. split; [lia|]. intros; lia. Qed.

(** The sequencing rule, in the max-plus algebra. *)
Lemma paced_by_bind {A B} (m : M σ A) (f : A -> M σ B) b1 k1 a1 d1 b2 k2 a2 d2 :
  paced_by m b1 k1 a1 d1 -> (forall x, paced_by (f x) b2 k2 a2 d2) ->
  paced_by (ebind m f) (Z.max b1 (Z.max b2 (a1 + k2))) (Z.max k1 (d1 + k2))
    (Z.max a2 (a1 + d2)) (d1 + d2).
Proof.
  intros Hm Hf s s' t o l Hrun Hl Hcap. unfold ebind in Hrun.
  destruct (m s) as [[s1 t1] o1] eqn:E1.
  destruct (Hm s s1 t1 o1 l E1 Hl) as (Hp1 & Hpk1 & Hok1); [lia|].
  destruct o1 as [x|e|]; [|injection Hrun as _ <- <-; split; [done|]; split; [lia|done]..].
  specialize (Hok1 x eq_refl). pose proof (level_nonneg l t1 Hl) as Hn1.
  destruct (f x s1) as [[s2 t2] o2] eqn:E2. injection Hrun as _ <- <-.
  destruct (Hf x s1 s2 t2 o2 (level l t1) E2 Hn1) as (Hp2 & Hpk2 & Hok2); [lia|].
  rewrite paced_app, level_app, Hp1, Hp2. split; [done|]. split; [lia|].
  intros y Hy. specialize (Hok2 y Hy). lia.
Qed.

(** The handler runs from the level the failed computation left. *)
Lemma paced_by_catch {A} (m : M σ A) h b1 k1 a1 d1 b2 k2 a2 d2 :
  paced_by m b1 k1 a1 d1 -> (forall e, paced_by (h e) b2 k2 a2 d2) ->
  paced_by (try_catch m h) (Z.max b1 (Z.max b2 (b1 + k2))) (Z.max k1 (k1 + k2))
    (Z.max a1 (Z.max a2 (b1 + d2))) (Z.max d1 (k1 + d2)).
Proof.
  intros Hm Hh s s' t o l Hrun Hl Hcap. unfold try_catch in Hrun.
  destruct (m s) as [[s1 t1] o1] eqn:E1.
  destruct (Hm s s1 t1 o1 l E1 Hl) as (Hp1 & Hpk1 & Hok1); [lia|].
  destruct o1 as [x|e|]; [injection Hrun as _ <- <-; split; [done|]; split; [lia|]|
    |injection Hrun as _ <- <-; split; [done|]; split; [lia|done]].
  { intros y [= <-]. specialize (Hok1 x eq_refl). lia. }
  pose proof (level_nonneg l t1 Hl) as Hn1.
  destruct (h e s1) as [[s2 t2] o2] eqn:E2. injection Hrun as _ <- <-.
  destruct (Hh e s1 s2 t2 o2 (level l t1) E2 Hn1) as (Hp2 & Hpk2 & Hok2); [lia|].
  rewrite paced_app, level_app, Hp1, Hp2. split; [done|]. split; [lia|].
  intros y Hy. specialize (Hok2 y Hy). lia.
Qed.

(** A loop of steps that each return the bucket to its level. *)
Lemma paced_by_for_each {A} (xs : list A) f b k a :
  0 <= a -> 0 <= k -> a + k <= b -> (forall x, paced_by (f x) b k a 0) ->
  paced_by (for_each xs f) b k a 0.
Proof.
  intros Ha Hk Hb Hf. induction xs as [|x xs IH]; cbn [for_each].
  - eapply paced_by_weaken; [apply paced_by_ret|lia..].
  - eapply paced_by_weaken; [eapply paced_by_bind; [apply Hf|intros; apply IH]|lia..].
Qed.

Lemma paced_by_bind_le {A B} (m : M σ A) (f : A -> M σ B) b1 k1 a1 d1 b2 k2 a2 d2 b k a d :
  paced_by m b1 k1 a1 d1 -> (forall x, paced_by (f x) b2 k2 a2 d2) ->
  Z.max b1 (Z.max b2 (a1 + k2)) <= b -> Z.max k1 (d1 + k2) <= k ->
  Z.max a2 (a1 + d2) <= a -> d1 + d2 <= d -> paced_by (ebind m f) b k a d.
Proof. intros Hm Hf. apply paced_by_weaken. by apply paced_by_bind. Qed.

Lemma paced_by_ret_le {A} (x : A) b k a d :
  0 <= b -> 0 <= k -> 0 <= a -> 0 <= d -> paced_by (eret x) b k a d.
Proof. apply paced_by_weaken, paced_by_ret. Qed.

(** The bucket leaks at least one unit per second. *)
Hypothesis Hleak : 1 <= leak.

Lemma drain_pos ms : 1000 <= ms -> 1 <= drain ms.
Proof. intros Hms. unfold drain. apply Z.div_le_lower_bound; nia. Qed.

Lemma paced_by_update id pos : paced_by (updateVariantPosition id pos) 0 1 0 1.
Proof.
  unfold updateVariantPosition.
  apply (paced_by_bind_le _ _ 0 1 0 1 0 0 0 0); [apply paced_by_send|intros; apply paced_by_ret|lia..].
Qed.

(** The bound of a chain of binds, computed from its steps. *)
Ltac paced_prim :=
  first [ apply paced_by_update | apply paced_by_send | apply paced_by_console
        | apply paced_by_ret | apply paced_by_throw | apply paced_by_out_of_fuel
        | apply paced_by_sleep; pose proof (drain_pos 1000); lia ].
Ltac paced_chain leaf :=
  first [ paced_prim | leaf | eapply paced_by_bind; [paced_chain leaf|intros; paced_chain leaf] ].

(** A swap sends two writes, each followed by a second of sleep: the
    bucket never rises more than one unit and ends no higher than it
    started. *)
Lemma paced_by_reorder p : paced_by (checkAndReorderVariants p) 1 1 0 0.
Proof.
  pose proof (drain_pos 1000 ltac:(lia)) as Hd.
  unfold checkAndReorderVariants; cbv zeta. repeat case_match; try (apply paced_by_ret_le; lia).
  eapply paced_by_weaken; [paced_chain fail|lia..].
Qed.

(** Each attempt of the retrier is followed, when it is retried, by a
    sleep of at least one second. *)
Lemma paced_by_retry url n d : 1000 <= d -> paced_by (retryRequest url n d) 1 1 1 1.
Proof.
  revert d. induction n as [|n IH]; intros d Hd; pose proof (drain_pos d Hd) as Hdr; cbn [retryRequest];
    (eapply paced_by_weaken; [apply (paced_by_catch _ _ 0 1 0 1 1 0 1 0); [apply paced_by_send|]|lia..]);
    intros [[r|]]; repeat case_match; try (eapply paced_by_weaken; [apply paced_by_throw|lia..]).
  eapply paced_by_weaken; [paced_chain ltac:(apply IH; lia)|lia..].
Qed.

Lemma paced_by_products ps : paced_by (for_each ps checkAndReorderVariants) 1 1 0 0.
Proof. apply paced_by_for_each; [lia..|apply paced_by_reorder]. Qed.

(** A page adds one unit, its GET, to the bucket; its writes return the
    bucket to where the GET left it. *)
Lemma paced_by_page_loop fuel url n :
  paced_by (page_loop fuel url n) (Z.of_nat fuel + 1) (Z.of_nat fuel + 1) (Z.of_nat fuel) (Z.of_nat fuel).
Proof.
  revert url n. induction fuel as [|fuel IH]; intros url n; cbn [page_loop].
  { eapply paced_by_weaken; [apply paced_by_out_of_fuel|lia..]. }
  set (F := Z.of_nat fuel).
  apply (paced_by_bind_le _ _ 1 1 1 1 (F + 1) (F + 1) F F); [apply paced_by_retry; lia| |lia..].
  intros r. destruct (products_field (data r)) as [[|p ps]|]; try (apply paced_by_ret_le; lia).
  apply (paced_by_bind_le _ _ 0 0 0 0 (F + 1) (F + 1) F F); [apply paced_by_console| |lia..]. intros _.
  apply (paced_by_bind_le _ _ 1 1 0 0 (F + 1) (F + 1) F F); [apply paced_by_products| |lia..]. intros _.
  destruct (next_url (headers r)); [apply IH|apply paced_by_ret_le; lia].
Qed.

Lemma paced_by_main fuel :
  paced_by (main fuel) (Z.of_nat fuel + 1) (Z.of_nat fuel + 1) (Z.of_nat fuel + 1) (Z.of_nat fuel + 1).
Proof.
  unfold main, processAllProducts.
  eapply paced_by_weaken; [eapply paced_by_catch; [eapply paced_by_bind;
    [apply paced_by_page_loop|intros; apply paced_by_console]|intros; apply paced_by_console]|lia..].
Qed.

(** C29 (the pacing delays respect the rate limit).  Whatever the store
    answers, when the bucket leaks at least one unit per second, every
    request of a run with fuel [f] started at bucket level [l] finds room
    in the bucket as soon as [l + f + 1 <= capacity]: the second of sleep
    after each write (lines 73 and 75) and after each throttled read
    (line 26) gives back what the request took, so only the GET of each
    page stays in the bucket. *)
Theorem main_paced fuel s s' t o l :
  0 <= l -> l + Z.of_nat fuel + 1 <= capacity ->
  main fuel s = (s', t, o) -> paced l t = true.
Proof. intros Hl Hcap Hrun. apply (paced_by_main fuel s s' t o l Hrun Hl). lia. Qed.

End Bounds.

(** ** The store behind the bucket *)

Section Throttled.
Context {env : Env} {σ : Type} (T : Transport σ).

(** A store [T] metered by the bucket: a request that finds the bucket
    full is answered 429 and not served; a served request adds one unit;
    sleeping drains the bucket. *)
Definition throttled : Transport (Z * σ) := {|
  transport_send ls rq :=
    let '(l, s) := ls in
    if l + 1 <=? capacity then let '(s', rep) := @transport_send _ T s rq in ((l + 1, s'), rep)
    else (ls, Reply (error_response 429));
  transport_wait ls ms := let '(l, s) := ls in (Z.max 0 (l - drain ms), @transport_wait _ T s ms)
|}.

(** [m2] on the throttled store does what [m1] does on [T] whenever the
    trace of [m1] is paced, the bucket following the trace. *)
Definition refines {A} (m2 : M (Z * σ) A) (m1 : M σ A) : Prop :=
  forall l s s' t o, m1 s = (s', t, o) -> paced l t = true -> m2 (l, s) = ((level l t, s'), t, o).

Lemma refines_ret {A} (x : A) : refines (eret x) (eret x).
Proof. by intros l s s' t o [= <- <- <-]. Qed.

Lemma refines_throw {A} e : refines (A:=A) (throw e) (throw e).
Proof. by intros l s s' t o [= <- <- <-]. Qed.

Lemma refines_out_of_fuel {A} : refines (A:=A) out_of_fuel out_of_fuel.
Proof. by intros l s s' t o [= <- <- <-]. Qed.

Lemma refines_console x : refines (console x) (console x).
Proof. by intros l s s' t o [= <- <- <-]. Qed.

Lemma refines_send m url b : refines (@send _ _ throttled m url b) (@send _ _ T m url b).
Proof.
  intros l s s' t o. rewrite send_run. intros [= <- <- <-]. rewrite paced_single_request. intros Hc.
  unfold send; cbn [transport_send throttled]. rewrite Hc.
  by destruct (@transport_send _ T s _).
Qed.

Lemma refines_sleep ms : refines (@sleep _ throttled ms) (@sleep _ T ms).
Proof. by intros l s s' t o [= <- <- <-]. Qed.

Lemma refines_bind {A B} m2 m1 (k2 : A -> M (Z * σ) B) k1 :
  refines m2 m1 -> (forall x, refines (k2 x) (k1 x)) -> refines (ebind m2 k2) (ebind m1 k1).
Proof.
  intros Hm Hk l s s' t o. unfold ebind.
  destruct (m1 s) as [[s1 t1] [x|e|]] eqn:E1;
    [|intros [= <- <- <-] P1; by rewrite (Hm _ _ _ _ _ E1 P1)..].
  destruct (k1 x s1) as [[s2 t2] o2] eqn:E2. intros [= <- <- <-].
  rewrite paced_app. intros [P1 P2]%andb_prop.
  by rewrite (Hm _ _ _ _ _ E1 P1), (Hk x _ _ _ _ _ E2 P2), level_app.
Qed.

Lemma refines_catch {A} m2 m1 (h2 : js_error -> M (Z * σ) A) h1 :
  refines m2 m1 -> (forall e, refines (h2 e) (h1 e)) -> refines (try_catch m2 h2) (try_catch m1 h1).
Proof.
  intros Hm Hh l s s' t o. unfold try_catch.
  destruct (m1 s) as [[s1 t1] [x|e|]] eqn:E1;
    [intros [= <- <- <-] P1; by rewrite (Hm _ _ _ _ _ E1 P1)| |intros [= <- <- <-] P1; by rewrite (Hm _ _ _ _ _ E1 P1)].
  destruct (h1 e s1) as [[s2 t2] o2] eqn:E2. intros [= <- <- <-].
  rewrite paced_app. intros [P1 P2]%andb_prop.
  by rewrite (Hm _ _ _ _ _ E1 P1), (Hh e _ _ _ _ _ E2 P2), level_app.
Qed.

Lemma refines_for_each {A} (xs : list A) f2 f1 :
  (forall x, refines (f2 x) (f1 x)) -> refines (for_each xs f2) (for_each xs f1).
Proof.
  intros Hf. induction xs as [|x xs IH]; cbn [for_each]; [apply refines_ret|].
  apply refines_bind; [apply Hf|intros; apply IH].
Qed.

#[local] Hint Resolve refines_ret refines_throw refines_out_of_fuel refines_console refines_send
  refines_sleep refines_bind refines_catch refines_for_each : refines.

Lemma refines_retry url n d :
  refines (@retryRequest _ _ throttled url n d) (@retryRequest _ _ T url n d).
Proof.
  revert d. induction n as [|n IH]; intros d; cbn [retryRequest];
    apply refines_catch; [apply refines_send| |apply refines_send|];
    intros [[r|]]; repeat case_match; auto with refines.
Qed.

Lemma refines_update id pos :
  refines (@updateVariantPosition _ _ throttled id pos) (@updateVariantPosition _ _ T id pos).
Proof. unfold updateVariantPosition, apiClient_put. auto with refines. Qed.

Lemma refines_reorder p :
  refines (@checkAndReorderVariants _ _ throttled p) (@checkAndReorderVariants _ _ T p).
Proof.
  unfold checkAndReorderVariants; cbv zeta. repeat case_match; auto 10 using refines_update with refines.
Qed.

Lemma refines_page_loop fuel url n :
  refines (@page_loop _ _ throttled fuel url n) (@page_loop _ _ T fuel url n).
Proof.
  revert url n. induction fuel as [|fuel IH]; intros url n; cbn [page_loop]; [auto with refines|].
  apply refines_bind; [apply refines_retry|]. intros r.
  repeat case_match; auto 10 using refines_reorder with refines.
Qed.

Lemma refines_main fuel : refines (@main _ _ throttled fuel) (@main _ _ T fuel).
Proof.
  unfold main, processAllProducts.
  apply refines_catch; [apply refines_bind; [apply refines_page_loop|]|]; auto with refines.
Qed.

End Throttled.

(** C30 (the throttled store refines the store).  When the bucket leaks
    at least one unit per second and a run with fuel [f] starts at level
    [l] with [l + f + 1 <= capacity], the run on the throttled store is
    the run on the store itself: the same requests, sleeps and console
    lines, the same outcome and the same final store, with the bucket at
    [level l t] after the trace [t]; no request is ever answered 429 by
    the bucket. *)
Theorem main_throttled {env : Env} {σ : Type} (T : Transport σ) fuel l s :
  1 <= leak -> 0 <= l -> l + Z.of_nat fuel + 1 <= capacity ->
  let '(s', t, o) := @main _ _ T fuel s in
  @main _ _ (throttled T) fuel (l, s) = ((level l t, s'), t, o).
Proof.
  intros Hleak Hl Hcap. destruct (main fuel s) as [[s' t] o] eqn:E.
  apply (refines_main T fuel l s s' t o E).
  destruct (paced_by_main (T:=T) Hleak fuel s s' t o l E Hl) as [Hp _]; [lia|done].
Qed.

End Bucket.

(** The REST Admin API's standard bucket: 40 requests, leaking 2 per second. *)
Definition shopify_capacity : Z := 40.
Definition shopify_leak : Z := 2.

Section ThrottledStore.
Context {env : Env}.

(** C31 (the whole run on a rate-limited store).  On the [SetField]
    store of C1 behind a bucket that leaks at least one unit per second,
    started at a level [l] with [l + f + 1] within the capacity, [main]
    with fuel [f] (one unit per page) resolves and leaves every product
    as [reorder_product] makes it, exactly as on the store without a
    rate limit. *)
Theorem main_on_throttled_store capacity leak fuel l st :
  1 <= leak -> 0 <= l -> l + Z.of_nat fuel + 1 <= capacity ->
  string_forall is_handle_char (st_name st) = true ->
  st_name st = SHOPIFY_STORE -> st_token st = SHOPIFY_ACCESS_TOKEN ->
  NoDup (variant_ids (st_products st)) ->
  (length (st_products st) <= fuel * page_limit)%nat -> (0 < fuel)%nat ->
  exists l' st' t,
    @main _ _ (throttled capacity leak set_field_transport) fuel (l, st) = ((l', st'), t, Ok tt) /\
    st_products st' = map reorder_product (st_products st).
Proof.
  intros Hleak Hl Hcap Hh Hn Ht Hu Hlen Hf.
  destruct (process_on_store fuel st) as (st' & t & H & _ & _ & Hp & _); try done.
  assert (E : @main _ _ set_field_transport fuel st = (st', t ++ [EvLog LogFinished], Ok tt))
    by (unfold main; apply try_catch_not_Exc; [done|discriminate]).
  exists (level leak l (t ++ [EvLog LogFinished])), st', (t ++ [EvLog LogFinished]). split; [|done].
  apply (refines_main capacity leak set_field_transport fuel l st _ _ _ E).
  destruct (paced_by_main capacity leak (T:=set_field_transport) Hleak fuel st _ _ _ l E Hl) as [Hpc _];
    [lia|done].
Qed.

End ThrottledStore.

(** ** Witnesses *)

#[local] Existing Instance demo_env.

Lemma main_paced_witness :
  let '(_, t, _) := @main _ _ script_transport 2 [Reply last_page] in
  paced shopify_capacity shopify_leak 0 t = true.
Proof.
  destruct (@main _ _ script_transport 2 [Reply last_page]) as [[s' t] o] eqn:E.
  exact (main_paced shopify_capacity shopify_leak ltac:(vm_compute; discriminate) 2 _ s' t o 0
           ltac:(lia) ltac:(vm_compute; discriminate) E).
Defined.

Lemma main_throttled_witness :
  let '(s', t, o) := @main _ _ script_transport 2 [Reply last_page] in
  @main _ _ (throttled shopify_capacity shopify_leak script_transport) 2 (0, [Reply last_page]) =
    ((level shopify_leak 0 t, s'), t, o).
Proof.
  apply main_throttled; unfold shopify_capacity, shopify_leak; lia.
Defined.

Lemma main_on_throttled_store_witness :
  exists l' st' t,
    @main _ _ (throttled shopify_capacity shopify_leak set_field_transport) 1 (0, demo_store) =
      ((l', st'), t, Ok tt) /\
    st_products st' = map reorder_product (st_products demo_store).
Proof.
  apply main_on_throttled_store; unfold shopify_capacity, shopify_leak;
    [lia|lia|simpl; lia|reflexivity|reflexivity|reflexivity| |simpl; lia|lia].
  apply (bool_decide_unpack _). vm_compute. exact I.
Defined.
